(** * Livraria Aoros: a shallow embedding of [Livraria/app.py]

    The catalog manager keeps one SQLite table [livros] in a store file,
    copies that file to a time-stamped archive before every change, keeps
    the five archives with the greatest modification time, and imports and
    exports the catalog as CSV.

    The development has three layers:
    - [PyStr], [PyNum]: the Python built-ins the code calls ([str.strip],
      [int], [float], [str]);
    - [Sqlite], the world (store file, backup directory, CSV files, clock)
      and an error monad over it;
    - the functions of [app.py], under their own names, followed by the
      properties proved about them.

    Conventions.  A Python [str] is a [string] whose characters are the
    code points 0..255.  Integers are [Z]; values handed to SQLite are
    assumed to fit its 64-bit INTEGER.  A Python [float] is an IEEE-754
    binary64 value, represented by [spec_float] with [prec = 53] and
    [emax = 1024].  The world is that of a tree whose four directories
    exist, as they do from the first [ensure_directories] on ([menu]
    starts with [init_db], which runs it): a world without a store file
    is such a tree with the file missing.  On a tree without the
    directory of the store file [sqlite3.connect] fails and creates
    nothing; the world has no such state. *)

From Stdlib Require Import ZArith Lia Ascii String List Bool.
From Stdlib Require Import Floats.SpecFloat.
From Stdlib Require Import Sorting.Sorted Sorting.Permutation.
From stdpp Require Import base option list sorting gmap fin_maps strings.

Local Open Scope Z_scope.

(** ** Python strings *)

Module PyStr.

Definition code (c : ascii) : Z := Z.of_N (N_of_ascii c).

(** [str.isspace] on code points below 256: TAB..CR, FS..US, space,
    NEL (0x85) and NBSP (0xA0). *)
Definition py_isspace (c : ascii) : bool :=
  let n := code c in
  ((9 <=? n) && (n <=? 13)) || ((28 <=? n) && (n <=? 32))
  || (n =? 133) || (n =? 160).

(** Dropping the characters that [sp] holds of, from the left end, the
    right end, both ends. *)
Fixpoint lstrip (sp : ascii -> bool) (l : list ascii) : list ascii :=
  match l with
  | c :: l' => if sp c then lstrip sp l' else l
  | [] => []
  end.

Definition rstrip (sp : ascii -> bool) (l : list ascii) : list ascii :=
  rev (lstrip sp (rev l)).

Definition strip_chars (sp : ascii -> bool) (l : list ascii) : list ascii :=
  rstrip sp (lstrip sp l).

(** [s.strip()] *)
Definition strip (s : string) : string :=
  string_of_list_ascii (strip_chars py_isspace (list_ascii_of_string s)).

(** A string made of whitespace only (the empty string included). *)
Definition all_space (s : string) : bool :=
  forallb py_isspace (list_ascii_of_string s).

(** Truth value of a string: [bool(s)]. *)
Definition truthy (s : string) : bool :=
  match s with EmptyString => false | _ => true end.

End PyStr.

(** ** Python numbers: [int(str)], [float(str)], [str(int)] *)

Module PyNum.
Import PyStr.

(** The whitespace [int] and [float] skip around a number: as
    [str.isspace], but for FS..US. *)
Definition num_isspace (c : ascii) : bool :=
  let n := code c in
  ((9 <=? n) && (n <=? 13)) || (n =? 32) || (n =? 133) || (n =? 160).

Definition is_digit (c : ascii) : bool := (48 <=? code c) && (code c <=? 57).
Definition digit_val (c : ascii) : Z := code c - 48.

(** The tail [(["_"] digit)*] of a [digitpart]: the digits read and the
    rest of the input. *)
Fixpoint digits_tail (l : list ascii) : list Z * list ascii :=
  match l with
  | c :: l' =>
      if is_digit c then
        let '(ds, r) := digits_tail l' in (digit_val c :: ds, r)
      else if Ascii.eqb c "_" then
        match l' with
        | c2 :: l'' =>
            if is_digit c2 then
              let '(ds, r) := digits_tail l'' in (digit_val c2 :: ds, r)
            else ([], l)
        | [] => ([], l)
        end
      else ([], l)
  | [] => ([], [])
  end.

(** [digitpart ::= digit (["_"] digit)*]; no digit read when the input
    does not start with one. *)
Definition digitpart (l : list ascii) : list Z * list ascii :=
  match l with
  | c :: l' =>
      if is_digit c then
        let '(ds, r) := digits_tail l' in (digit_val c :: ds, r)
      else ([], l)
  | [] => ([], [])
  end.

Definition of_digits (ds : list Z) : Z :=
  fold_left (fun acc d => 10 * acc + d) ds 0.

(** An optional sign: [true] for "-". *)
Definition sign (l : list ascii) : bool * list ascii :=
  match l with
  | c :: l' =>
      if Ascii.eqb c "-" then (true, l')
      else if Ascii.eqb c "+" then (false, l')
      else (false, l)
  | [] => (false, [])
  end.

(** [int(s)] in base 10; [None] stands for [ValueError]. *)
Definition py_int (s : string) : option Z :=
  let '(neg, l) := sign (strip_chars num_isspace (list_ascii_of_string s)) in
  match digitpart l with
  | (d :: ds, []) =>
      let n := of_digits (d :: ds) in Some (if neg then - n else n)
  | _ => None
  end.

(** [str(n)] for an integer. *)
Definition digit_char (d : Z) : ascii := ascii_of_N (Z.to_N (48 + d)).

Fixpoint pos_digits (fuel : nat) (n : Z) (acc : list ascii) : list ascii :=
  match fuel with
  | O => acc
  | S fuel' =>
      if n <? 10 then digit_char n :: acc
      else pos_digits fuel' (n / 10) (digit_char (n mod 10) :: acc)
  end.

Definition nat_digits (n : Z) : list ascii :=
  pos_digits (S (Z.to_nat (Z.log2 n))) n [].

Definition py_str_int (n : Z) : string :=
  string_of_list_ascii
    (if n <? 0 then "-"%char :: nat_digits (- n) else nat_digits n).

(** *** Floats *)

Definition PyFloat := spec_float.

Definition prec : Z := 53.
Definition emax : Z := 1024.

(** The binary64 value nearest to [m * 10^e] (ties to even), for
    [m > 0]; overflow gives an infinity, underflow a zero. *)
Definition float_of_decimal (neg : bool) (m e : Z) : PyFloat :=
  match m with
  | Z0 => S754_zero neg
  | _ =>
      if 0 <=? e then
        binary_normalize prec emax ((if neg then - m else m) * 10 ^ e) 0 false
      else
        let '(q, e2, l) := SFdiv_core_binary prec emax m 0 (10 ^ (- e)) 0 in
        binary_round_aux prec emax neg q e2 l
  end.

Definition lower (c : ascii) : ascii :=
  if (65 <=? code c) && (code c <=? 90)
  then ascii_of_N (Z.to_N (code c + 32)) else c.

Definition lower_string (l : list ascii) : string :=
  string_of_list_ascii (map lower l).

(** [exponent ::= ("e" | "E") [sign] digitpart]; the decimal exponent
    and the rest of the input, [None] when an exponent starts and is
    malformed. *)
Definition exponent (l : list ascii) : option (Z * list ascii) :=
  match l with
  | c :: l' =>
      if Ascii.eqb (lower c) "e" then
        let '(neg, l1) := sign l' in
        match digitpart l1 with
        | (d :: ds, r) =>
            let n := of_digits (d :: ds) in Some (if neg then - n else n, r)
        | _ => None
        end
      else Some (0, l)
  | [] => Some (0, [])
  end.

(** [float(s)]; [None] stands for [ValueError]. *)
Definition py_float (s : string) : option PyFloat :=
  let '(neg, l) := sign (strip_chars num_isspace (list_ascii_of_string s)) in
  let w := lower_string l in
  if String.eqb w "inf" || String.eqb w "infinity" then Some (S754_infinity neg)
  else if String.eqb w "nan" then Some S754_nan
  else
    let '(ip, l1) := digitpart l in
    let '(fp, l2) :=
      match l1 with
      | c :: l1' => if Ascii.eqb c "." then digitpart l1' else ([], l1)
      | [] => ([], [])
      end in
    match ip ++ fp with
    | [] => None
    | ds =>
        match exponent l2 with
        | Some (e, []) =>
            Some (float_of_decimal neg (of_digits ds) (e - Z.of_nat (length fp)))
        | _ => None
        end
    end.

(** [x >= 0] on floats: false for NaN. *)
Definition float_ge0 (x : PyFloat) : bool := SFleb (S754_zero false) x.

Definition is_nan (x : PyFloat) : bool :=
  match x with S754_nan => true | _ => false end.

#[export] Instance spec_float_eq_dec : EqDecision spec_float.
Proof. solve_decision. Defined.

(** *** [repr(float)]

    [repr] gives the shortest decimal string that [float] reads back as
    the same value and, among those, the one nearest to the value.  The
    search below tries 1, 2, ... 17 significant digits; for each count it
    tests the two neighbouring decimals, nearer first. *)

(** A finite positive float [m * 2^e] as a fraction. *)
Definition frac_of (m : positive) (e : Z) : Z * Z :=
  if 0 <=? e then (Z.pos m * 2 ^ e, 1) else (Z.pos m, 2 ^ (- e)).

(** [num / den < 10^p] *)
Definition below_pow10 (num den p : Z) : bool :=
  if 0 <=? p then num <? den * 10 ^ p else num * 10 ^ (- p) <? den.

(** The position of the decimal point: the least [p] with
    [num / den < 10^p]. *)
Definition decimal_point (num den : Z) : Z :=
  let est := ((Z.log2 num - Z.log2 den) * 30103) / 100000 in
  if below_pow10 num den (est - 1) then est - 1
  else if below_pow10 num den est then est
  else if below_pow10 num den (est + 1) then est + 1
  else est + 2.

Fixpoint strip_zeros_rev (l : list ascii) : list ascii :=
  match l with
  | c :: l' =>
      if Ascii.eqb c "0" then
        match l' with [] => l | _ => strip_zeros_rev l' end
      else l
  | [] => []
  end.

Definition exp_digits (e : Z) : list ascii :=
  let ds := nat_digits (Z.abs e) in
  (if e <? 0 then "-"%char else "+"%char)
    :: (if Z.abs e <? 10 then "0"%char :: ds else ds).

(** The text of [0.d1 d2 ... dn * 10^decpt] in [repr] style: exponent
    notation when [decpt <= -4] or [decpt > 16], positional otherwise,
    with ".0" after an integer. *)
Definition format_short (neg : bool) (ds : list ascii) (decpt : Z) : string :=
  let n := Z.of_nat (length ds) in
  let body :=
    if (decpt <=? -4) || (16 <? decpt) then
      match ds with
      | [] => []
      | d :: [] => d :: "e"%char :: exp_digits (decpt - 1)
      | d :: rest => d :: "."%char :: rest ++ "e"%char :: exp_digits (decpt - 1)
      end
    else if decpt <=? 0 then
      "0"%char :: "."%char :: repeat "0"%char (Z.to_nat (- decpt)) ++ ds
    else if decpt <? n then
      take (Z.to_nat decpt) ds ++ "."%char :: drop (Z.to_nat decpt) ds
    else
      ds ++ repeat "0"%char (Z.to_nat (decpt - n)) ++ ["."; "0"]%char
  in string_of_list_ascii (if neg then "-"%char :: body else body).

(** The text of the decimal [d * 10^(-s)], [d > 0]. *)
Definition decimal_text (neg : bool) (d s : Z) : string :=
  let ds := nat_digits d in
  format_short neg (rev (strip_zeros_rev (rev ds))) (Z.of_nat (length ds) - s).

(** The two [n]-digit decimals around [num / den], nearer first. *)
Definition candidates (neg : bool) (num den p : Z) (n : Z) : list string :=
  let s := n - p in
  let num' := if 0 <=? s then num * 10 ^ s else num in
  let den' := if 0 <=? s then den else den * 10 ^ (- s) in
  let lo := num' / den' in
  let r := num' mod den' in
  let tlo := decimal_text neg lo s in
  let thi := decimal_text neg (lo + 1) s in
  if r =? 0 then [tlo]
  else if lo =? 0 then [thi]
  else if 2 * r <? den' then [tlo; thi] else [thi; tlo].

Fixpoint shortest (x : PyFloat) (neg : bool) (num den p : Z)
    (fuel : nat) (n : Z) : string :=
  let cs := candidates neg num den p n in
  match fuel with
  | O => hd ""%string cs
  | S fuel' =>
      match filter (fun t => py_float t = Some x) cs with
      | t :: _ => t
      | [] => shortest x neg num den p fuel' (n + 1)
      end
  end.

(** [repr(x)], which is also what [str(x)] and [csv.writer] print. *)
Definition float_repr (x : PyFloat) : string :=
  match x with
  | S754_nan => "nan"
  | S754_infinity neg => if neg then "-inf" else "inf"
  | S754_zero neg => if neg then "-0.0" else "0.0"
  | S754_finite neg m e =>
      let '(num, den) := frac_of m e in
      shortest x neg num den (decimal_point num den) 16 1
  end.

End PyNum.

Import PyStr PyNum.


(** ** The SQLite table [livros] *)

Module Sqlite.

(** One row without its key: [titulo TEXT NOT NULL, autor TEXT NOT NULL,
    ano_publicacao INTEGER, preco REAL]. *)
Record Livro := mkLivro {
  titulo : string;
  autor : string;
  ano_publicacao : option Z;
  preco : option PyFloat
}.

#[export] Instance Livro_eq_dec : EqDecision Livro.
Proof. solve_decision. Defined.

(** The database: the table, keyed by [id INTEGER PRIMARY KEY
    AUTOINCREMENT], and the counter SQLite keeps in [sqlite_sequence]
    (the largest id ever given out). *)
Record DB := mkDB {
  livros : gmap Z Livro;
  seq : Z
}.

#[export] Instance DB_eq_dec : EqDecision DB.
Proof. solve_decision. Defined.

Definition empty_db : DB := {| livros := ∅; seq := 0 |}.

Definition max_rowid (t : gmap Z Livro) : Z :=
  map_fold (fun k _ acc => Z.max k acc) 0 t.

(** A REAL parameter: SQLite stores NaN as NULL and -0.0 as 0.0. *)
Definition sql_real (p : option PyFloat) : option PyFloat :=
  match p with
  | Some S754_nan => None
  | Some (S754_zero _) => Some (S754_zero false)
  | Some x => Some x
  | None => None
  end.

(** A statement maps the database to the number of rows it changed
    ([cur.rowcount]), a result, and the new database. *)
Definition Stmt (A : Type) : Type := DB -> Z * A * DB.

(** [INSERT INTO livros (titulo, autor, ano_publicacao, preco) VALUES
    (?, ?, ?, ?)]; the result is [cur.lastrowid]. *)
Definition sql_insert (t a : string) (ano : option Z) (p : option PyFloat)
  : Stmt Z := fun d =>
  let id := Z.max (seq d) (max_rowid (livros d)) + 1 in
  (1, id,
   {| livros := <[id := mkLivro t a ano (sql_real p)]> (livros d);
      seq := id |}).

(** [UPDATE livros SET preco = ? WHERE id = ?] *)
Definition sql_update_preco (p : PyFloat) (id : Z) : Stmt unit := fun d =>
  match livros d !! id with
  | Some b =>
      (1, tt,
       {| livros :=
            <[id := mkLivro (titulo b) (autor b) (ano_publicacao b)
                      (sql_real (Some p))]> (livros d);
          seq := seq d |})
  | None => (0, tt, d)
  end.

(** [DELETE FROM livros WHERE id = ?] *)
Definition sql_delete (id : Z) : Stmt unit := fun d =>
  match livros d !! id with
  | Some _ => (1, tt, {| livros := delete id (livros d); seq := seq d |})
  | None => (0, tt, d)
  end.

(** [DELETE FROM livros] *)
Definition sql_delete_all : Stmt unit := fun d =>
  (Z.of_nat (size (livros d)), tt, {| livros := ∅; seq := seq d |}).

(** A result row [(id, titulo, autor, ano_publicacao, preco)]. *)
Definition Row : Type := Z * Livro.

Fixpoint insert_by_id (r : Row) (l : list Row) : list Row :=
  match l with
  | [] => [r]
  | r' :: l' => if r.1 <=? r'.1 then r :: l else r' :: insert_by_id r l'
  end.

(** [ORDER BY id] *)
Definition order_by_id (l : list Row) : list Row :=
  foldr insert_by_id [] l.

(** [SELECT id, titulo, autor, ano_publicacao, preco FROM livros
    WHERE ... ORDER BY id] *)
Definition sql_select (cond : Livro -> bool) (d : DB) : list Row :=
  order_by_id (filter (fun r => cond r.2 = true) (map_to_list (livros d))).

(** [SELECT id FROM livros WHERE id = ?] followed by [fetchone()] *)
Definition sql_select_id (id : Z) (d : DB) : option Z :=
  match livros d !! id with Some _ => Some id | None => None end.

(** [SELECT COUNT( * ) FROM livros] *)
Definition sql_count (d : DB) : Z := Z.of_nat (size (livros d)).

(** [s LIKE pat]: [%] stands for any run of characters, [_] for one
    character, letters A..Z match without regard to case. *)
Fixpoint like (pat s : list ascii) : bool :=
  match pat with
  | [] => match s with [] => true | _ => false end
  | p :: pat' =>
      if Ascii.eqb p "%" then
        (fix any (s : list ascii) : bool :=
           like pat' s
           || match s with [] => false | _ :: s' => any s' end) s
      else
        match s with
        | [] => false
        | c :: s' =>
            (Ascii.eqb p "_" || Ascii.eqb (lower p) (lower c)) && like pat' s'
        end
  end.

Definition sql_like (s pat : string) : bool :=
  like (list_ascii_of_string pat) (list_ascii_of_string s).

End Sqlite.

Import Sqlite.

(** ** The world: files and clock *)

(** The store file [DB_FILE] and every archive (a [shutil.copy2] copy of
    it, content and modification time alike).  [st_data = None] is a file
    without the table [livros], as [sqlite3.connect] leaves behind when
    the file did not exist. *)
Record StoreFile := mkStore {
  st_data : option DB;
  st_mtime : Z
}.

(** A CSV file is the sequence of rows [csv.reader] yields from it, which
    is the sequence [csv.writer] was given ([[]] for a blank line). *)
Definition CsvDoc : Type := list (list string).

(** [clock] counts microseconds, [year] is [datetime.now().year].  The
    archive [BACKUP_PREFIX ++ strftime("%Y-%m-%d_%H-%M-%S") ++ ".db"]
    is keyed by the second its name spells.  [locked] holds the archives
    whose [unlink] fails. *)
Record World := mkWorld {
  clock : Z;
  year : Z;
  store : option StoreFile;
  backups : gmap Z StoreFile;
  locked : gset Z;
  csv_files : gmap string CsvDoc
}.

Definition second_of (t : Z) : Z := t / 1000000.

Definition set_store (f : option StoreFile) (w : World) : World :=
  mkWorld (clock w) (year w) f (backups w) (locked w) (csv_files w).
Definition set_backups (b : gmap Z StoreFile) (w : World) : World :=
  mkWorld (clock w) (year w) (store w) b (locked w) (csv_files w).
Definition set_csv (c : gmap string CsvDoc) (w : World) : World :=
  mkWorld (clock w) (year w) (store w) (backups w) (locked w) c.

(** Time passing between two calls. *)
Definition tick (d : Z) (w : World) : World :=
  mkWorld (clock w + d) (year w) (store w) (backups w) (locked w) (csv_files w).

(** ** Calls that may raise *)

Inductive Exn := OperationalError | FileNotFoundError.

Inductive Result (A : Type) :=
| Ret (a : A) (w : World)
| Raise (e : Exn) (w : World).
Arguments Ret {A} a w.
Arguments Raise {A} e w.

Definition M (A : Type) : Type := World -> Result A.

Definition raise {A} (e : Exn) : M A := fun w => Raise e w.

#[export] Instance M_ret : MRet M := fun A a w => Ret a w.
#[export] Instance M_bind : MBind M := fun A B k m w =>
  match m w with
  | Ret a w' => k a w'
  | Raise e w' => Raise e w'
  end.

Definition get_world : M World := fun w => Ret w w.
Definition put_world (w : World) : M unit := fun _ => Ret tt w.

Definition final {A} (r : Result A) : World :=
  match r with Ret _ w => w | Raise _ w => w end.

(** The catalog of a store file: its rows, none without the table. *)
Definition catalog_of (f : option StoreFile) : gmap Z Livro :=
  match f with
  | Some (mkStore (Some d) _) => livros d
  | _ => ∅
  end.

Definition catalog (w : World) : gmap Z Livro := catalog_of (store w).

(** ** The functions of [app.py] *)

Definition MAX_BACKUPS_TO_KEEP : nat := 5.

(** [os.makedirs(p, exist_ok=True)] for the four directories: they hold no
    state of their own here, the world being that of a tree where they
    exist already. *)
Definition ensure_directories : M unit := mret tt.

(** [sqlite3.connect(str(DB_FILE))]: a missing file is created, empty,
    its directory being there. *)
Definition get_connection : M unit :=
  w ← get_world;
  match store w with
  | Some _ => mret tt
  | None => put_world (set_store (Some (mkStore None (clock w))) w)
  end.

(** [cur.execute(stmt)] on a query: [OperationalError] (no such table)
    when the file has no table [livros]. *)
Definition query {A} (q : DB -> A) : M A :=
  w ← get_world;
  match store w with
  | Some (mkStore (Some d) _) => mret (q d)
  | _ => raise OperationalError
  end.

(** The world after a transaction has rewritten the store file. *)
Definition committed (d : DB) (w : World) : World :=
  set_store (Some (mkStore (Some d) (clock w))) w.

(** [cur.execute(stmt); conn.commit()] on a statement that writes.  The
    file is rewritten, and its modification time set, when the statement
    changed the database: SQLite leaves the file alone when no row matched
    and when an UPDATE stores the value already there.  The result is the
    pair of [cur.rowcount] and the statement's value. *)
Definition execute {A} (stmt : Stmt A) : M (Z * A) :=
  w ← get_world;
  match store w with
  | Some (mkStore (Some d) _) =>
      let '(n, a, d') := stmt d in
      (if decide (d' = d) then mret tt else put_world (committed d' w));;
      mret (n, a)
  | _ => raise OperationalError
  end.

Definition init_db : M unit :=
  ensure_directories;;
  get_connection;;
  w ← get_world;
  match store w with
  | Some (mkStore None _) =>
      put_world (set_store (Some (mkStore (Some empty_db) (clock w))) w)
  | _ => mret tt
  end.

(** [time.sleep(0.1)] *)
Definition sleep_100ms : M unit :=
  w ← get_world; put_world (tick 100000 w).

Fixpoint insert_by_mtime (a : Z * StoreFile) (l : list (Z * StoreFile))
  : list (Z * StoreFile) :=
  match l with
  | [] => [a]
  | b :: l' =>
      if st_mtime a.2 <? st_mtime b.2 then b :: insert_by_mtime a l' else a :: l
  end.

(** [sorted(paths, key=lambda p: p.stat().st_mtime, reverse=True)]:
    greatest modification time first, equal times in the order given. *)
Definition sort_by_mtime (l : list (Z * StoreFile)) : list (Z * StoreFile) :=
  foldr insert_by_mtime [] l.

(** [old.unlink()] inside [try ... except Exception: pass] *)
Definition unlink_quiet (lk : gset Z) (b : gmap Z StoreFile) (n : Z)
  : gmap Z StoreFile :=
  if decide (n ∈ lk) then b else delete n b.

(** What [prune_old_backups] leaves of the directory [b]: the archives
    past the fifth, greatest modification time first, are unlinked. *)
Definition pruned (lk : gset Z) (b : gmap Z StoreFile) : gmap Z StoreFile :=
  let sorted := sort_by_mtime (map_to_list b) in
  let old := drop MAX_BACKUPS_TO_KEEP sorted in
  fold_left (unlink_quiet lk) (map fst old) b.

Definition prune_old_backups : M unit :=
  w ← get_world;
  put_world (set_backups (pruned (locked w) (backups w)) w).

(** [shutil.copy2(DB_FILE, backup_path)]: content and modification time. *)
Definition copy2_store (name : Z) : M unit :=
  w ← get_world;
  match store w with
  | Some f => put_world (set_backups (<[name := f]> (backups w)) w)
  | None => raise FileNotFoundError
  end.

(** The result is the key of the archive written. *)
Definition backup_db : M Z :=
  ensure_directories;;
  w ← get_world;
  (match store w with
   | None => init_db;; sleep_100ms
   | Some _ => mret tt
   end);;
  w1 ← get_world;
  let timestamp := second_of (clock w1) in
  copy2_store timestamp;;
  prune_old_backups;;
  mret timestamp.

Definition in_year_range (cy ano : Z) : bool :=
  (1000 <=? ano) && (ano <=? cy + 1).

(** [validar_ano], given [datetime.now().year]. *)
Definition validar_ano (cy : Z) (ano_str : string) : option Z :=
  match py_int ano_str with
  | Some ano => if in_year_range cy ano then Some ano else None
  | None => None
  end.

Definition validar_preco (preco_str : string) : option PyFloat :=
  match py_float preco_str with
  | Some preco => if float_ge0 preco then Some preco else None
  | None => None
  end.

Definition adicionar_livro (titulo autor : string) (ano_publicacao : option Z)
    (preco : option PyFloat) : M Z :=
  backup_db;;
  get_connection;;
  r ← execute (sql_insert (strip titulo) (strip autor) ano_publicacao preco);
  mret r.2.

Definition listar_livros : M (list Row) :=
  get_connection;;
  query (sql_select (fun _ => true)).

Definition atualizar_preco_livro (livro_id : Z) (novo_preco : PyFloat) : M bool :=
  get_connection;;
  found ← query (sql_select_id livro_id);
  match found with
  | None => mret false
  | Some _ =>
      backup_db;;
      get_connection;;
      r ← execute (sql_update_preco novo_preco livro_id);
      mret (0 <? r.1)
  end.

Definition remover_livro (livro_id : Z) : M bool :=
  get_connection;;
  found ← query (sql_select_id livro_id);
  match found with
  | None => mret false
  | Some _ =>
      backup_db;;
      get_connection;;
      r ← execute (sql_delete livro_id);
      mret (0 <? r.1)
  end.

Definition remover_todos_livros : M bool :=
  get_connection;;
  count ← query sql_count;
  if count =? 0 then mret false
  else
    backup_db;;
    get_connection;;
    execute sql_delete_all;;
    mret true.

Definition buscar_por_autor (autor_query : string) : M (list Row) :=
  get_connection;;
  let pat := ("%" ++ strip autor_query ++ "%")%string in
  query (sql_select (fun b => sql_like (autor b) pat)).

Definition csv_header : list string :=
  ["titulo"; "autor"; "ano_publicacao"; "preco"]%string.

Definition csv_row (r : Row) : list string :=
  [ titulo r.2; autor r.2;
    match ano_publicacao r.2 with Some a => py_str_int a | None => ""%string end;
    match preco r.2 with Some p => float_repr p | None => ""%string end ].

Definition exportar_para_csv (path : string) : M string :=
  rows ← listar_livros;
  ensure_directories;;
  w ← get_world;
  put_world (set_csv (<[path := csv_header :: map csv_row rows]> (csv_files w)) w);;
  mret path.

(** One [csv.DictReader] row: [dict(zip(fieldnames, row))], then [None]
    under every field name the row is too short for.  A key bound to
    [None] reads like an absent key through [r.get], so it is left out. *)
Definition dict_row (fieldnames row : list string) : gmap string string :=
  let d := fold_left (fun d kv => <[kv.1 := kv.2]> d) (zip fieldnames row) ∅ in
  fold_left (fun d k => delete k d) (drop (length row) fieldnames) d.

(** [list(csv.DictReader(f))]: the first row names the fields, blank
    lines are skipped. *)
Definition dict_reader (doc : CsvDoc) : list (gmap string string) :=
  match doc with
  | [] => []
  | fieldnames :: rest =>
      map (dict_row fieldnames) (filter (fun r => r ≠ []) rest)
  end.

(** [r.get(k1) or r.get(k2) or ""] *)
Definition get_or (r : gmap string string) (k1 k2 : string) : string :=
  match r !! k1 with
  | Some v1 => if truthy v1 then v1 else
      match r !! k2 with
      | Some v2 => if truthy v2 then v2 else ""%string
      | None => ""%string
      end
  | None =>
      match r !! k2 with
      | Some v2 => if truthy v2 then v2 else ""%string
      | None => ""%string
      end
  end.

(** The loop body of [importar_de_csv]: the values bound to the INSERT. *)
Definition import_values (cy : Z) (r : gmap string string)
  : string * string * option Z * option PyFloat :=
  let titulo := get_or r "titulo" "title" in
  let autor := get_or r "autor" "author" in
  let ano_raw := get_or r "ano_publicacao" "year" in
  let preco_raw := get_or r "preco" "price" in
  let ano := if truthy ano_raw then validar_ano cy ano_raw else None in
  let preco := if truthy preco_raw then validar_preco preco_raw else None in
  (strip titulo, strip autor, ano, preco).

Fixpoint import_rows (cy : Z) (rows : list (gmap string string)) (inserted : Z)
  : M Z :=
  match rows with
  | [] => mret inserted
  | r :: rows' =>
      let '(t, a, ano, p) := import_values cy r in
      execute (sql_insert t a ano p);;
      import_rows cy rows' (inserted + 1)
  end.

Definition importar_de_csv (csv_path : string) : M Z :=
  w ← get_world;
  match csv_files w !! csv_path with
  | None => raise FileNotFoundError
  | Some doc =>
      let rows := dict_reader doc in
      match rows with
      | [] => mret 0
      | _ =>
          backup_db;;
          get_connection;;
          import_rows (year w) rows 0
      end
  end.


(** ** Vocabulary of the statements *)

(** The rational value [num / den] of a finite float. *)
Definition float_is (x : PyFloat) (num den : Z) : Prop :=
  match x with
  | S754_finite s m e =>
      let v := if s then Z.neg m else Z.pos m in
      if 0 <=? e then v * 2 ^ e * den = num else v * den = num * 2 ^ (- e)
  | S754_zero _ => num = 0
  | _ => False
  end.

(** Decimal digits, as [str(int)] prints them. *)
Definition digit_chars (l : list ascii) : Prop :=
  Forall (fun c => is_digit c = true /\ num_isspace c = false) l.

(** Rows compared by id. *)
Definition id_le (r r' : Row) : Prop := r.1 <= r'.1.
Definition id_lt (r r' : Row) : Prop := r.1 < r'.1.

(** A small catalog used to instantiate the statements. *)
Definition sample_db : DB :=
  (sql_insert "Dom Casmurro" "Machado de Assis" (Some 1899)
     (Some (S754_finite false 7177611906121728 (-48)))
     (sql_insert "Iracema" "Jose de Alencar" None None empty_db).2).2.

Definition sample_world : World :=
  mkWorld 1700000000000000 2023 (Some (mkStore (Some sample_db) 1690000000000000))
    ∅ ∅ ∅.

(** The world once [backup_db] has made sure the store file exists: a
    missing file is initialised and 0.1 s pass. *)
Definition ensured (w : World) : World :=
  match store w with
  | Some _ => w
  | None => tick 100000 (set_store (Some (mkStore (Some empty_db) (clock w))) w)
  end.

(** The world [backup_db] leaves. *)
Definition backed_up (w : World) : World :=
  let w1 := ensured w in
  match store w1 with
  | Some f =>
      set_backups
        (pruned (locked w1) (<[second_of (clock w1) := f]> (backups w1))) w1
  | None => w1
  end.

(** Archives compared by modification time, newest first. *)
Definition newer_eq (a b : Z * StoreFile) : Prop := st_mtime b.2 <= st_mtime a.2.

(** Every archive is at most as recent as the store file, and an archive
    as recent as the store file is a copy of it: no archive was taken
    and then outdated without the file's time moving on. *)
Definition consistent (w : World) : Prop :=
  match store w with
  | Some f =>
      forall n a, backups w !! n = Some a ->
        st_mtime a <= st_mtime f /\ (st_mtime a = st_mtime f -> a = f)
  | None => backups w = ∅
  end.

(** Some archive of greatest modification time holds the catalog [c]. *)
Definition newest_archive_holds (w : World) (c : gmap Z Livro) : Prop :=
  exists n a,
    backups w !! n = Some a /\ catalog_of (Some a) = c
    /\ forall n' a', backups w !! n' = Some a' -> st_mtime a' <= st_mtime a.

(** The five operations that write to the catalog, as calls. *)
Inductive Op :=
| OpAdicionar (titulo autor : string) (ano : option Z) (preco : option PyFloat)
| OpAtualizarPreco (livro_id : Z) (novo_preco : PyFloat)
| OpRemover (livro_id : Z)
| OpRemoverTodos
| OpImportar (csv_path : string).

(** The call of an operation; the result [true] says that the call
    returned and had something to write ([True] from the three calls
    that return a truth value, an id from [adicionar_livro], a positive
    count from [importar_de_csv]). *)
Definition run_op (o : Op) : M bool :=
  match o with
  | OpAdicionar t a y p => adicionar_livro t a y p;; mret true
  | OpAtualizarPreco id p => atualizar_preco_livro id p
  | OpRemover id => remover_livro id
  | OpRemoverTodos => remover_todos_livros
  | OpImportar path => n ← importar_de_csv path; mret (0 <? n)
  end.

(** The record an INSERT of [import_values] stores. *)
Definition import_record (cy : Z) (r : gmap string string) : Livro :=
  let '(t, a, ano, p) := import_values cy r in mkLivro t a ano (sql_real p).

(** The database after the INSERTs of [import_rows]. *)
Definition db_import (cy : Z) (rows : list (gmap string string)) (d : DB) : DB :=
  fold_left
    (fun d r => let '(t, a, ano, p) := import_values cy r in
                (sql_insert t a ano p d).2)
    rows d.

(** The largest id the table holds or ever held. *)
Definition last_id (d : DB) : Z := Z.max (seq d) (max_rowid (livros d)).

(** A world with an initialised, empty store and no archive. *)
Definition fresh_world : World :=
  mkWorld 1700000000000000 2023 (Some (mkStore (Some empty_db) 1690000000000000))
    ∅ ∅ ∅.

(** The database of a world; the empty one when there is no table yet. *)
Definition db_of (w : World) : DB :=
  match store w with
  | Some (mkStore (Some d) _) => d
  | _ => empty_db
  end.


(** Nothing on disk is dated in the future. *)
Definition timely (w : World) : Prop :=
  (forall f, store w = Some f -> st_mtime f <= clock w)
  /\ (forall n a, backups w !! n = Some a -> st_mtime a <= clock w).




(** What the CSV round trip needs of a record: title and author already
    stripped, a year that [validar_ano] accepts, a price that
    [validar_preco] accepts, that [repr] prints readably (as Python
    guarantees of every float that is not NaN) and that SQLite stores as
    it is (as every price read from the store is). *)
Definition exportable (cy : Z) (b : Livro) : Prop :=
  strip (titulo b) = titulo b
  /\ strip (autor b) = autor b
  /\ (forall y, ano_publicacao b = Some y -> 1000 <= y <= cy + 1)
  /\ (forall p, preco b = Some p ->
        float_ge0 p = true
        /\ py_float (float_repr p) = Some p
        /\ sql_real (Some p) = Some p).

(** The fields of the records of a catalog, ids left out. *)
Definition records (c : gmap Z Livro) : list Livro := (map_to_list c).*2.

(** A target for the import: its own empty store, and the exported file. *)
Definition target_world (doc : CsvDoc) : World :=
  mkWorld 1700000500000000 2023 None ∅ ∅ {[ "livros.csv"%string := doc ]}.

(** The validity ranges of the data model. *)
Definition range_ok (cy : Z) (b : Livro) : Prop :=
  (forall y, ano_publicacao b = Some y -> 1000 <= y <= cy + 1)
  /\ (forall p, preco b = Some p -> float_ge0 p = true).

Definition named (b : Livro) : Prop :=
  titulo b <> ""%string /\ autor b <> ""%string.

Definition valid_record (cy : Z) (b : Livro) : Prop := named b /\ range_ok cy b.

(** The store invariant of the data model. *)
Definition store_invariant (w : World) : Prop :=
  forall id b, catalog w !! id = Some b -> valid_record (year w) b.

(** Arguments as the interactive shell passes them: title and author not
    empty once stripped, year and price absent or accepted by the
    validators. *)
Definition validated (cy : Z) (o : Op) : Prop :=
  match o with
  | OpAdicionar t a y p =>
      strip t <> ""%string /\ strip a <> ""%string
      /\ (forall y', y = Some y' -> 1000 <= y' <= cy + 1)
      /\ (forall p', p = Some p' -> float_ge0 p' = true)
  | OpAtualizarPreco _ p => float_ge0 p = true
  | _ => True
  end.

Definition is_import (o : Op) : bool :=
  match o with OpImportar _ => true | _ => false end.

(** What a writing call does to the database. *)
Definition op_db (w : World) (o : Op) (d : DB) : DB :=
  match o with
  | OpAdicionar t a y p => (sql_insert (strip t) (strip a) y p d).2
  | OpAtualizarPreco id p => (sql_update_preco p id d).2
  | OpRemover id => (sql_delete id d).2
  | OpRemoverTodos => (sql_delete_all d).2
  | OpImportar path =>
      match csv_files w !! path with
      | Some doc => db_import (year w) (dict_reader doc) d
      | None => d
      end
  end.

(** The float -1.0. *)
Definition minus_one : PyFloat := S754_finite true 4503599627370496 (-52).

(** The states the program moves through. *)
Definition steady (w : World) : Prop := consistent w /\ timely w.


(** ** Further vocabulary *)

(** The store file exists and holds the table [livros]. *)
Definition has_table (w : World) : Prop :=
  exists d mt, store w = Some (mkStore (Some d) mt).

(** The store file as [sqlite3.connect] creates it in its directory: no
    table yet. *)
Definition connected (w : World) : World :=
  match store w with
  | Some _ => w
  | None => set_store (Some (mkStore None (clock w))) w
  end.

(** A world whose store file exists without the table, as an empty file
    does: no archive, no CSV file. *)
Definition tableless_world : World :=
  mkWorld 1700000000000000 2023 (Some (mkStore None 1690000000000000)) ∅ ∅ ∅.

(** The record an UPDATE of the price leaves under the id of [b]. *)
Definition with_preco (p : PyFloat) (b : Livro) : Livro :=
  mkLivro (titulo b) (autor b) (ano_publicacao b) (sql_real (Some p)).

(** Every id of the table is at most the counter of ids: the state of a
    table whose rows all came from its own INSERTs. *)
Definition ids_recorded (d : DB) : Prop :=
  forall id b, livros d !! id = Some b -> id <= seq d.

(** A run of writing calls, each after a delay, whatever they return. *)
Fixpoint run_ops (l : list (Z * Op)) (w : World) : World :=
  match l with
  | [] => w
  | (d, o) :: l' => run_ops l' (final (run_op o (tick d w)))
  end.

(** [q] starts [s], the letters A..Z compared without regard to case. *)
Fixpoint prefix_ci (q s : list ascii) : bool :=
  match q, s with
  | [], _ => true
  | c :: q', c' :: s' => Ascii.eqb (lower c) (lower c') && prefix_ci q' s'
  | _ :: _, [] => false
  end.

(** [q] occurs in [s], the letters A..Z compared without regard to case. *)
Fixpoint contains_ci (q s : list ascii) : bool :=
  prefix_ci q s
  || match s with [] => false | _ :: s' => contains_ci q s' end.

(** The two characters LIKE gives a meaning of their own. *)
Definition wildcard (c : ascii) : bool := Ascii.eqb c "%" || Ascii.eqb c "_".

(** The author of a row contains the text [q]. *)
Definition autor_contains (q : string) (r : Row) : Prop :=
  contains_ci (list_ascii_of_string q) (list_ascii_of_string (autor r.2)) = true.

#[export] Instance autor_contains_dec q r : Decision (autor_contains q r).
Proof. unfold autor_contains. apply _. Defined.

(** The author of a row has at least [n] characters. *)
Definition autor_at_least (n : nat) (r : Row) : Prop :=
  (n <= String.length (autor r.2))%nat.

#[export] Instance autor_at_least_dec n r : Decision (autor_at_least n r).
Proof. unfold autor_at_least. apply _. Defined.

(** The header of a CSV file in the other naming the import accepts. *)
Definition csv_header_en : list string :=
  ["title"; "author"; "year"; "price"]%string.

(** The outcome of a call, the world it leaves seen through [f]. *)
Definition result_map {A} (f : World -> World) (r : Result A) : Result A :=
  match r with
  | Ret a w => Ret a (f w)
  | Raise e w => Raise e (f w)
  end.

(** The rows an import appends to the listing: one per data row, in the
    order of the file, under the ids that follow [last]. *)
Definition imported_rows (cy last : Z) (rows : list (gmap string string))
  : list Row :=
  imap (fun k r => (last + 1 + Z.of_nat k, import_record cy r)) rows.

(** ** The report and the interactive shell *)

(** [s.lower()] on code points below 256: A..Z and the capital letters
    of Latin-1 (0xC0..0xDE but the multiplication sign) move up by 32. *)
Definition lower_latin1 (c : ascii) : ascii :=
  let n := code c in
  if ((65 <=? n) && (n <=? 90))
     || ((192 <=? n) && (n <=? 222) && negb (n =? 215))
  then ascii_of_N (Z.to_N (n + 32)) else c.

Definition str_lower (s : string) : string :=
  string_of_list_ascii (map lower_latin1 (list_ascii_of_string s)).

(** The integers SQLite stores: 64 bits, signed. *)
Definition sql_int (n : Z) : bool := (- 2 ^ 63 <=? n) && (n <? 2 ^ 63).

(** One character, by its code point. *)
Definition chr (n : N) : string := String (ascii_of_N n) EmptyString.

(** ["\n".join(lines)] *)
Fixpoint join_lines (lines : list string) : string :=
  match lines with
  | [] => ""
  | [l] => l
  | l :: lines' => l ++ chr 10 ++ join_lines lines'
  end.

(** The row of the report for one record: [{ano or ''}] prints nothing
    for a missing year and for the year 0, [{preco if preco is not None
    else ''}] nothing for a missing price; a float prints as [repr]. *)
Definition html_row (r : Row) : string :=
  ("<tr><td>" ++ py_str_int r.1
   ++ "</td><td>" ++ titulo r.2
   ++ "</td><td>" ++ autor r.2
   ++ "</td><td>"
   ++ match ano_publicacao r.2 with
      | Some a => if (a =? 0)%Z then "" else py_str_int a
      | None => ""
      end
   ++ "</td><td>"
   ++ match preco r.2 with Some p => float_repr p | None => "" end
   ++ "</td></tr>")%string.

(** The lines of the report; [now] is the text of
    [datetime.now().strftime("%Y-%m-%d %H:%M:%S")]. *)
Definition html_lines (now : string) (livros : list Row) : list string :=
  [ "<!doctype html>";
    "<html><head><meta charset='utf-8'><title>Relat" ++ chr 243
      ++ "rio de Livros</title>";
    "<style>table{border-collapse:collapse;width:100%}th,td{border:1px solid #ccc;padding:8px;text-align:left}</style>";
    "</head><body>";
    "<h1>Relat" ++ chr 243 ++ "rio de Livros</h1><p>Gerado em " ++ now ++ "</p>";
    "<table><thead><tr><th>ID</th><th>T" ++ chr 237
      ++ "tulo</th><th>Autor</th><th>Ano</th><th>Pre" ++ chr 231
      ++ "o</th></tr></thead><tbody>" ]%string
  ++ map html_row livros
  ++ [ "</tbody></table></body></html>"%string ].

Definition CSV_EXPORT_FILE : string :=
  "meu_sistema_livraria/exports/livros_exportados.csv".
Definition HTML_REPORT_FILE : string :=
  "meu_sistema_livraria/exports/relatorio_livros.html".

(** What the shell prints, one message per [print] and per prompt of
    [input], with the values it shows (the sixteen lines of the menu
    count as one message, and so do the two lines that head the
    listing). *)
Inductive Msg :=
| TelaLimpa
| Cabecalho
| LinhaEmBranco
| PergEscolha
| PergTitulo
| PergAutor
| PergAno
| PergPreco
| PergIdAtualizar
| PergNovoPreco
| PergIdRemover
| PergConfirmaRemover (livro_id : Z)
| PergAutorBusca
| PergCaminhoCsv
| PergConfirmaTodos
| PergEnter
| AnoInvalido
| PrecoInvalidoMinimo
| TituloAutorObrigatorios
| LivroAdicionado (livro_id : Z)
| NenhumLivroCadastrado
| CabecalhoLista
| LinhaLista (r : Row)
| IdInvalido
| PrecoInvalido
| PrecoAtualizado
| LivroNaoEncontrado
| RemocaoCancelada
| LivroRemovido
| PesquisaVazia
| NenhumLivroAutor
| LinhaBusca (r : Row)
| ExportadoCsv (path : string)
| OperacaoCancelada
| ImportacaoConcluida (inserted : Z)
| ArquivoNaoEncontrado (path : string)
| ErroImportar (e : Exn)
| BackupCriado (archive : Z)
| RelatorioGerado (path : string)
| TodosRemovidos
| NaoHaviaLivros
| Saindo
| OpcaoInvalida.

(** The shell runs in a world, writes reports, reads the lines typed
    (each with the time, in microseconds, the user took to type it) and
    prints messages, the latest first. *)
Record Shell := mkShell {
  sh_world : World;
  sh_reports : gmap string string;
  sh_input : list (Z * string);
  sh_output : list Msg
}.

(** The exceptions that reach the shell: those of the storage
    functions, [EOFError] from [input] at the end of the input, and
    [OverflowError] from [sqlite3] when it is handed an int outside 64
    bits. *)
Inductive ShExn := StoreExn (e : Exn) | EOFError | OverflowError.

Inductive ShResult (A : Type) :=
| ShRet (a : A) (s : Shell)
| ShRaise (e : ShExn) (s : Shell).
Arguments ShRet {A} a s.
Arguments ShRaise {A} e s.

Definition Sh (A : Type) : Type := Shell -> ShResult A.

#[export] Instance Sh_ret : MRet Sh := fun A a s => ShRet a s.
#[export] Instance Sh_bind : MBind Sh := fun A B k m s =>
  match m s with
  | ShRet a s' => k a s'
  | ShRaise e s' => ShRaise e s'
  end.

Definition sh_raise {A} (e : ShExn) : Sh A := fun s => ShRaise e s.

Definition sh_final {A} (r : ShResult A) : Shell :=
  match r with ShRet _ s => s | ShRaise _ s => s end.

Definition set_world (w : World) (s : Shell) : Shell :=
  mkShell w (sh_reports s) (sh_input s) (sh_output s).

(** A call of a storage function from the shell. *)
Definition lift {A} (m : M A) : Sh A := fun s =>
  match m (sh_world s) with
  | Ret a w => ShRet a (set_world w s)
  | Raise e w => ShRaise (StoreExn e) (set_world w s)
  end.

Definition get_shell : Sh Shell := fun s => ShRet s s.

Definition print (m : Msg) : Sh unit := fun s =>
  ShRet tt (mkShell (sh_world s) (sh_reports s) (sh_input s) (m :: sh_output s)).

(** Reading a line takes its time; [EOFError] when no line is left. *)
Definition read_line : Sh string := fun s =>
  match sh_input s with
  | [] => ShRaise EOFError s
  | (d, line) :: rest =>
      ShRet line (mkShell (tick d (sh_world s)) (sh_reports s) rest (sh_output s))
  end.

(** [input(prompt)]: the prompt is printed and a line is read. *)
Definition input (prompt : Msg) : Sh string := print prompt;; read_line.

(** [try: x = input(prompt) except: ...] *)
Definition try_input (prompt : Msg) : Sh (option string) := fun s =>
  match input prompt s with
  | ShRet line s' => ShRet (Some line) s'
  | ShRaise _ s' => ShRet None s'
  end.

(** [while True: prelude; line = input(prompt); body(line)], where the
    body says whether to leave the loop, and with what.  Every turn reads
    a line, so the loop takes at most as many turns as lines are left;
    [fuel] counts them, and [input] has raised [EOFError] by the time
    there is none of it. *)
Fixpoint loop_input {A} (fuel : nat) (prelude : Sh unit) (prompt : Msg)
    (body : string -> Sh (option A)) : Sh A :=
  prelude;;
  line ← input prompt;
  match fuel with
  | O => sh_raise EOFError
  | S fuel' =>
      r ← body line;
      match r with
      | Some a => mret a
      | None => loop_input fuel' prelude prompt body
      end
  end.

Definition while_input {A} (prelude : Sh unit) (prompt : Msg)
    (body : string -> Sh (option A)) : Sh A :=
  s ← get_shell;
  loop_input (length (sh_input s)) prelude prompt body.

(** [f.write(text)] on the report at [path] *)
Definition write_report (path text : string) : Sh unit := fun s =>
  ShRet tt (mkShell (sh_world s) (<[path := text]> (sh_reports s))
              (sh_input s) (sh_output s)).

Section Shell.

(** [datetime.fromtimestamp(t).strftime("%Y-%m-%d %H:%M:%S")], for a
    clock reading [t] in microseconds. *)
Variable strftime : Z -> string.

Definition gerar_relatorio_html (path : string) : Sh string :=
  livros ← lift listar_livros;
  lift ensure_directories;;
  s ← get_shell;
  let now := strftime (clock (sh_world s)) in
  let html := html_lines now livros in
  write_report path (join_lines html);;
  mret path.

Definition limpar_tela : Sh unit := print TelaLimpa.

Definition pausa : Sh unit := input PergEnter;; mret tt.

(** A storage function called with an id typed by the user: [sqlite3]
    raises [OverflowError] when it has to bind an int outside 64 bits,
    which is after the connection was opened and the statement
    prepared. *)
Definition com_id {A} (livro_id : Z) (m : M A) : Sh A :=
  if sql_int livro_id then lift m
  else lift (get_connection;; query (fun _ => tt));; sh_raise OverflowError.

(** The year asked for by option 1: an empty line for none. *)
Definition ler_ano : Sh (option Z) :=
  while_input (mret tt) PergAno (fun line =>
    let ano_str := strip line in
    if decide (ano_str = ""%string) then mret (Some None)
    else
      s ← get_shell;
      match validar_ano (year (sh_world s)) ano_str with
      | Some ano => mret (Some (Some ano))
      | None => print AnoInvalido;; mret None
      end).

(** The price asked for by option 1: an empty line for none. *)
Definition ler_preco : Sh (option PyFloat) :=
  while_input (mret tt) PergPreco (fun line =>
    let preco_str := strip line in
    if decide (preco_str = ""%string) then mret (Some None)
    else
      match validar_preco preco_str with
      | Some preco => mret (Some (Some preco))
      | None => print PrecoInvalidoMinimo;; mret None
      end).

(** The price asked for by option 3. *)
Definition ler_novo_preco : Sh PyFloat :=
  while_input (mret tt) PergNovoPreco (fun line =>
    match validar_preco (strip line) with
    | Some preco => mret (Some preco)
    | None => print PrecoInvalido;; mret None
    end).

(** Option 7 once the path is typed: the import inside [try], with the
    message of each outcome. *)
Definition importar_e_dizer (csv_path : string) : Sh unit := fun s =>
  match importar_de_csv csv_path (sh_world s) with
  | Ret inserted w => print (ImportacaoConcluida inserted) (set_world w s)
  | Raise FileNotFoundError w =>
      print (ArquivoNaoEncontrado csv_path) (set_world w s)
  | Raise e w => print (ErroImportar e) (set_world w s)
  end.

(** [for r in rows: print(...)] *)
Fixpoint print_rows (f : Row -> Msg) (rows : list Row) : Sh unit :=
  match rows with
  | [] => mret tt
  | r :: rows' => print (f r);; print_rows f rows'
  end.

(** One turn of the menu for the choice typed; [Some tt] leaves the
    loop.  The ids of options 3 and 4 are read by [int] as [py_int]
    models it, without the limit CPython may set on the number of
    digits. *)
Definition opcao (escolha : string) : Sh (option unit) :=
  if decide (escolha = "1"%string) then
    titulo ← input PergTitulo;
    autor ← input PergAutor;
    ano ← ler_ano;
    preco ← ler_preco;
    if decide (strip titulo = ""%string \/ strip autor = ""%string) then
      print TituloAutorObrigatorios;; pausa;; mret None
    else
      livro_id ← lift (adicionar_livro (strip titulo) (strip autor) ano preco);
      print (LivroAdicionado livro_id);; pausa;; mret None
  else if decide (escolha = "2"%string) then
    livros ← lift listar_livros;
    (match livros with
     | [] => print NenhumLivroCadastrado
     | _ => print CabecalhoLista;; print_rows LinhaLista livros
     end);;
    pausa;; mret None
  else if decide (escolha = "3"%string) then
    r ← try_input PergIdAtualizar;
    match r ≫= (fun line => py_int (strip line)) with
    | None => print IdInvalido;; pausa;; mret None
    | Some livro_id =>
        novo_preco ← ler_novo_preco;
        ok ← com_id livro_id (atualizar_preco_livro livro_id novo_preco);
        print (if ok : bool then PrecoAtualizado else LivroNaoEncontrado);;
        pausa;; mret None
    end
  else if decide (escolha = "4"%string) then
    r ← try_input PergIdRemover;
    match r ≫= (fun line => py_int (strip line)) with
    | None => print IdInvalido;; pausa;; mret None
    | Some livro_id =>
        confirm ← input (PergConfirmaRemover livro_id);
        if decide (str_lower (strip confirm) = "s"%string) then
          ok ← com_id livro_id (remover_livro livro_id);
          print (if ok : bool then LivroRemovido else LivroNaoEncontrado);;
          pausa;; mret None
        else
          print RemocaoCancelada;; pausa;; mret None
    end
  else if decide (escolha = "5"%string) then
    autor_q ← input PergAutorBusca;
    if decide (strip autor_q = ""%string) then
      print PesquisaVazia;; pausa;; mret None
    else
      resultados ← lift (buscar_por_autor (strip autor_q));
      (match resultados with
       | [] => print NenhumLivroAutor
       | _ => print_rows LinhaBusca resultados
       end);;
      pausa;; mret None
  else if decide (escolha = "6"%string) then
    path ← lift (exportar_para_csv CSV_EXPORT_FILE);
    print (ExportadoCsv path);; pausa;; mret None
  else if decide (escolha = "7"%string) then
    csv_path ← input PergCaminhoCsv;
    if decide (strip csv_path = ""%string) then
      print OperacaoCancelada;; pausa;; mret None
    else
      importar_e_dizer (strip csv_path);;
      pausa;; mret None
  else if decide (escolha = "8"%string) then
    bp ← lift backup_db;
    print (BackupCriado bp);; pausa;; mret None
  else if decide (escolha = "9"%string) then
    path ← gerar_relatorio_html HTML_REPORT_FILE;
    print (RelatorioGerado path);; pausa;; mret None
  else if decide (escolha = "10"%string) then
    confirm ← input PergConfirmaTodos;
    (if decide (str_lower (strip confirm) = "s"%string) then
       ok ← lift remover_todos_livros;
       print (if ok : bool then TodosRemovidos else NaoHaviaLivros)
     else print OperacaoCancelada);;
    pausa;; mret None
  else if decide (escolha = "11"%string) then
    print Saindo;; mret (Some tt)
  else
    print OpcaoInvalida;; pausa;; mret None.

Definition menu : Sh unit :=
  lift init_db;;
  while_input (limpar_tela;; print Cabecalho) PergEscolha
    (fun line => print LinhaEmBranco;; opcao (strip line)).

End Shell.

(** *** What a session does to the world *)

(** The world a call leaves and the exception it raised, if any. *)
Definition outcome {A} (r : Result A) : World * option Exn :=
  match r with
  | Ret _ w => (w, None)
  | Raise e w => (w, Some e)
  end.

(** Some line of the input, stripped, is the text [t]. *)
Definition typed (ins : list (Z * string)) (t : string) : Prop :=
  exists d line, (d, line) ∈ ins /\ strip line = t.

(** Some line of the input is a confirmation: [s] or [S], stripped. *)
Definition confirmed (ins : list (Z * string)) : Prop :=
  exists d line, (d, line) ∈ ins /\ str_lower (strip line) = "s"%string.

(** Some line of the input reads as an int that SQLite cannot hold. *)
Definition overflowing (ins : list (Z * string)) : Prop :=
  exists d line n, (d, line) ∈ ins /\ py_int (strip line) = Some n
                   /\ sql_int n = false.

(** The calls a session makes, with what the input must hold for each:
    the time a line takes, and the storage functions, always with
    arguments the validators accepted.  The exceptions of the import are
    caught by the shell. *)
Inductive shell_call (ins : list (Z * string)) (w : World)
  : World * option Exn -> Prop :=
| call_wait d line :
    (d, line) ∈ ins -> shell_call ins w (tick d w, None)
| call_init_db :
    shell_call ins w (outcome (init_db w))
| call_adicionar t a y p :
    typed ins "1" -> validated (year w) (OpAdicionar t a y p) ->
    shell_call ins w (outcome (adicionar_livro t a y p w))
| call_listar :
    shell_call ins w (outcome (listar_livros w))
| call_atualizar livro_id p :
    typed ins "3" -> float_ge0 p = true -> sql_int livro_id = true ->
    shell_call ins w (outcome (atualizar_preco_livro livro_id p w))
| call_remover livro_id :
    typed ins "4" -> confirmed ins -> sql_int livro_id = true ->
    shell_call ins w (outcome (remover_livro livro_id w))
| call_prepare :
    shell_call ins w (outcome ((get_connection;; query (fun _ => tt)) w))
| call_buscar q :
    shell_call ins w (outcome (buscar_por_autor q w))
| call_exportar :
    typed ins "6" ->
    shell_call ins w (outcome (exportar_para_csv CSV_EXPORT_FILE w))
| call_importar path :
    typed ins "7" -> typed ins path -> path <> ""%string ->
    shell_call ins w (final (importar_de_csv path w), None)
| call_backup :
    typed ins "8" -> shell_call ins w (outcome (backup_db w))
| call_remover_todos :
    typed ins "10" -> confirmed ins ->
    shell_call ins w (outcome (remover_todos_livros w)).

(** The state of a session: the world satisfies [W] and its year is
    [cy], the lines left are the end of the input [ins], at most [n] of
    them. *)
Definition session_state (ins : list (Z * string)) (W : World -> Prop)
    (cy : Z) (n : nat) (s : Shell) : Prop :=
  W (sh_world s) /\ year (sh_world s) = cy
  /\ sh_input s `suffix_of` ins /\ (length (sh_input s) <= n)%nat.

(** How a session may end by an exception: an exception of a storage
    function satisfies [X]; [EOFError] comes when the input is used up;
    [OverflowError] when a line typed reads as an int outside 64 bits. *)
Definition session_raise (ins : list (Z * string)) (W : World -> Prop)
    (X : Exn -> Prop) (e : ShExn) (s : Shell) : Prop :=
  W (sh_world s)
  /\ match e with
     | StoreExn x => X x
     | EOFError => sh_input s = []
     | OverflowError => overflowing ins
     end.

(** A step of a session keeps the state and returns a value satisfying
    [Post], or ends the session. *)
Definition session_step {A} (ins : list (Z * string)) (W : World -> Prop)
    (X : Exn -> Prop) (cy : Z) (n : nat) (m : Sh A) (Post : A -> Prop) : Prop :=
  forall s,
    session_state ins W cy n s ->
    match m s with
    | ShRet a s' => session_state ins W cy n s' /\ Post a
    | ShRaise e s' => session_raise ins W X e s'
    end.

Definition is_delete (o : Op) : bool :=
  match o with OpRemover _ | OpRemoverTodos => true | _ => false end.

(** The record [b] is still in the catalog of [w], price aside. *)
Definition still_there (w : World) (id : Z) (b : Livro) : Prop :=
  exists b', catalog w !! id = Some b'
             /\ titulo b' = titulo b /\ autor b' = autor b
             /\ ano_publicacao b' = ano_publicacao b.

(** A session on the sample catalog: list, then leave. *)
Definition sample_session (lines : list string) : Shell :=
  mkShell sample_world ∅ (map (fun l => (1000000, l)) lines) [].

(** A clock reading as text, for one: the number of its seconds. *)
Definition seconds_text (t : Z) : string := py_str_int (second_of t).
(** * Properties *)

(** ** Strings *)

Section StripFacts.

Variable sp : ascii -> bool.

Lemma lstrip_app_nonspace l c :
  sp c = false -> lstrip sp (l ++ [c]) = lstrip sp l ++ [c].
Proof.
  intros Hc. induction l as [|a l IH]; simpl.
  - by rewrite Hc.
  - destruct (sp a); [exact IH | done].
Qed.

Lemma lstrip_idem l : lstrip sp (lstrip sp l) = lstrip sp l.
Proof.
  induction l as [|a l IH]; simpl; [done|].
  destruct (sp a) eqn:E; [done|]. simpl. by rewrite E.
Qed.

Lemma rstrip_cons_nonspace c l :
  sp c = false -> rstrip sp (c :: l) = c :: rstrip sp l.
Proof.
  intros Hc. unfold rstrip. simpl.
  rewrite lstrip_app_nonspace by done. by rewrite rev_unit.
Qed.

Lemma rstrip_idem l : rstrip sp (rstrip sp l) = rstrip sp l.
Proof. unfold rstrip. by rewrite rev_involutive, lstrip_idem. Qed.

Lemma lstrip_head l :
  lstrip sp l = [] \/ exists c t, lstrip sp l = c :: t /\ sp c = false.
Proof.
  induction l as [|a l IH]; simpl; [by left|].
  destruct (sp a) eqn:E; [done|]. right. by exists a, l.
Qed.

Lemma strip_chars_idem l :
  strip_chars sp (strip_chars sp l) = strip_chars sp l.
Proof.
  unfold strip_chars.
  destruct (lstrip_head l) as [-> | (c & t & -> & Hc)]; [done|].
  rewrite rstrip_cons_nonspace by done. simpl. rewrite Hc.
  rewrite <- (rstrip_cons_nonspace c t) by done. apply rstrip_idem.
Qed.

Lemma lstrip_all_space l : forallb sp l = true -> lstrip sp l = [].
Proof.
  induction l as [|a l IH]; simpl; [done|].
  intros [Ha Hl]%andb_prop. rewrite Ha. auto.
Qed.

Lemma strip_chars_nonspace l :
  Forall (fun c => sp c = false) l -> strip_chars sp l = l.
Proof.
  unfold strip_chars. intros H.
  assert (Hl : forall l, Forall (fun c => sp c = false) l -> lstrip sp l = l).
  { intros k Hk. destruct Hk as [|c k Hc _]; simpl; [done | by rewrite Hc]. }
  rewrite (Hl l H). unfold rstrip.
  rewrite Hl; [apply rev_involutive|].
  by apply List.Forall_rev.
Qed.

End StripFacts.

(** What [strip] returns is already stripped. *)
Lemma strip_idem s : strip (strip s) = strip s.
Proof.
  unfold strip. by rewrite list_ascii_of_string_of_list_ascii, strip_chars_idem.
Qed.

Lemma strip_all_space s : all_space s = true -> strip s = ""%string.
Proof.
  unfold all_space, strip, strip_chars. intros H.
  by rewrite lstrip_all_space.
Qed.

Lemma truthy_false s : truthy s = false -> s = ""%string.
Proof. by destruct s. Qed.


(** ** Numbers *)

Section NumberFacts.

Lemma of_digits_snoc l d : of_digits (l ++ [d]) = 10 * of_digits l + d.
Proof. unfold of_digits. by rewrite fold_left_app. Qed.

Lemma digit_char_facts d :
  0 <= d <= 9 ->
  is_digit (digit_char d) = true /\ digit_val (digit_char d) = d
  /\ num_isspace (digit_char d) = false.
Proof.
  intros H.
  assert (d = 0 \/ d = 1 \/ d = 2 \/ d = 3 \/ d = 4 \/ d = 5 \/ d = 6
          \/ d = 7 \/ d = 8 \/ d = 9) as Hd by lia.
  repeat (destruct Hd as [-> | Hd]; [by vm_compute|]). subst. by vm_compute.
Qed.


Lemma pos_digits_spec fuel n acc :
  0 <= n < 10 ^ Z.of_nat fuel -> (0 < fuel)%nat ->
  exists ds, pos_digits fuel n acc = ds ++ acc /\ ds <> []
             /\ digit_chars ds /\ of_digits (map digit_val ds) = n.
Proof.
  revert n acc. induction fuel as [|f IH]; intros n acc Hn Hf; [lia|].
  simpl. destruct (Z.ltb_spec n 10) as [Hlt | Hge].
  - destruct (digit_char_facts n) as (H1 & H2 & H3); [lia|].
    exists [digit_char n]. repeat split; [done | | by rewrite <- H2 at 2].
    by repeat constructor.
  - assert (0 < f)%nat as Hf'.
    { destruct f; [|lia]. simpl in Hn. lia. }
    assert (0 <= n / 10 < 10 ^ Z.of_nat f) as Hq.
    { split; [apply Z.div_pos; lia|].
      apply Z.div_lt_upper_bound; [lia|].
      replace (10 * 10 ^ Z.of_nat f) with (10 ^ Z.of_nat (S f)); [lia|].
      rewrite Nat2Z.inj_succ, Z.pow_succ_r by lia. done. }
    destruct (IH (n / 10) (digit_char (n mod 10) :: acc) Hq Hf')
      as (ds & -> & Hne & Hds & Hv).
    destruct (digit_char_facts (n mod 10)) as (H1 & H2 & H3).
    { pose proof (Z.mod_pos_bound n 10). lia. }
    exists (ds ++ [digit_char (n mod 10)]). repeat split.
    + by rewrite <- app_assoc.
    + by destruct ds.
    + apply Forall_app. split; [done|]. by repeat constructor.
    + rewrite map_app. simpl map. rewrite of_digits_snoc, Hv, H2.
      pose proof (Z.div_mod n 10). lia.
Qed.

Lemma nat_digits_spec n :
  0 <= n ->
  exists ds, nat_digits n = ds /\ ds <> [] /\ digit_chars ds
             /\ of_digits (map digit_val ds) = n.
Proof.
  intros Hn. unfold nat_digits.
  destruct (pos_digits_spec (S (Z.to_nat (Z.log2 n))) n []) as (ds & E & H);
    [|lia|].
  - split; [done|]. rewrite Nat2Z.inj_succ, Z2Nat.id by apply Z.log2_nonneg.
    destruct (Z.eq_dec n 0) as [-> | Hn0]; [done|].
    pose proof (Z.log2_spec n ltac:(lia)) as [_ Hlt].
    eapply Z.lt_le_trans; [exact Hlt|].
    apply Z.pow_le_mono_l. lia.
  - exists ds. rewrite E, app_nil_r. done.
Qed.

Lemma digits_tail_all l :
  digit_chars l -> digits_tail l = (map digit_val l, []).
Proof.
  induction 1 as [|c l [Hc _] _ IH]; [done|].
  simpl. by rewrite Hc, IH.
Qed.

Lemma digitpart_all l :
  digit_chars l -> digitpart l = (map digit_val l, []).
Proof.
  destruct 1 as [|c l [Hc _] Hl]; [done|].
  simpl. by rewrite Hc, digits_tail_all.
Qed.

Lemma sign_digit c l : is_digit c = true -> sign (c :: l) = (false, c :: l).
Proof.
  intros Hc. simpl.
  destruct (Ascii.eqb_spec c "-") as [-> | _]; [done|].
  by destruct (Ascii.eqb_spec c "+") as [-> | _].
Qed.

(** [int(str(n)) == n] for a natural number. *)
Lemma py_int_str n : 0 <= n -> py_int (py_str_int n) = Some n.
Proof.
  intros Hn. unfold py_int, py_str_int.
  destruct (Z.ltb_spec n 0); [lia|].
  destruct (nat_digits_spec n Hn) as (ds & -> & Hne & Hds & Hv).
  rewrite list_ascii_of_string_of_list_ascii.
  rewrite strip_chars_nonspace.
  2: { eapply Forall_impl; [exact Hds|]. by intros c [_ ?]. }
  destruct ds as [|c ds]; [done|].
  rewrite sign_digit by (by inversion Hds as [|?? [? _] _]).
  rewrite digitpart_all by done. simpl map in *. cbv iota. by rewrite Hv.
Qed.

Lemma py_str_int_truthy n : 0 <= n -> truthy (py_str_int n) = true.
Proof.
  intros Hn. unfold py_str_int. destruct (Z.ltb_spec n 0); [lia|].
  destruct (nat_digits_spec n Hn) as (ds & -> & Hne & _).
  by destruct ds.
Qed.

Lemma validar_ano_Some cy s y :
  validar_ano cy s = Some y <-> py_int s = Some y /\ 1000 <= y <= cy + 1.
Proof.
  unfold validar_ano, in_year_range.
  destruct (py_int s) as [a|]; [|split; [done | by intros [? _]]].
  destruct (Z.leb_spec 1000 a), (Z.leb_spec a (cy + 1)); simpl; split;
    first [ by intros [= <-] | done | intros [[= <-] ?]; first [done | lia] ].
Qed.

Lemma validar_preco_Some s p :
  validar_preco s = Some p <-> py_float s = Some p /\ float_ge0 p = true.
Proof.
  unfold validar_preco.
  destruct (py_float s) as [x|]; [|split; [done | by intros [? _]]].
  destruct (float_ge0 x) eqn:E; split;
    first [ by intros [= <-] | done | intros [[= <-] ?]; congruence ].
Qed.

Lemma float_ge0_not_nan p : float_ge0 p = true -> is_nan p = false.
Proof. by destruct p. Qed.

Lemma validar_ano_empty cy : validar_ano cy "" = None.
Proof. done. Qed.

Lemma validar_preco_empty : validar_preco "" = None.
Proof. done. Qed.

End NumberFacts.


(** [x >= 0] holds of the zeros, of the positive finite floats and of
    plus infinity, and of nothing else. *)
Lemma float_ge0_cases x :
  float_ge0 x = true <->
  match x with
  | S754_zero _ => True
  | S754_infinity s | S754_finite s _ _ => s = false
  | S754_nan => False
  end.
Proof. destruct x as [s|s| |s m e]; try destruct s; by vm_compute. Qed.

(** C9: [validar_ano] returns exactly the integers that [int] reads from
    the text and that lie in [1000, current_year + 1], and [None] for every
    other text; [validar_preco] returns exactly the floats that [float]
    reads from the text and that are [>= 0], and [None] for every other
    text.  Both are total: no text makes them raise.  On the five sample
    texts: "2023" gives 2023 (from the year 2022 on), "abc" and "50" give
    no year, "25.5" gives the float 51/2 and "-1" gives no price. *)
Theorem validar_ano_preco_spec :
  (forall cy s y,
      validar_ano cy s = Some y <-> py_int s = Some y /\ 1000 <= y <= cy + 1)
  /\ (forall cy s,
      validar_ano cy s = None <->
      ~ exists y, py_int s = Some y /\ 1000 <= y <= cy + 1)
  /\ (forall s p,
      validar_preco s = Some p <-> py_float s = Some p /\ float_ge0 p = true)
  /\ (forall s,
      validar_preco s = None <->
      ~ exists p, py_float s = Some p /\ float_ge0 p = true)
  /\ (forall cy, 2022 <= cy -> validar_ano cy "2023" = Some 2023)
  /\ (forall cy, validar_ano cy "abc" = None)
  /\ (forall cy, validar_ano cy "50" = None)
  /\ (exists p, validar_preco "25.5" = Some p /\ float_is p 51 2)
  /\ validar_preco "-1" = None.
Proof.
  split; [exact validar_ano_Some|].
  split.
  { intros cy s. split.
    - intros H [y Hy]. apply validar_ano_Some in Hy. congruence.
    - intros H. destruct (validar_ano cy s) as [y|] eqn:E; [|done].
      destruct H. exists y. by apply validar_ano_Some. }
  split; [exact validar_preco_Some|].
  split.
  { intros s. split.
    - intros H [p Hp]. apply validar_preco_Some in Hp. congruence.
    - intros H. destruct (validar_preco s) as [p|] eqn:E; [|done].
      destruct H. exists p. by apply validar_preco_Some. }
  split.
  { intros cy Hcy. apply validar_ano_Some. split; [by vm_compute | lia]. }
  split.
  { intros cy. unfold validar_ano.
    by replace (py_int "abc") with (@None Z) by (by vm_compute). }
  split.
  { intros cy. unfold validar_ano, in_year_range.
    by replace (py_int "50") with (Some 50) by (by vm_compute). }
  split; [|by vm_compute].
  eexists. split; [by vm_compute|]. by vm_compute.
Qed.

(** ** Stepping through a call *)

Section MonadFacts.

Lemma bind_eq {A B} (m : M A) (k : A -> M B) w :
  (m ≫= k) w = match m w with
               | Ret a w' => k a w'
               | Raise e w' => Raise e w'
               end.
Proof. done. Qed.

Lemma final_bind_ret {A B} (m : M A) (f : A -> B) w :
  final ((x ← m; mret (f x)) w) = final (m w).
Proof. rewrite bind_eq. by destruct (m w). Qed.

Lemma get_connection_Some w f :
  store w = Some f -> get_connection w = Ret tt w.
Proof. intros H. unfold get_connection. by rewrite bind_eq; simpl; rewrite H. Qed.

Lemma get_connection_None w :
  store w = None ->
  get_connection w = Ret tt (set_store (Some (mkStore None (clock w))) w).
Proof. intros H. unfold get_connection. by rewrite bind_eq; simpl; rewrite H. Qed.

Lemma query_table {A} (q : DB -> A) w d mt :
  store w = Some (mkStore (Some d) mt) -> query q w = Ret (q d) w.
Proof. intros H. unfold query. by rewrite bind_eq; simpl; rewrite H. Qed.

Lemma query_no_table {A} (q : DB -> A) w mt :
  store w = Some (mkStore None mt) -> query q w = Raise OperationalError w.
Proof. intros H. unfold query. by rewrite bind_eq; simpl; rewrite H. Qed.

Lemma execute_table {A} (stmt : Stmt A) w d mt :
  store w = Some (mkStore (Some d) mt) ->
  execute stmt w =
  Ret ((stmt d).1) (if decide ((stmt d).2 = d) then w else committed (stmt d).2 w).
Proof.
  intros H. unfold execute. rewrite bind_eq; simpl; rewrite H.
  destruct (stmt d) as [[n a] d']. simpl. rewrite bind_eq.
  by destruct (decide (d' = d)).
Qed.

Lemma execute_no_table {A} (stmt : Stmt A) w mt :
  store w = Some (mkStore None mt) -> execute stmt w = Raise OperationalError w.
Proof. intros H. unfold execute. by rewrite bind_eq; simpl; rewrite H. Qed.

End MonadFacts.

(** ** Queries *)

Section QueryFacts.

Lemma like_any s : like ["%"%char] s = true.
Proof. induction s as [|c s IH]; [done|]. simpl in *. exact IH. Qed.

Lemma like_any_any s : like ["%"; "%"]%char s = true.
Proof.
  destruct s as [|c s]; [done|].
  change (like ["%"; "%"]%char (c :: s))
    with (like ["%"%char] (c :: s)
          || (fix any (s : list ascii) : bool :=
                like ["%"%char] s
                || match s with [] => false | _ :: s' => any s' end) s).
  by rewrite like_any.
Qed.

Lemma filter_all {A} (P : A -> Prop) `{forall x, Decision (P x)} (l : list A) :
  (forall x, P x) -> filter P l = l.
Proof.
  intros HP. induction l as [|x l IH]; [done|].
  by rewrite filter_cons_True, IH.
Qed.

Lemma insert_by_id_perm r l : insert_by_id r l ≡ₚ r :: l.
Proof.
  induction l as [|r' l IH]; simpl; [done|].
  destruct (r.1 <=? r'.1); [done|]. rewrite IH. apply Permutation_swap.
Qed.

Lemma order_by_id_perm l : order_by_id l ≡ₚ l.
Proof.
  induction l as [|r l IH]; simpl; [done|].
  by rewrite insert_by_id_perm, IH.
Qed.


Lemma insert_by_id_sorted r l :
  StronglySorted id_le l -> StronglySorted id_le (insert_by_id r l).
Proof.
  induction 1 as [|r' l Hl IH Hall]; simpl; [by repeat constructor|].
  destruct (Z.leb_spec r.1 r'.1) as [Hle | Hgt].
  - constructor; [by constructor|]. constructor; [done|].
    eapply Forall_impl; [exact Hall|]. unfold id_le. intros; simpl in *; lia.
  - constructor; [done|]. rewrite insert_by_id_perm.
    constructor; [unfold id_le; lia | done].
Qed.

Lemma order_by_id_sorted l : StronglySorted id_le (order_by_id l).
Proof.
  induction l as [|r l IH]; simpl; [constructor|].
  by apply insert_by_id_sorted.
Qed.

Lemma sorted_strict l :
  NoDup (l.*1) -> StronglySorted id_le l -> StronglySorted id_lt l.
Proof.
  induction 2 as [|r l Hl IH Hall]; [constructor|].
  rewrite fmap_cons in H. apply NoDup_cons in H as [Hnin Hnd].
  constructor; [auto|].
  apply Forall_forall. intros r' Hr'.
  rewrite Forall_forall in Hall. specialize (Hall r' Hr').
  unfold id_le, id_lt in *.
  assert (r.1 <> r'.1); [|lia].
  intros E. apply Hnin. rewrite E. by apply list_elem_of_fmap_2.
Qed.

(** [SELECT ... ORDER BY id] without a condition: every row, once, by
    ascending id. *)
Lemma sql_select_all d :
  let rows := sql_select (fun _ => true) d in
  (forall id b, (id, b) ∈ rows <-> livros d !! id = Some b)
  /\ length rows = size (livros d)
  /\ StronglySorted id_lt rows.
Proof.
  unfold sql_select.
  rewrite filter_all by done.
  split; [|split].
  - intros id b. rewrite order_by_id_perm. apply elem_of_map_to_list.
  - rewrite order_by_id_perm. apply length_map_to_list.
  - apply sorted_strict; [|apply order_by_id_sorted].
    rewrite order_by_id_perm. apply NoDup_fst_map_to_list.
Qed.

End QueryFacts.

(** C10: with an empty or whitespace-only query, [buscar_por_autor]
    returns every record of the catalog, once each, by ascending id: the
    stripped query is empty, the pattern is "%%", and every author
    matches it. *)
Theorem buscar_por_autor_blank q w d mt :
  all_space q = true ->
  store w = Some (mkStore (Some d) mt) ->
  exists rows,
    buscar_por_autor q w = Ret rows w
    /\ listar_livros w = Ret rows w
    /\ (forall id b, (id, b) ∈ rows <-> livros d !! id = Some b)
    /\ length rows = size (livros d)
    /\ StronglySorted id_lt rows.
Proof.
  intros Hq Hst. exists (sql_select (fun _ => true) d).
  split; [|split; [|apply sql_select_all]].
  - unfold buscar_por_autor. rewrite (strip_all_space q Hq).
    rewrite bind_eq, (get_connection_Some _ _ Hst).
    rewrite (query_table _ _ _ _ Hst).
    unfold sql_select. f_equal. f_equal.
    apply list_filter_iff. intros r. unfold sql_like. simpl.
    by rewrite like_any_any.
  - unfold listar_livros.
    rewrite bind_eq, (get_connection_Some _ _ Hst).
    by rewrite (query_table _ _ _ _ Hst).
Qed.

Lemma buscar_por_autor_blank_witness :
  exists rows,
    buscar_por_autor "  " sample_world = Ret rows sample_world
    /\ listar_livros sample_world = Ret rows sample_world
    /\ (forall id b, (id, b) ∈ rows <-> livros sample_db !! id = Some b)
    /\ length rows = size (livros sample_db)
    /\ StronglySorted id_lt rows.
Proof.
  apply (buscar_por_autor_blank "  " sample_world sample_db 1690000000000000);
    reflexivity.
Defined.

(** ** Pruning *)

Section PruneFacts.

Lemma insert_by_mtime_perm a l : insert_by_mtime a l ≡ₚ a :: l.
Proof.
  induction l as [|b l IH]; simpl; [done|].
  destruct (st_mtime a.2 <? st_mtime b.2); [|done].
  rewrite IH. apply Permutation_swap.
Qed.

Lemma sort_by_mtime_perm l : sort_by_mtime l ≡ₚ l.
Proof.
  induction l as [|a l IH]; simpl; [done|].
  by rewrite insert_by_mtime_perm, IH.
Qed.

Lemma insert_by_mtime_sorted a l :
  StronglySorted newer_eq l -> StronglySorted newer_eq (insert_by_mtime a l).
Proof.
  induction 1 as [|b l Hl IH Hall]; simpl; [by repeat constructor|].
  destruct (Z.ltb_spec (st_mtime a.2) (st_mtime b.2)) as [Hlt | Hge].
  - constructor; [done|]. rewrite insert_by_mtime_perm.
    constructor; [unfold newer_eq; lia | done].
  - constructor; [by constructor|]. constructor; [done|].
    eapply Forall_impl; [exact Hall|]. unfold newer_eq. intros; simpl in *; lia.
Qed.

Lemma sort_by_mtime_sorted l : StronglySorted newer_eq (sort_by_mtime l).
Proof.
  induction l as [|a l IH]; simpl; [constructor|].
  by apply insert_by_mtime_sorted.
Qed.

Lemma lookup_unlink_all lk ns (b : gmap Z StoreFile) n :
  fold_left (unlink_quiet lk) ns b !! n =
  if decide (n ∈ ns /\ n ∉ lk) then None else b !! n.
Proof.
  revert b. induction ns as [|m ns IH]; intros b.
  - destruct (decide (n ∈ [] /\ n ∉ lk)) as [[H _] | _]; [|done].
    by apply not_elem_of_nil in H.
  - cbn [fold_left]. rewrite IH. unfold unlink_quiet.
    destruct (decide (n ∈ ns /\ n ∉ lk)) as [H1 | H1];
      destruct (decide (n ∈ m :: ns /\ n ∉ lk)) as [H2 | H2];
      destruct (decide (m ∈ lk)) as [Hm | Hm]; try done.
    + destruct H2. split; [apply elem_of_cons|]; tauto.
    + destruct H2. split; [apply elem_of_cons|]; tauto.
    + destruct H2 as [H2 H3]. apply elem_of_cons in H2 as [-> | H2]; tauto.
    + destruct H2 as [H2 H3]. apply elem_of_cons in H2 as [-> | H2]; [|tauto].
      apply lookup_delete_eq.
    + apply lookup_delete_ne. intros ->. destruct H2.
      split; [apply elem_of_cons; by left | done].
Qed.

Lemma pruned_lookup lk (b : gmap Z StoreFile) n :
  pruned lk b !! n =
  if decide (n ∈ (drop MAX_BACKUPS_TO_KEEP (sort_by_mtime (map_to_list b))).*1
             /\ n ∉ lk)
  then None else b !! n.
Proof. unfold pruned. apply lookup_unlink_all. Qed.

(** Pruning only removes archives. *)
Lemma pruned_subseteq lk (b : gmap Z StoreFile) : pruned lk b ⊆ b.
Proof.
  apply map_subseteq_spec. intros n a. rewrite pruned_lookup.
  by case_decide.
Qed.

Lemma sorted_split (b : gmap Z StoreFile) :
  let sorted := sort_by_mtime (map_to_list b) in
  NoDup (sorted.*1)
  /\ (forall n a, (n, a) ∈ sorted <-> b !! n = Some a)
  /\ sorted = take MAX_BACKUPS_TO_KEEP sorted ++ drop MAX_BACKUPS_TO_KEEP sorted.
Proof.
  intros sorted. split; [|split].
  - unfold sorted. rewrite sort_by_mtime_perm. apply NoDup_fst_map_to_list.
  - intros n a. unfold sorted. rewrite sort_by_mtime_perm.
    apply elem_of_map_to_list.
  - by rewrite take_drop.
Qed.

(** With nothing locked, the five first archives of the sorted listing
    are what remains. *)
Lemma pruned_unlocked (b : gmap Z StoreFile) :
  pruned ∅ b
  = list_to_map (take MAX_BACKUPS_TO_KEEP (sort_by_mtime (map_to_list b))).
Proof.
  destruct (sorted_split b) as (Hnd & Hin & Hsplit).
  set (sorted := sort_by_mtime (map_to_list b)) in *.
  rewrite Hsplit, fmap_app in Hnd. apply NoDup_app in Hnd as (Hnd1 & Hdisj & Hnd2).
  apply map_eq. intros n. rewrite pruned_lookup. fold sorted.
  case_decide as Hn.
  - destruct Hn as [Hn _]. symmetry. apply not_elem_of_list_to_map_1.
    intros Hn'. by apply (Hdisj n).
  - destruct (b !! n) as [a|] eqn:E.
    + symmetry. apply elem_of_list_to_map_1; [done|].
      apply Hin in E. rewrite Hsplit in E. apply elem_of_app in E as [E | E]; [done|].
      destruct Hn. split; [|set_solver]. by apply (list_elem_of_fmap_2 fst) in E.
    + symmetry. apply not_elem_of_list_to_map_1. intros Hn'.
      apply list_elem_of_fmap in Hn' as ([n' a] & -> & Hn').
      assert ((n', a) ∈ sorted) as Hs.
      { rewrite Hsplit. apply elem_of_app. by left. }
      apply Hin in Hs. simpl in E. congruence.
Qed.

Lemma pruned_size (b : gmap Z StoreFile) :
  size (pruned ∅ b) = Nat.min MAX_BACKUPS_TO_KEEP (size b).
Proof.
  rewrite pruned_unlocked.
  destruct (sorted_split b) as (Hnd & _ & Hsplit).
  set (sorted := sort_by_mtime (map_to_list b)) in *.
  rewrite map_size_list_to_map.
  - rewrite length_take. unfold sorted.
    by rewrite sort_by_mtime_perm, length_map_to_list.
  - rewrite Hsplit, fmap_app in Hnd. by apply NoDup_app in Hnd as (Hnd1 & _).
Qed.

(** An archive is kept whenever fewer than five other archives are at
    least as recent. *)
Lemma pruned_keeps lk (b : gmap Z StoreFile) n a :
  b !! n = Some a ->
  (forall l : list Z,
      NoDup l ->
      (forall n', n' ∈ l ->
         n' <> n /\ exists a', b !! n' = Some a' /\ st_mtime a <= st_mtime a') ->
      (length l < MAX_BACKUPS_TO_KEEP)%nat) ->
  pruned lk b !! n = Some a.
Proof.
  intros Hb Hfew. rewrite pruned_lookup. case_decide as Hn; [|done].
  destruct Hn as [Hn _]. exfalso.
  destruct (sorted_split b) as (Hnd & Hin & Hsplit).
  pose proof (sort_by_mtime_sorted (map_to_list b)) as Hsorted.
  set (sorted := sort_by_mtime (map_to_list b)) in *.
  rewrite Hsplit in Hsorted. rewrite Hsplit, fmap_app in Hnd.
  apply NoDup_app in Hnd as (Hnd1 & Hdisj & Hnd2).
  apply list_elem_of_fmap in Hn as ([n0 a0] & -> & Hn). simpl in *.
  assert ((n0, a0) ∈ sorted) as Hs by (rewrite Hsplit; apply elem_of_app; by right).
  apply Hin in Hs. rewrite Hb in Hs. injection Hs as <-.
  assert (length (take MAX_BACKUPS_TO_KEEP sorted) = MAX_BACKUPS_TO_KEEP) as Hlen.
  { rewrite length_take. apply Nat.min_l.
    apply (f_equal length) in Hsplit. rewrite length_app in Hsplit.
    apply list_elem_of_lookup in Hn as [i Hi]. apply lookup_lt_Some in Hi.
    rewrite length_drop in Hi. lia. }
  specialize (Hfew ((take MAX_BACKUPS_TO_KEEP sorted).*1) Hnd1).
  rewrite length_fmap, Hlen in Hfew. apply (Nat.lt_irrefl MAX_BACKUPS_TO_KEEP).
  apply Hfew. intros n' Hn'. split.
  - intros ->. apply (Hdisj n0 Hn'). by apply (list_elem_of_fmap_2 fst) in Hn.
  - apply list_elem_of_fmap in Hn' as ([n1 a1] & -> & Hn1). exists a1. split.
    + apply Hin. rewrite Hsplit. apply elem_of_app. by left.
    + apply (StronglySorted_app_1_elem_of _ _ _ (n1, a1) (n0, a) Hsorted Hn1 Hn).
Qed.

(** Some archive of greatest modification time is kept. *)
Lemma pruned_newest lk (b : gmap Z StoreFile) :
  b <> ∅ ->
  exists n a, pruned lk b !! n = Some a
              /\ forall n' a', b !! n' = Some a' -> st_mtime a' <= st_mtime a.
Proof.
  intros Hne.
  destruct (sorted_split b) as (Hnd & Hin & Hsplit).
  pose proof (sort_by_mtime_sorted (map_to_list b)) as Hsorted.
  pose proof (sort_by_mtime_perm (map_to_list b)) as Hperm.
  destruct (sort_by_mtime (map_to_list b)) as [|[n a] rest] eqn:E.
  { destruct Hne. apply map_to_list_empty_iff.
    by apply Permutation_nil_r. }
  exists n, a. split.
  - rewrite pruned_lookup, E.
    assert (b !! n = Some a) as Hb by (apply Hin; left).
    case_decide as Hn; [|done]. destruct Hn as [Hn _]. exfalso.
    simpl in Hn. rewrite fmap_cons in Hnd. apply NoDup_cons in Hnd as [Hnin _].
    apply Hnin. simpl.
    apply list_elem_of_fmap in Hn as (x & -> & Hx).
    apply list_elem_of_fmap_2. rewrite <- (take_drop 4 rest).
    apply elem_of_app. by right.
  - intros n' a' Hb'. apply Hin in Hb'.
    apply elem_of_cons in Hb' as [[= -> ->] | Hb']; [done|].
    apply StronglySorted_inv in Hsorted as [_ Hall].
    rewrite Forall_forall in Hall. by apply (Hall (n', a')).
Qed.

(** Up to five archives: nothing is pruned. *)
Lemma pruned_small lk (b : gmap Z StoreFile) :
  (size b <= MAX_BACKUPS_TO_KEEP)%nat -> pruned lk b = b.
Proof.
  intros Hsz. unfold pruned. rewrite drop_ge; [done|].
  by rewrite sort_by_mtime_perm, length_map_to_list.
Qed.

End PruneFacts.

(** ** Statements *)

Section StatementFacts.

Lemma max_rowid_spec (t : gmap Z Livro) :
  0 <= max_rowid t
  /\ (forall id b, t !! id = Some b -> id <= max_rowid t)
  /\ (forall B, 0 <= B -> (forall id b, t !! id = Some b -> id <= B) ->
                max_rowid t <= B).
Proof.
  unfold max_rowid.
  apply (map_fold_weak_ind
           (fun r (m : gmap Z Livro) =>
              0 <= r
              /\ (forall id b, m !! id = Some b -> id <= r)
              /\ (forall B, 0 <= B -> (forall id b, m !! id = Some b -> id <= B) ->
                            r <= B))).
  - split; [done|]. split; [|by intros].
    intros id b. by rewrite lookup_empty.
  - intros i x m r Hi (H0 & Hub & Hlub). split; [lia|]. split.
    + intros id b. rewrite lookup_insert. case_decide as E.
      * intros _. subst. lia.
      * intros Hm. specialize (Hub _ _ Hm). lia.
    + intros B HB Hall. apply Z.max_lub.
      * apply (Hall i x). apply lookup_insert_eq.
      * apply Hlub; [done|]. intros id b Hm. apply (Hall id b).
        rewrite lookup_insert_ne; [done|]. intros ->. congruence.
Qed.

Lemma last_id_bound d id b : livros d !! id = Some b -> id <= last_id d.
Proof.
  intros H. destruct (max_rowid_spec (livros d)) as (_ & Hub & _).
  specialize (Hub _ _ H). unfold last_id. lia.
Qed.

Lemma last_id_nonneg d : 0 <= last_id d.
Proof.
  destruct (max_rowid_spec (livros d)) as (H0 & _). unfold last_id. lia.
Qed.

(** An INSERT gives the row the id after the largest ever used. *)
Lemma sql_insert_spec t a y p d :
  let d' := (sql_insert t a y p d).2 in
  (sql_insert t a y p d).1 = (1, last_id d + 1)
  /\ livros d' = <[last_id d + 1 := mkLivro t a y (sql_real p)]> (livros d)
  /\ livros d !! (last_id d + 1) = None
  /\ last_id d' = last_id d + 1.
Proof.
  simpl. fold (last_id d). split; [done|]. split; [done|].
  assert (livros d !! (last_id d + 1) = None) as Hfresh.
  { destruct (livros d !! (last_id d + 1)) as [b|] eqn:E; [|done].
    apply last_id_bound in E. lia. }
  split; [done|].
  unfold last_id at 1. simpl. fold (last_id d).
  destruct (max_rowid_spec (<[last_id d + 1 := mkLivro t a y (sql_real p)]> (livros d)))
    as (_ & Hub & Hlub).
  specialize (Hlub (last_id d + 1)).
  pose proof (last_id_nonneg d).
  assert (max_rowid (<[last_id d + 1 := mkLivro t a y (sql_real p)]> (livros d))
          <= last_id d + 1); [|lia].
  apply Hlub; [lia|]. intros id b. rewrite lookup_insert. case_decide.
  - intros _. lia.
  - intros Hb. apply last_id_bound in Hb. lia.
Qed.

Lemma sql_insert_changes t a y p d : (sql_insert t a y p d).2 <> d.
Proof.
  destruct (sql_insert_spec t a y p d) as (_ & Hl & Hfresh & _).
  intros E. rewrite E in Hl. rewrite Hl, lookup_insert_eq in Hfresh. done.
Qed.

Lemma sql_delete_changes id d b :
  livros d !! id = Some b -> (sql_delete id d).2 <> d.
Proof.
  intros Hb. unfold sql_delete. rewrite Hb. simpl. intros E.
  apply (f_equal (fun d => livros d !! id)) in E. simpl in E.
  rewrite lookup_delete_eq in E. congruence.
Qed.

Lemma sql_delete_all_changes d : livros d <> ∅ -> (sql_delete_all d).2 <> d.
Proof. intros Hne E. apply Hne. by rewrite <- E. Qed.

End StatementFacts.

(** ** [backup_db] and the calls built on it *)

Section BackupFacts.

Lemma backup_db_eq w :
  backup_db w = Ret (second_of (clock (ensured w))) (backed_up w).
Proof. destruct w as [c y [f|] b lk cs]; reflexivity. Qed.

Lemma ensured_Some w f : store w = Some f -> ensured w = w.
Proof. intros H. unfold ensured. by rewrite H. Qed.

Lemma ensured_store w : exists f, store (ensured w) = Some f.
Proof. unfold ensured. destruct (store w) eqn:E; simpl; eauto. Qed.

Lemma ensured_catalog w : catalog (ensured w) = catalog w.
Proof. by destruct w as [c y [f|] b lk cs]. Qed.

Lemma ensured_backups w : backups (ensured w) = backups w.
Proof. by destruct w as [c y [f|] b lk cs]. Qed.

Lemma ensured_locked w : locked (ensured w) = locked w.
Proof. by destruct w as [c y [f|] b lk cs]. Qed.

Lemma backed_up_store w : store (backed_up w) = store (ensured w).
Proof. unfold backed_up. destruct (store (ensured w)) eqn:E; simpl; by rewrite ?E. Qed.

Lemma backed_up_clock w : clock (backed_up w) = clock (ensured w).
Proof. unfold backed_up. by destruct (store (ensured w)). Qed.


Lemma backed_up_year w : year (backed_up w) = year w.
Proof. by destruct w as [c y [f|] b lk cs]. Qed.

Lemma backed_up_csv w : csv_files (backed_up w) = csv_files w.
Proof. by destruct w as [c y [f|] b lk cs]. Qed.

Lemma backed_up_backups w f :
  store (ensured w) = Some f ->
  backups (backed_up w)
  = pruned (locked w) (<[second_of (clock (ensured w)) := f]> (backups w)).
Proof.
  intros H. unfold backed_up. rewrite H. simpl.
  by rewrite ensured_backups, ensured_locked.
Qed.

(** [backup_db] leaves the catalog as it was. *)
Lemma backed_up_catalog w : catalog (backed_up w) = catalog w.
Proof. unfold catalog. rewrite backed_up_store. apply ensured_catalog. Qed.

(** After [backup_db] on a consistent world, an archive of greatest
    modification time is a copy of the store file. *)
Lemma backed_up_newest w f :
  consistent w -> store (ensured w) = Some f ->
  exists n, backups (backed_up w) !! n = Some f
            /\ forall n' a', backups (backed_up w) !! n' = Some a' ->
                             st_mtime a' <= st_mtime f.
Proof.
  intros Hc Hf. rewrite (backed_up_backups w f Hf).
  set (ts := second_of (clock (ensured w))).
  assert (forall n a, <[ts := f]> (backups w) !! n = Some a ->
            st_mtime a <= st_mtime f /\ (st_mtime a = st_mtime f -> a = f)) as Hall.
  { intros n a. rewrite lookup_insert. case_decide as Hn.
    - by intros [= ->].
    - intros Ha. unfold consistent, ensured in *.
      destruct (store w) as [f'|] eqn:E.
      + rewrite E in Hf. injection Hf as ->. eauto.
      + rewrite Hc in Ha. by rewrite lookup_empty in Ha. }
  destruct (pruned_newest (locked w) (<[ts := f]> (backups w)))
    as (n & a & Hn & Hmax).
  { apply insert_non_empty. }
  assert (<[ts := f]> (backups w) !! n = Some a) as Hn'.
  { eapply lookup_weaken; [exact Hn | apply pruned_subseteq]. }
  assert (a = f) as ->.
  { apply Hall in Hn' as [Hle Heq]. apply Heq.
    specialize (Hmax ts f). rewrite lookup_insert_eq in Hmax.
    specialize (Hmax eq_refl). lia. }
  exists n. split; [done|]. intros n' a' Ha'. apply (Hmax n').
  eapply lookup_weaken; [exact Ha' | apply pruned_subseteq].
Qed.

(** With fewer than five archives before, [backup_db] adds its archive
    and removes none. *)
Lemma backed_up_room w f :
  store (ensured w) = Some f ->
  (size (backups w) < MAX_BACKUPS_TO_KEEP)%nat ->
  let ts := second_of (clock (ensured w)) in
  backups (backed_up w) = <[ts := f]> (backups w)
  /\ (backups w !! ts = None ->
      size (backups (backed_up w)) = S (size (backups w))).
Proof.
  intros Hf Hsz ts. rewrite (backed_up_backups w f Hf). fold ts.
  destruct (backups w !! ts) eqn:E.
  - rewrite pruned_small; [done|]. rewrite map_size_insert_Some by done. lia.
  - rewrite pruned_small by (rewrite map_size_insert_None by done; lia).
    split; [done|]. intros _. by apply map_size_insert_None.
Qed.

Lemma adicionar_livro_eq t a y p w d mt :
  store (ensured w) = Some (mkStore (Some d) mt) ->
  adicionar_livro t a y p w
  = Ret (sql_insert (strip t) (strip a) y p d).1.2
        (committed (sql_insert (strip t) (strip a) y p d).2 (backed_up w)).
Proof.
  intros H. unfold adicionar_livro.
  rewrite bind_eq, backup_db_eq.
  assert (store (backed_up w) = Some (mkStore (Some d) mt)) as H'
    by (by rewrite backed_up_store).
  rewrite bind_eq, (get_connection_Some _ _ H').
  rewrite bind_eq, (execute_table _ _ _ _ H').
  by destruct (decide _) as [E | _]; [destruct (sql_insert_changes _ _ _ _ _ E)|].
Qed.

Lemma atualizar_preco_livro_eq id p w d mt b :
  store w = Some (mkStore (Some d) mt) -> livros d !! id = Some b ->
  atualizar_preco_livro id p w
  = Ret true (if decide ((sql_update_preco p id d).2 = d) then backed_up w
              else committed (sql_update_preco p id d).2 (backed_up w)).
Proof.
  intros H Hb. unfold atualizar_preco_livro.
  rewrite bind_eq, (get_connection_Some _ _ H).
  rewrite bind_eq, (query_table _ _ _ _ H).
  unfold sql_select_id at 1. rewrite Hb.
  rewrite bind_eq, backup_db_eq.
  assert (store (backed_up w) = Some (mkStore (Some d) mt)) as H'
    by (by rewrite backed_up_store, (ensured_Some _ _ H)).
  rewrite bind_eq, (get_connection_Some _ _ H').
  rewrite bind_eq, (execute_table _ _ _ _ H').
  unfold sql_update_preco. rewrite Hb. simpl. by destruct (decide _).
Qed.

Lemma remover_livro_eq id w d mt b :
  store w = Some (mkStore (Some d) mt) -> livros d !! id = Some b ->
  remover_livro id w
  = Ret true (committed (sql_delete id d).2 (backed_up w)).
Proof.
  intros H Hb. unfold remover_livro.
  rewrite bind_eq, (get_connection_Some _ _ H).
  rewrite bind_eq, (query_table _ _ _ _ H).
  unfold sql_select_id at 1. rewrite Hb.
  rewrite bind_eq, backup_db_eq.
  assert (store (backed_up w) = Some (mkStore (Some d) mt)) as H'
    by (by rewrite backed_up_store, (ensured_Some _ _ H)).
  rewrite bind_eq, (get_connection_Some _ _ H').
  rewrite bind_eq, (execute_table _ _ _ _ H').
  destruct (decide _) as [E | _]; [destruct (sql_delete_changes _ _ _ Hb E)|].
  unfold sql_delete. by rewrite Hb.
Qed.

Lemma not_found_eq id w d mt :
  store w = Some (mkStore (Some d) mt) -> livros d !! id = None ->
  forall p, atualizar_preco_livro id p w = Ret false w
            /\ remover_livro id w = Ret false w.
Proof.
  intros H Hb p. unfold atualizar_preco_livro, remover_livro.
  rewrite !bind_eq, (get_connection_Some _ _ H).
  rewrite !bind_eq, (query_table _ _ _ _ H).
  unfold sql_select_id. by rewrite Hb.
Qed.

Lemma remover_todos_livros_empty w d mt :
  store w = Some (mkStore (Some d) mt) -> livros d = ∅ ->
  remover_todos_livros w = Ret false w.
Proof.
  intros H Hb. unfold remover_todos_livros.
  rewrite !bind_eq, (get_connection_Some _ _ H).
  rewrite !bind_eq, (query_table _ _ _ _ H).
  unfold sql_count. by rewrite Hb, map_size_empty.
Qed.

Lemma remover_todos_livros_eq w d mt :
  store w = Some (mkStore (Some d) mt) -> livros d <> ∅ ->
  remover_todos_livros w
  = Ret true (committed (sql_delete_all d).2 (backed_up w)).
Proof.
  intros H Hb. unfold remover_todos_livros.
  rewrite !bind_eq, (get_connection_Some _ _ H).
  rewrite !bind_eq, (query_table _ _ _ _ H).
  assert (size (livros d) <> 0%nat) as Hsz by (by apply map_size_non_empty_iff).
  unfold sql_count at 1. destruct (Z.eqb_spec (Z.of_nat (size (livros d))) 0); [lia|].
  rewrite bind_eq, backup_db_eq.
  assert (store (backed_up w) = Some (mkStore (Some d) mt)) as H'
    by (by rewrite backed_up_store, (ensured_Some _ _ H)).
  rewrite bind_eq, (get_connection_Some _ _ H').
  rewrite bind_eq, (execute_table _ _ _ _ H').
  by destruct (decide _) as [E | _]; [destruct (sql_delete_all_changes _ Hb E)|].
Qed.

End BackupFacts.

(** C2: on an id the catalog does not hold, [atualizar_preco_livro] and
    [remover_livro] return [False] and leave the whole world as it was:
    the catalog is unchanged and the backup directory holds the same
    archives as before. *)
Theorem not_found_no_backup w d mt id p :
  store w = Some (mkStore (Some d) mt) ->
  livros d !! id = None ->
  atualizar_preco_livro id p w = Ret false w
  /\ remover_livro id w = Ret false w
  /\ catalog (final (atualizar_preco_livro id p w)) = catalog w
  /\ backups (final (atualizar_preco_livro id p w)) = backups w
  /\ catalog (final (remover_livro id w)) = catalog w
  /\ backups (final (remover_livro id w)) = backups w.
Proof.
  intros H Hid. destruct (not_found_eq id w d mt H Hid p) as [-> ->]. done.
Qed.

Lemma not_found_no_backup_witness :
  atualizar_preco_livro 7 (S754_zero false) sample_world = Ret false sample_world
  /\ remover_livro 7 sample_world = Ret false sample_world
  /\ catalog (final (atualizar_preco_livro 7 (S754_zero false) sample_world))
     = catalog sample_world
  /\ backups (final (atualizar_preco_livro 7 (S754_zero false) sample_world))
     = backups sample_world
  /\ catalog (final (remover_livro 7 sample_world)) = catalog sample_world
  /\ backups (final (remover_livro 7 sample_world)) = backups sample_world.
Proof.
  apply (not_found_no_backup sample_world sample_db 1690000000000000 7);
    reflexivity.
Defined.

(** C3, as stated, fails: a call within the second of an earlier backup
    creates no new archive.  One microsecond after [adicionar_livro] has
    made its backup and added a book, the state is consistent, the catalog
    holds that book and the directory one archive, the copy of the empty
    store; [remover_todos_livros] returns [True] and empties the catalog,
    and the directory still holds one archive, under the same name: the
    earlier copy was overwritten by the copy of the store before the
    deletion. *)
Lemma remover_todos_livros_same_second :
  let w := tick 1 (final (adicionar_livro "A" "B" None None fresh_world)) in
  consistent w
  /\ catalog w = {[ 1 := mkLivro "A" "B" None None ]}
  /\ size (backups w) = 1%nat
  /\ catalog_of (backups w !! 1700000000) = ∅
  /\ exists w',
       remover_todos_livros w = Ret true w'
       /\ catalog w' = ∅
       /\ size (backups w') = 1%nat
       /\ dom (backups w') = dom (backups w)
       /\ catalog_of (backups w' !! 1700000000)
          = {[ 1 := mkLivro "A" "B" None None ]}.
Proof.
  intros w. split.
  { assert (backups w
            = {[ 1700000000 := mkStore (Some empty_db) 1690000000000000 ]})
      as Hb by (by vm_compute).
    assert (store w
            = Some (mkStore (Some (mkDB {[ 1 := mkLivro "A" "B" None None ]} 1))
                            1700000000000000)) as Hs by (by vm_compute).
    unfold consistent. rewrite Hs, Hb. intros n a Ha.
    apply lookup_singleton_Some in Ha as [_ <-]. simpl. lia. }
  split; [by vm_compute|]. split; [by vm_compute|]. split; [by vm_compute|].
  eexists. split; [by vm_compute|].
  split; [by vm_compute|]. split; [by vm_compute|]. split; by vm_compute.
Qed.

(** C3, amended: on an empty catalog [remover_todos_livros] returns
    [False] and leaves the world as it was.  On a non-empty catalog it
    returns [True] and the catalog is empty afterwards; one copy of the
    store file as it was is written, under the name of the current
    second, and the directory is pruned: no other archive is new, an
    archive of greatest modification time holds the catalog as it was,
    and the copy written is there whenever the store file is more recent
    than every earlier archive.  With fewer than five archives before,
    the directory is the former one with that copy: one archive more when
    no archive bore the name of the current second, and as many as before
    when one did, which the copy replaces. *)
Theorem remover_todos_livros_spec w d mt :
  store w = Some (mkStore (Some d) mt) ->
  consistent w ->
  (livros d = ∅ -> remover_todos_livros w = Ret false w)
  /\ (livros d <> ∅ ->
      let ts := second_of (clock w) in
      let f := mkStore (Some d) mt in
      exists w',
        remover_todos_livros w = Ret true w'
        /\ catalog w' = ∅
        /\ backups w' = pruned (locked w) (<[ts := f]> (backups w))
        /\ backups w' ⊆ <[ts := f]> (backups w)
        /\ newest_archive_holds w' (livros d)
        /\ ((forall n a, backups w !! n = Some a -> st_mtime a < mt) ->
            backups w' !! ts = Some f)
        /\ ((size (backups w) < MAX_BACKUPS_TO_KEEP)%nat ->
            backups w' = <[ts := f]> (backups w)
            /\ (backups w !! ts = None ->
                size (backups w') = S (size (backups w)))
            /\ (is_Some (backups w !! ts) ->
                size (backups w') = size (backups w)))).
Proof.
  intros H Hc. split; [by apply (remover_todos_livros_empty w d mt)|].
  intros Hne ts f. eexists.
  split; [by apply (remover_todos_livros_eq w d mt)|].
  assert (store (ensured w) = Some f) as Hf by (by rewrite (ensured_Some _ _ H)).
  assert (backups (committed (sql_delete_all d).2 (backed_up w))
          = pruned (locked w) (<[ts := f]> (backups w))) as Hb.
  { simpl. rewrite (backed_up_backups w f Hf). unfold ts.
    by rewrite (ensured_Some _ _ H). }
  split; [done|]. split; [done|].
  split; [rewrite Hb; apply pruned_subseteq|].
  split.
  { destruct (backed_up_newest w f Hc Hf) as (n & Hn & Hmax).
    exists n, f. by repeat split. }
  split.
  - intros Hold. rewrite Hb. apply pruned_keeps; [apply lookup_insert_eq|].
    intros l _ Hl. destruct l as [|n' l]; [by compute; lia|].
    destruct (Hl n') as (Hne' & a' & Ha' & Hle); [left|].
    rewrite lookup_insert_ne in Ha' by done.
    apply Hold in Ha'. simpl in Hle. lia.
  - intros Hsz. destruct (backed_up_room w f Hf Hsz) as [Hroom Hone].
    rewrite (ensured_Some _ _ H) in Hroom, Hone.
    split; [done|]. split; [done|].
    intros Hsome. rewrite Hb.
    change (backups (backed_up w) = <[ts := f]> (backups w)) in Hroom.
    rewrite (backed_up_backups w f Hf), (ensured_Some _ _ H) in Hroom.
    fold ts in Hroom. rewrite Hroom. by apply map_size_insert_Some.
Qed.

Lemma remover_todos_livros_spec_witness :
  (livros sample_db = ∅ -> remover_todos_livros sample_world = Ret false sample_world)
  /\ (livros sample_db <> ∅ ->
      let ts := second_of (clock sample_world) in
      let f := mkStore (Some sample_db) 1690000000000000 in
      exists w',
        remover_todos_livros sample_world = Ret true w'
        /\ catalog w' = ∅
        /\ backups w' = pruned (locked sample_world) (<[ts := f]> (backups sample_world))
        /\ backups w' ⊆ <[ts := f]> (backups sample_world)
        /\ newest_archive_holds w' (livros sample_db)
        /\ ((forall n a, backups sample_world !! n = Some a ->
                         st_mtime a < 1690000000000000) ->
            backups w' !! ts = Some f)
        /\ ((size (backups sample_world) < MAX_BACKUPS_TO_KEEP)%nat ->
            backups w' = <[ts := f]> (backups sample_world)
            /\ (backups sample_world !! ts = None ->
                size (backups w') = S (size (backups sample_world)))
            /\ (is_Some (backups sample_world !! ts) ->
                size (backups w') = size (backups sample_world)))).
Proof.
  apply (remover_todos_livros_spec sample_world sample_db 1690000000000000).
  - reflexivity.
  - intros n a Ha. by vm_compute in Ha.
Defined.

(** ** Importing rows *)

Section InsertFacts.

Lemma db_import_cons cy r rows d :
  db_import cy (r :: rows) d
  = db_import cy rows
      (sql_insert (import_values cy r).1.1.1 (import_values cy r).1.1.2
         (import_values cy r).1.2 (import_values cy r).2 d).2.
Proof. unfold db_import. simpl. by destruct (import_values cy r) as [[[??]?]?]. Qed.

(** [db_import] adds one row per CSV row, under the ids after the largest
    ever used, and leaves every other row as it was. *)
Lemma db_import_spec cy rows d :
  let d' := db_import cy rows d in
  (forall k r, rows !! k = Some r ->
     livros d' !! (last_id d + 1 + Z.of_nat k) = Some (import_record cy r))
  /\ (forall id, id <= last_id d -> livros d' !! id = livros d !! id)
  /\ (forall id, last_id d + Z.of_nat (length rows) < id -> livros d' !! id = None)
  /\ last_id d' = last_id d + Z.of_nat (length rows).
Proof.
  revert d. induction rows as [|r rows IH]; intros d.
  - simpl. split; [intros k r; by rewrite lookup_nil|]. split; [done|].
    split; [|lia]. intros id Hid.
    destruct (livros d !! id) as [b|] eqn:E; [|done].
    apply last_id_bound in E. lia.
  - cbv zeta. rewrite db_import_cons.
    destruct (import_values cy r) as [[[t a] y] p] eqn:Ev. cbn [fst snd].
    destruct (sql_insert_spec t a y p d) as (_ & Hl & Hfresh & Hlast).
    set (d1 := (sql_insert t a y p d).2) in *.
    destruct (IH d1) as (Hnew & Hold & Habove & Hlast').
    rewrite Hlast in *. split; [|split; [|split]].
    + intros [|k] r' Hk.
      * injection Hk as <-. rewrite Hold by lia. rewrite Hl.
        replace (last_id d + 1 + Z.of_nat 0) with (last_id d + 1) by lia.
        rewrite lookup_insert_eq. unfold import_record. by rewrite Ev.
      * simpl in Hk. rewrite <- (Hnew k r' Hk). f_equal. lia.
    + intros id Hid. rewrite Hold by lia. rewrite Hl.
      apply lookup_insert_ne. lia.
    + intros id Hid. apply Habove. simpl length in Hid. lia.
    + rewrite Hlast'. simpl length. lia.
Qed.

Lemma committed_committed d1 d2 w :
  committed d2 (committed d1 w) = committed d2 w.
Proof. done. Qed.

Lemma import_rows_eq cy rows k w d mt :
  store w = Some (mkStore (Some d) mt) -> rows <> [] ->
  import_rows cy rows k w
  = Ret (k + Z.of_nat (length rows)) (committed (db_import cy rows d) w).
Proof.
  revert k w d mt. induction rows as [|r rows IH]; intros k w d mt H Hne; [done|].
  rewrite db_import_cons. cbn [import_rows].
  destruct (import_values cy r) as [[[t a] y] p]. cbn [fst snd].
  rewrite bind_eq, (execute_table _ _ _ _ H).
  destruct (decide _) as [E | _]; [destruct (sql_insert_changes _ _ _ _ _ E)|].
  set (d1 := (sql_insert t a y p d).2).
  destruct rows as [|r' rows].
  - simpl. f_equal; try done; lia.
  - erewrite (IH (k + 1) _ d1 (clock w)); [|done|done].
    f_equal; try done. simpl length. lia.
Qed.

Lemma importar_de_csv_eq path w doc d mt :
  csv_files w !! path = Some doc ->
  dict_reader doc <> [] ->
  store (ensured w) = Some (mkStore (Some d) mt) ->
  importar_de_csv path w
  = Ret (Z.of_nat (length (dict_reader doc)))
        (committed (db_import (year w) (dict_reader doc) d) (backed_up w)).
Proof.
  intros Hp Hne H. unfold importar_de_csv.
  rewrite bind_eq. simpl. rewrite Hp.
  destruct (dict_reader doc) as [|r rows] eqn:E; [done|].
  rewrite bind_eq, backup_db_eq.
  assert (store (backed_up w) = Some (mkStore (Some d) mt)) as H'
    by (by rewrite backed_up_store).
  rewrite bind_eq, (get_connection_Some _ _ H').
  by rewrite (import_rows_eq _ _ _ _ _ _ H').
Qed.

Lemma importar_de_csv_no_rows path w doc :
  csv_files w !! path = Some doc -> dict_reader doc = [] ->
  importar_de_csv path w = Ret 0 w.
Proof.
  intros Hp He. unfold importar_de_csv. rewrite bind_eq. simpl.
  by rewrite Hp, He.
Qed.

Lemma importar_de_csv_missing path w :
  csv_files w !! path = None ->
  importar_de_csv path w = Raise FileNotFoundError w.
Proof.
  intros Hp. unfold importar_de_csv. rewrite bind_eq. simpl. by rewrite Hp.
Qed.

Lemma importar_de_csv_no_table path w doc mt :
  csv_files w !! path = Some doc ->
  dict_reader doc <> [] ->
  store w = Some (mkStore None mt) ->
  importar_de_csv path w = Raise OperationalError (backed_up w).
Proof.
  intros Hp Hne H. unfold importar_de_csv.
  rewrite bind_eq. simpl. rewrite Hp.
  destruct (dict_reader doc) as [|r rows] eqn:E; [done|].
  rewrite bind_eq, backup_db_eq.
  assert (store (backed_up w) = Some (mkStore None mt)) as H'
    by (by rewrite backed_up_store, (ensured_Some _ _ H)).
  rewrite bind_eq, (get_connection_Some _ _ H').
  cbn [import_rows]. destruct (import_values (year w) r) as [[[t a] y] p].
  by rewrite bind_eq, (execute_no_table _ _ _ H').
Qed.

End InsertFacts.

(** ** When a call writes *)

Section CallInversion.

Lemma store_cases w :
  store w = None
  \/ (exists mt, store w = Some (mkStore None mt))
  \/ (exists d mt, store w = Some (mkStore (Some d) mt)).
Proof. destruct (store w) as [[[d|] mt]|]; eauto. Qed.

Lemma ensured_cases w :
  (exists mt, store w = Some (mkStore None mt) /\ ensured w = w)
  \/ (exists d mt, store (ensured w) = Some (mkStore (Some d) mt)).
Proof.
  destruct w as [c y [[[d|] mt]|] b lk cs]; [right | left | right]; simpl; eauto.
Qed.

Lemma adicionar_livro_no_table t a y p w mt :
  store w = Some (mkStore None mt) ->
  adicionar_livro t a y p w = Raise OperationalError (backed_up w).
Proof.
  intros H. unfold adicionar_livro. rewrite bind_eq, backup_db_eq.
  assert (store (backed_up w) = Some (mkStore None mt)) as H'
    by (by rewrite backed_up_store, (ensured_Some _ _ H)).
  rewrite bind_eq, (get_connection_Some _ _ H').
  by rewrite bind_eq, (execute_no_table _ _ _ H').
Qed.

Lemma connect_query {A B} (q : DB -> A) (k : A -> M B) w :
  (get_connection;; x ← query q; k x) w
  = match store w with
    | Some (mkStore (Some d) _) => k (q d) w
    | Some (mkStore None _) => Raise OperationalError w
    | None =>
        Raise OperationalError (set_store (Some (mkStore None (clock w))) w)
    end.
Proof.
  destruct (store w) as [[[d|] mt]|] eqn:E.
  - by rewrite bind_eq, (get_connection_Some _ _ E), bind_eq, (query_table _ _ _ _ E).
  - by rewrite bind_eq, (get_connection_Some _ _ E), bind_eq, (query_no_table _ _ _ E).
  - rewrite bind_eq, (get_connection_None _ E), bind_eq.
    by erewrite query_no_table.
Qed.

Lemma atualizar_preco_livro_true id p w w' :
  atualizar_preco_livro id p w = Ret true w' ->
  exists d mt b, store w = Some (mkStore (Some d) mt) /\ livros d !! id = Some b.
Proof.
  unfold atualizar_preco_livro. rewrite connect_query.
  destruct (store w) as [[[d|] mt]|]; [|done|done].
  unfold sql_select_id at 1. destruct (livros d !! id) as [b|] eqn:E; [|done].
  intros _. by exists d, mt, b.
Qed.

Lemma remover_livro_true id w w' :
  remover_livro id w = Ret true w' ->
  exists d mt b, store w = Some (mkStore (Some d) mt) /\ livros d !! id = Some b.
Proof.
  unfold remover_livro. rewrite connect_query.
  destruct (store w) as [[[d|] mt]|]; [|done|done].
  unfold sql_select_id at 1. destruct (livros d !! id) as [b|] eqn:E; [|done].
  intros _. by exists d, mt, b.
Qed.

Lemma remover_todos_livros_true w w' :
  remover_todos_livros w = Ret true w' ->
  exists d mt, store w = Some (mkStore (Some d) mt) /\ livros d <> ∅.
Proof.
  unfold remover_todos_livros. rewrite connect_query.
  destruct (store w) as [[[d|] mt]|]; [|done|done].
  unfold sql_count at 1.
  destruct (Z.eqb_spec (Z.of_nat (size (livros d))) 0) as [E | E]; [done|].
  intros _. exists d, mt. split; [done|]. intros Hd. rewrite Hd in E. done.
Qed.

(** What the five calls share once they go through: the new world is the
    world [backup_db] left, with the store file rewritten unless the call
    stored a price that was there already. *)
Lemma run_op_true o w w' :
  run_op o w = Ret true w' ->
  exists d mt,
    store (ensured w) = Some (mkStore (Some d) mt)
    /\ (w' = backed_up w \/ exists d', w' = committed d' (backed_up w)).
Proof.
  destruct o as [t a y p | id p | id | | path]; simpl.
  - destruct (ensured_cases w) as [(mt & H & _) | (d & mt & H)].
    + rewrite bind_eq, (adicionar_livro_no_table _ _ _ _ _ _ H). done.
    + rewrite bind_eq, (adicionar_livro_eq _ _ _ _ _ _ _ H).
      intros [= <-]. eauto 6.
  - intros H. destruct (atualizar_preco_livro_true _ _ _ _ H) as (d & mt & b & Hs & Hb).
    rewrite (atualizar_preco_livro_eq _ _ _ _ _ _ Hs Hb) in H.
    injection H as <-. rewrite (ensured_Some _ _ Hs).
    exists d, mt. split; [done|]. destruct (decide _); eauto.
  - intros H. destruct (remover_livro_true _ _ _ H) as (d & mt & b & Hs & Hb).
    rewrite (remover_livro_eq _ _ _ _ _ Hs Hb) in H.
    injection H as <-. rewrite (ensured_Some _ _ Hs). eauto 6.
  - intros H. destruct (remover_todos_livros_true _ _ H) as (d & mt & Hs & Hb).
    rewrite (remover_todos_livros_eq _ _ _ Hs Hb) in H.
    injection H as <-. rewrite (ensured_Some _ _ Hs). eauto 6.
  - rewrite bind_eq.
    destruct (csv_files w !! path) as [doc|] eqn:Hp.
    2: { by rewrite (importar_de_csv_missing _ _ Hp). }
    destruct (decide (dict_reader doc = [])) as [He | Hne].
    { by rewrite (importar_de_csv_no_rows _ _ _ Hp He). }
    destruct (ensured_cases w) as [(mt & H & _) | (d & mt & H)].
    + by rewrite (importar_de_csv_no_table _ _ _ _ Hp Hne H).
    + rewrite (importar_de_csv_eq _ _ _ _ _ Hp Hne H).
      intros [= _ <-]. eauto 6.
Qed.

Lemma db_of_catalog w : livros (db_of w) = catalog w.
Proof. by destruct w as [c y [[[d|] mt]|] b lk cs]. Qed.

Lemma db_of_backed_up w : db_of (backed_up w) = db_of w.
Proof. by destruct w as [c y [[[d|] mt]|] b lk cs]. Qed.

Lemma db_of_ensured w d mt :
  store (ensured w) = Some (mkStore (Some d) mt) -> db_of w = d.
Proof.
  destruct w as [c y [[[d0|] mt0]|] b lk cs]; simpl; intros H; by injection H.
Qed.


End CallInversion.

(** ** The states the program moves through *)

Section Steady.

(** The worlds a call can leave. *)
Lemma run_op_world o w :
  let w' := final (run_op o w) in
  w' = w
  \/ (store w = None /\ w' = set_store (Some (mkStore None (clock w))) w)
  \/ w' = backed_up w
  \/ exists d', w' = committed d' (backed_up w).
Proof.
  destruct o as [t a y p | id p | id | | path]; cbn [run_op].
  - rewrite (final_bind_ret _ (fun _ => true)).
    destruct (ensured_cases w) as [(mt & H & _) | (d & mt & H)].
    + rewrite (adicionar_livro_no_table _ _ _ _ _ _ H). simpl. auto.
    + rewrite (adicionar_livro_eq _ _ _ _ _ _ _ H). simpl. eauto 6.
  - destruct (store_cases w) as [H | [(mt & H) | (d & mt & H)]].
    + unfold atualizar_preco_livro. rewrite connect_query, H. simpl. auto.
    + unfold atualizar_preco_livro. rewrite connect_query, H. simpl. auto.
    + destruct (livros d !! id) as [b|] eqn:Hb.
      * rewrite (atualizar_preco_livro_eq _ _ _ _ _ _ H Hb). simpl.
        destruct (decide _); eauto 6.
      * destruct (not_found_eq _ _ _ _ H Hb p) as [-> _]. simpl. auto.
  - destruct (store_cases w) as [H | [(mt & H) | (d & mt & H)]].
    + unfold remover_livro. rewrite connect_query, H. simpl. auto.
    + unfold remover_livro. rewrite connect_query, H. simpl. auto.
    + destruct (livros d !! id) as [b|] eqn:Hb.
      * rewrite (remover_livro_eq _ _ _ _ _ H Hb). simpl. eauto 6.
      * destruct (not_found_eq _ _ _ _ H Hb (S754_zero false)) as [_ ->].
        simpl. auto.
  - destruct (store_cases w) as [H | [(mt & H) | (d & mt & H)]].
    + unfold remover_todos_livros. rewrite connect_query, H. simpl. auto.
    + unfold remover_todos_livros. rewrite connect_query, H. simpl. auto.
    + destruct (decide (livros d = ∅)) as [Hb | Hb].
      * rewrite (remover_todos_livros_empty _ _ _ H Hb). simpl. auto.
      * rewrite (remover_todos_livros_eq _ _ _ H Hb). simpl. eauto 6.
  - rewrite (final_bind_ret _ (fun n => 0 <? n)).
    destruct (csv_files w !! path) as [doc|] eqn:Hp.
    2: { rewrite (importar_de_csv_missing _ _ Hp). simpl. auto. }
    destruct (decide (dict_reader doc = [])) as [He | Hne].
    { rewrite (importar_de_csv_no_rows _ _ _ Hp He). simpl. auto. }
    destruct (ensured_cases w) as [(mt & H & _) | (d & mt & H)].
    + rewrite (importar_de_csv_no_table _ _ _ _ Hp Hne H). simpl. auto.
    + rewrite (importar_de_csv_eq _ _ _ _ _ Hp Hne H). simpl. eauto 6.
Qed.

(** A world without archives, its store file (if any) not dated in the
    future, is steady: so is the world the program starts in. *)
Lemma steady_initial w :
  backups w = ∅ -> (forall f, store w = Some f -> st_mtime f <= clock w) ->
  steady w.
Proof.
  intros Hb Hf. split.
  - unfold consistent. destruct (store w); [|done].
    intros n a. by rewrite Hb, lookup_empty.
  - split; [done|]. intros n a. by rewrite Hb, lookup_empty.
Qed.

Lemma steady_tick w d : steady w -> 0 <= d -> steady (tick d w).
Proof.
  intros [Hc [Hts Hta]] Hd. split; [done|]. split; simpl.
  - intros f Hf. specialize (Hts f Hf). lia.
  - intros n a Ha. specialize (Hta n a Ha). lia.
Qed.

(** [backup_db] keeps the world steady, and leaves every archive at most
    as recent as the store file it copied. *)
Lemma steady_backed_up w :
  steady w ->
  steady (backed_up w)
  /\ exists f, store (backed_up w) = Some f
       /\ st_mtime f <= clock (backed_up w)
       /\ ((forall f0, store w = Some f0 -> st_mtime f0 < clock w) ->
           st_mtime f < clock (backed_up w))
       /\ forall n a, backups (backed_up w) !! n = Some a -> st_mtime a <= st_mtime f.
Proof.
  intros [Hc [Hts Hta]].
  destruct (ensured_store w) as [f Hf].
  assert (store (backed_up w) = Some f) as Hsf by (by rewrite backed_up_store).
  assert (st_mtime f <= clock (ensured w)
          /\ clock w <= clock (ensured w)
          /\ ((forall f0, store w = Some f0 -> st_mtime f0 < clock w) ->
              st_mtime f < clock (ensured w))) as (Hfc & Hcc & Hstrict).
  { destruct w as [c y [f0|] b lk cs]; simpl in *.
    - injection Hf as <-. specialize (Hts f0 eq_refl).
      split; [done|]. split; [lia|]. intros H. by apply H.
    - injection Hf as <-. simpl. split; [lia|]. split; [lia|]. intros _. lia. }
  assert (forall n a, backups (backed_up w) !! n = Some a ->
            st_mtime a <= st_mtime f /\ (st_mtime a = st_mtime f -> a = f)
            /\ st_mtime a <= clock (ensured w)) as Harch.
  { intros n a. rewrite (backed_up_backups w f Hf). intros Ha.
    eapply lookup_weaken in Ha; [|apply pruned_subseteq].
    rewrite lookup_insert in Ha. case_decide.
    - injection Ha as <-. done.
    - unfold consistent in Hc. destruct (store w) as [f0|] eqn:E.
      + unfold ensured in Hf. rewrite E in Hf. rewrite E in Hf. injection Hf as <-.
        destruct (Hc n a Ha) as [H1 H2]. specialize (Hta n a Ha).
        split; [done|]. split; [done|]. lia.
      + rewrite Hc in Ha. by rewrite lookup_empty in Ha. }
  split; [split; [|split]|].
  - unfold consistent. rewrite Hsf. intros n a Ha.
    destruct (Harch n a Ha) as (? & ? & _). done.
  - intros f' Hf'. rewrite Hsf in Hf'. injection Hf' as <-.
    by rewrite backed_up_clock.
  - intros n a Ha. rewrite backed_up_clock. by destruct (Harch n a Ha) as (_ & _ & ?).
  - exists f. split; [done|]. rewrite backed_up_clock.
    split; [done|]. split; [done|].
    intros n a Ha. by destruct (Harch n a Ha) as (? & _).
Qed.

(** Every call made after the clock has moved on from the last write
    keeps the world steady. *)
Lemma steady_run_op o w :
  steady w ->
  (forall f, store w = Some f -> st_mtime f < clock w) ->
  steady (final (run_op o w)).
Proof.
  intros Hs Hlt.
  destruct (run_op_world o w) as [-> | [[Hn ->] | [-> | [d' ->]]]].
  - done.
  - destruct Hs as [Hc [Hts Hta]]. unfold consistent in Hc. rewrite Hn in Hc.
    apply steady_initial; [done|]. simpl. intros f [= <-]. simpl. lia.
  - by apply steady_backed_up.
  - destruct (steady_backed_up w Hs) as ([Hc [Hts Hta]] & f & Hf & Hle & Hstrict & Harch).
    specialize (Hstrict Hlt).
    split; [|split].
    + unfold consistent. simpl. intros n a Ha. specialize (Harch n a Ha). lia.
    + simpl. intros f' [= <-]. simpl. lia.
    + simpl. intros n a Ha. by apply (Hta n).
Qed.

End Steady.

(** C1: whenever one of the five writing calls goes through
    ([adicionar_livro], [atualizar_preco_livro], [remover_livro],
    [remover_todos_livros], [importar_de_csv] with a data row), the world
    it leaves is the world [backup_db] left, with the store file
    rewritten when the call changed the catalog: the copy is taken first,
    from the catalog as it was, and the write does not touch the
    archives.  Right after the call an archive of greatest modification
    time holds the catalog as it was just before the change. *)
Theorem backup_before_mutation o w w' :
  consistent w ->
  run_op o w = Ret true w' ->
  backup_db w = Ret (second_of (clock (ensured w))) (backed_up w)
  /\ catalog (backed_up w) = catalog w
  /\ (catalog w' <> catalog w -> exists d', w' = committed d' (backed_up w))
  /\ backups w' = backups (backed_up w)
  /\ newest_archive_holds w' (catalog w).
Proof.
  intros Hc Hrun.
  destruct (run_op_true o w w' Hrun) as (d & mt & Hs & Hw).
  split; [apply backup_db_eq|]. split; [apply backed_up_catalog|].
  split.
  { intros Hne. destruct Hw as [-> | Hw]; [|done].
    by rewrite backed_up_catalog in Hne. }
  split; [by destruct Hw as [-> | [d' ->]]|].
  destruct (backed_up_newest w _ Hc Hs) as (n & Hn & Hmax).
  exists n, (mkStore (Some d) mt).
  split; [by destruct Hw as [-> | [d' ->]]|]. split.
  - rewrite <- ensured_catalog. unfold catalog. by rewrite Hs.
  - by destruct Hw as [-> | [d' ->]].
Qed.

Lemma backup_before_mutation_witness :
  exists w',
    run_op (OpAtualizarPreco 1 (S754_zero false)) sample_world = Ret true w'
    /\ backup_db sample_world
       = Ret (second_of (clock (ensured sample_world))) (backed_up sample_world)
    /\ catalog (backed_up sample_world) = catalog sample_world
    /\ (catalog w' <> catalog sample_world ->
        exists d', w' = committed d' (backed_up sample_world))
    /\ backups w' = backups (backed_up sample_world)
    /\ newest_archive_holds w' (catalog sample_world).
Proof.
  eexists. split; [by vm_compute|].
  apply (backup_before_mutation (OpAtualizarPreco 1 (S754_zero false)) sample_world).
  - intros n a Ha. by vm_compute in Ha.
  - by vm_compute.
Defined.

(** ** CSV import *)

Section ImportFacts.

(** The record stored for a CSV row: text fields stripped, year and price
    as the validators return them, so an empty or unreadable or
    out-of-range text leaves the field absent. *)
Lemma import_record_fields cy r :
  import_record cy r
  = mkLivro (strip (get_or r "titulo" "title"))
            (strip (get_or r "autor" "author"))
            (validar_ano cy (get_or r "ano_publicacao" "year"))
            (sql_real (validar_preco (get_or r "preco" "price"))).
Proof.
  unfold import_record, import_values.
  set (ano_raw := get_or r "ano_publicacao" "year").
  set (preco_raw := get_or r "preco" "price").
  f_equal.
  - destruct (truthy ano_raw) eqn:E; [done|].
    apply truthy_false in E. rewrite E. symmetry. apply validar_ano_empty.
  - destruct (truthy preco_raw) eqn:E; [done|].
    apply truthy_false in E. by rewrite E.
Qed.

Lemma dict_reader_header_only header : dict_reader [header] = [].
Proof. done. Qed.

End ImportFacts.


(** ** Two backups in a row *)

(** C5, as stated, fails: two calls of [backup_db] one microsecond apart,
    within one second, return the same archive key and leave a single
    archive; and when the store was written in between (two
    [adicionar_livro] in one second), the archive of the first call is
    replaced by the copy of the second. *)
Lemma backup_db_same_second_collides :
  let w1 := backed_up fresh_world in
  let w2 := backed_up (tick 1 w1) in
  backup_db fresh_world = Ret 1700000000 w1
  /\ backup_db (tick 1 w1) = Ret 1700000000 w2
  /\ size (backups w1) = 1%nat
  /\ size (backups w2) = 1%nat
  /\ let v1 := final (adicionar_livro "A" "B" None None fresh_world) in
     let v2 := final (adicionar_livro "C" "D" None None (tick 1 v1)) in
     catalog_of (backups v1 !! 1700000000) = ∅
     /\ size (backups v2) = 1%nat
     /\ catalog_of (backups v2 !! 1700000000)
        = {[ 1 := mkLivro "A" "B" None None ]}.
Proof. by vm_compute. Qed.

(** C5, amended: two consecutive calls of [backup_db] whose clock readings
    lie in different seconds write under different keys, and the copy of
    the second call leaves the archive of the first as it was; only
    pruning can remove it, and it does not when the directory held at most
    three archives before the first call, in which case both archives
    are there afterwards.  Two calls within one second write under the
    same key: the copy of the second call replaces that of the first, and
    the directory is left with the archives the first call left (at most
    three archives before the first call). *)
Theorem backup_db_twice w d :
  let w1 := backed_up w in
  let w2 := backed_up (tick d w1) in
  let ts1 := second_of (clock w1) in
  let ts2 := second_of (clock w1 + d) in
  backup_db w = Ret ts1 w1
  /\ backup_db (tick d w1) = Ret ts2 w2
  /\ (ts1 <> ts2 ->
      (forall a, backups w2 !! ts1 = Some a -> backups w1 !! ts1 = Some a)
      /\ ((size (backups w) <= 3)%nat ->
          backups w1 !! ts1 = store w1
          /\ backups w2 !! ts1 = store w1
          /\ backups w2 !! ts2 = store w1))
  /\ (ts1 = ts2 ->
      (forall a, backups w2 !! ts1 = Some a -> Some a = store (tick d w1))
      /\ ((size (backups w) <= 3)%nat ->
          backups w2 = backups w1 /\ backups w2 !! ts1 = store w1)).
Proof.
  intros w1 w2 ts1 ts2.
  destruct (ensured_store w) as [f Hf].
  assert (store w1 = Some f) as Hs1 by (unfold w1; by rewrite backed_up_store).
  assert (ensured (tick d w1) = tick d w1) as He
    by (by apply (ensured_Some _ f)).
  assert (backups w2 = pruned (locked w1) (<[ts2 := f]> (backups w1))) as Hb2.
  { unfold w2. rewrite (backed_up_backups _ f) by (by rewrite He). by rewrite He. }
  assert (backups w1 = pruned (locked w) (<[ts1 := f]> (backups w))) as Hb1.
  { unfold ts1, w1. rewrite (backed_up_backups _ f Hf). by rewrite backed_up_clock. }
  assert ((size (backups w) <= 3)%nat ->
          backups w1 = <[ts1 := f]> (backups w)
          /\ backups w2 = <[ts2 := f]> (<[ts1 := f]> (backups w))) as Hsmall.
  { intros Hsz.
    assert (size (<[ts1 := f]> (backups w)) <= 4)%nat as Hsz1.
    { destruct (backups w !! ts1) eqn:E.
      - rewrite map_size_insert_Some by done. lia.
      - rewrite map_size_insert_None by done. lia. }
    rewrite pruned_small in Hb1 by (unfold MAX_BACKUPS_TO_KEEP; lia).
    rewrite pruned_small in Hb2.
    2: { rewrite Hb1. destruct (<[ts1 := f]> (backups w) !! ts2) eqn:E.
         - rewrite map_size_insert_Some by done. unfold MAX_BACKUPS_TO_KEEP; lia.
         - rewrite map_size_insert_None by done. unfold MAX_BACKUPS_TO_KEEP; lia. }
    by rewrite Hb2, Hb1. }
  split; [|split; [|split]].
  - rewrite backup_db_eq. unfold ts1, w1. by rewrite backed_up_clock.
  - rewrite backup_db_eq. by rewrite He.
  - intros Hne. split.
    + intros a Ha. rewrite Hb2 in Ha.
      eapply lookup_weaken in Ha; [|apply pruned_subseteq].
      by rewrite lookup_insert_ne in Ha.
    + intros Hsz. destruct (Hsmall Hsz) as [-> ->]. rewrite Hs1.
      split; [apply lookup_insert_eq|]. split.
      * rewrite lookup_insert_ne by done. apply lookup_insert_eq.
      * apply lookup_insert_eq.
  - intros Heq. split.
    + intros a Ha. rewrite Hb2 in Ha.
      eapply lookup_weaken in Ha; [|apply pruned_subseteq].
      rewrite Heq, lookup_insert_eq in Ha. by rewrite <- Ha.
    + intros Hsz. destruct (Hsmall Hsz) as [-> ->]. rewrite Hs1, <- Heq.
      split; [apply insert_insert_eq | apply lookup_insert_eq].
Qed.

(** ** Retention over a run *)

Section Retention.








End Retention.




(** ** CSV export and import *)

Section RoundTrip.

Lemma exportar_para_csv_eq path w d mt :
  store w = Some (mkStore (Some d) mt) ->
  exportar_para_csv path w
  = Ret path
      (set_csv (<[path := csv_header :: map csv_row (sql_select (fun _ => true) d)]>
                  (csv_files w)) w).
Proof.
  intros H. unfold exportar_para_csv, listar_livros.
  rewrite bind_eq, bind_eq, (get_connection_Some _ _ H).
  by rewrite (query_table _ _ _ _ H).
Qed.

Lemma map_fmap_ext {A B} (f g : A -> B) (l : list A) :
  (forall x, x ∈ l -> f x = g x) -> map f l = g <$> l.
Proof.
  induction l as [|x l IH]; intros H; [done|].
  simpl. rewrite (H x) by left. rewrite IH; [done|].
  intros y Hy. apply H. by right.
Qed.

Lemma catalog_committed d w : catalog (committed d w) = livros d.
Proof. done. Qed.

Lemma get_or_first (r : gmap string string) k1 k2 v :
  r !! k1 = Some v -> r !! k2 = None -> get_or r k1 k2 = v.
Proof.
  intros H1 H2. unfold get_or. rewrite H1, H2.
  destruct (truthy v) eqn:E; [done|]. by apply truthy_false in E.
Qed.

Lemma dict_row_export (r : Row) :
  let row := dict_row csv_header (csv_row r) in
  get_or row "titulo" "title" = titulo r.2
  /\ get_or row "autor" "author" = autor r.2
  /\ get_or row "ano_publicacao" "year"
     = match ano_publicacao r.2 with Some a => py_str_int a | None => ""%string end
  /\ get_or row "preco" "price"
     = match preco r.2 with Some p => float_repr p | None => ""%string end.
Proof.
  repeat split; by apply get_or_first.
Qed.

(** Reading back the row written for an exportable record gives the
    record. *)
Lemma import_export_row cy (r : Row) :
  exportable cy r.2 ->
  import_record cy (dict_row csv_header (csv_row r)) = r.2.
Proof.
  intros (Ht & Ha & Hy & Hp). rewrite import_record_fields.
  destruct (dict_row_export r) as (-> & -> & -> & ->).
  rewrite Ht, Ha. destruct r as [id [t a y p]]. simpl in *. f_equal.
  - destruct y as [y|]; [|done].
    specialize (Hy y eq_refl). apply validar_ano_Some.
    split; [apply py_int_str; lia | done].
  - destruct p as [p|]; [|done].
    destruct (Hp p eq_refl) as (Hge & Hrt & Hst).
    by rewrite (proj2 (validar_preco_Some _ _) (conj Hrt Hge)).
Qed.

Lemma dict_reader_export (rows : list Row) :
  dict_reader (csv_header :: map csv_row rows)
  = map (fun r => dict_row csv_header (csv_row r)) rows.
Proof.
  unfold dict_reader.
  assert (filter (fun r : list string => r <> []) (map csv_row rows)
          = map csv_row rows) as ->.
  { induction rows as [|r rows IH]; [done|].
    simpl. by rewrite filter_cons_True, IH. }
  by rewrite map_map.
Qed.

(** The records after [db_import]: the old ones and one per CSV row. *)
Lemma db_import_records cy rows d :
  records (livros (db_import cy rows d))
  ≡ₚ records (livros d) ++ map (import_record cy) rows.
Proof.
  revert d. induction rows as [|r rows IH]; intros d.
  - simpl. by rewrite app_nil_r.
  - rewrite db_import_cons, IH.
    destruct (import_values cy r) as [[[t a] y] p] eqn:Ev. cbn [fst snd].
    destruct (sql_insert_spec t a y p d) as (_ & -> & Hfresh & _).
    unfold records. rewrite map_to_list_insert by done.
    simpl. unfold import_record at 2. rewrite Ev.
    by rewrite <- Permutation_middle.
Qed.

End RoundTrip.

(** C7: export followed by import into an empty catalog gives back the
    records of the catalog, ids aside, as a multiset, and the import
    returns their number.  The catalog is one of the data model: every
    record has its title and author stripped, its year absent or accepted
    by [validar_ano] in the year of the import, its price absent or
    accepted by [validar_preco] and printed readably by [repr]. *)
Theorem export_import_roundtrip path w d mt wt :
  store w = Some (mkStore (Some d) mt) ->
  (forall id b, livros d !! id = Some b -> exportable (year wt) b) ->
  csv_files wt !! path = csv_files (final (exportar_para_csv path w)) !! path ->
  catalog wt = ∅ ->
  (forall mt', store wt <> Some (mkStore None mt')) ->
  exists wt',
    importar_de_csv path wt = Ret (Z.of_nat (size (livros d))) wt'
    /\ records (catalog wt') ≡ₚ records (livros d).
Proof.
  intros Hs Hwf Hfile Hempty Htable.
  rewrite (exportar_para_csv_eq _ _ _ _ Hs) in Hfile. simpl in Hfile.
  rewrite lookup_insert_eq in Hfile.
  destruct (sql_select_all d) as (Hrows & Hlen & _).
  set (rows := sql_select (fun _ => true) d) in *.
  assert (dict_reader (csv_header :: map csv_row rows)
          = map (fun r => dict_row csv_header (csv_row r)) rows) as Hdr
    by apply dict_reader_export.
  assert (rows ≡ₚ map_to_list (livros d)) as Hperm.
  { unfold rows, sql_select. rewrite filter_all by done. apply order_by_id_perm. }
  destruct (decide (rows = [])) as [Er | Er].
  - exists wt. split.
    + rewrite (importar_de_csv_no_rows _ _ _ Hfile) by (by rewrite Hdr, Er).
      rewrite <- Hlen. by rewrite Er.
    + rewrite Hempty. unfold records. rewrite <- Hperm. by rewrite Er.
  - destruct (ensured_cases wt) as [(mt' & H & _) | (dt & mt' & Hdt)].
    { by destruct (Htable mt'). }
    assert (dict_reader (csv_header :: map csv_row rows) <> []) as Hne.
    { rewrite Hdr. intros H. by apply map_eq_nil in H. }
    exists (committed
              (db_import (year wt)
                 (map (fun r => dict_row csv_header (csv_row r)) rows) dt)
              (backed_up wt)).
    split.
    + rewrite (importar_de_csv_eq _ _ _ _ _ Hfile Hne Hdt).
      by rewrite Hdr, length_map, Hlen.
    + assert (livros dt = ∅) as Hdt0.
      { rewrite <- Hempty, <- ensured_catalog. unfold catalog. by rewrite Hdt. }
      rewrite catalog_committed, db_import_records, Hdt0.
      unfold records at 1. rewrite map_to_list_empty, fmap_nil, app_nil_l.
      rewrite map_map. unfold records. rewrite <- Hperm.
      rewrite (map_fmap_ext
                 (fun x => import_record (year wt) (dict_row csv_header (csv_row x)))
                 snd rows); [done|].
      intros r Hr. apply import_export_row.
      destruct r as [id b]. apply (Hwf id). by apply Hrows.
Qed.

Lemma export_import_roundtrip_witness :
  let doc := csv_header :: map csv_row (sql_select (fun _ => true) sample_db) in
  exists wt',
    importar_de_csv "livros.csv" (target_world doc)
    = Ret (Z.of_nat (size (livros sample_db))) wt'
    /\ records (catalog wt') ≡ₚ records (livros sample_db).
Proof.
  intros doc.
  apply (export_import_roundtrip "livros.csv" sample_world sample_db
           1690000000000000 (target_world doc)).
  - reflexivity.
  - intros id b Hb. apply elem_of_map_to_list in Hb.
    assert (forall b, (b = mkLivro "Iracema" "Jose de Alencar" None None
                       \/ b = mkLivro "Dom Casmurro" "Machado de Assis" (Some 1899)
                                (Some (S754_finite false 7177611906121728 (-48)))) ->
                      exportable 2023 b) as Hex.
    { intros b0 [-> | ->]; (split; [by vm_compute|]); (split; [by vm_compute|]);
        split; intros x Hx; simpl in Hx; try discriminate;
        injection Hx as <-; [lia | repeat split; by vm_compute]. }
    apply Hex. vm_compute in Hb. clear Hex.
    apply elem_of_cons in Hb as [[= _ ->] | Hb]; [tauto|].
    apply elem_of_cons in Hb as [[= _ ->] | Hb]; [tauto|].
    by apply not_elem_of_nil in Hb.
  - by vm_compute.
  - reflexivity.
  - done.
Defined.

(** C7, as stated, fails on a catalog [adicionar_livro] can build: it
    stores the year 50 as handed over, the export prints "50", and the
    import, which validates, stores no year. *)
Lemma roundtrip_drops_unvalidated_year :
  let w := final (adicionar_livro "T" "A" (Some 50) None fresh_world) in
  let doc := default [] (csv_files (final (exportar_para_csv "livros.csv" w))
                           !! "livros.csv"%string) in
  records (catalog w) = [mkLivro "T" "A" (Some 50) None]
  /\ doc = [csv_header; ["T"; "A"; "50"; ""]%string]
  /\ exists wt',
       importar_de_csv "livros.csv" (target_world doc) = Ret 1 wt'
       /\ records (catalog wt') = [mkLivro "T" "A" None None].
Proof. split; [by vm_compute|]. split; [by vm_compute|]. eexists. by vm_compute. Qed.

(** ** The store invariant *)

Section Invariant.

(** A call leaves the database as it was or applies its statement to
    it; the year is not its to change. *)
Lemma run_op_final o w :
  let w' := final (run_op o w) in
  year w' = year w
  /\ (db_of w' = db_of w \/ db_of w' = op_db w o (db_of w)).
Proof.
  destruct o as [t a y p | id p | id | | path]; cbn [run_op op_db].
  - rewrite (final_bind_ret _ (fun _ => true)).
    destruct (ensured_cases w) as [(mt & H & _) | (d & mt & H)].
    + rewrite (adicionar_livro_no_table _ _ _ _ _ _ H). simpl.
      split; [apply backed_up_year | left; apply db_of_backed_up].
    + rewrite (adicionar_livro_eq _ _ _ _ _ _ _ H). simpl.
      split; [apply backed_up_year|]. right.
      by rewrite (db_of_ensured _ _ _ H).
  - destruct (store_cases w) as [H | [(mt & H) | (d & mt & H)]].
    + unfold atualizar_preco_livro. rewrite connect_query, H. simpl.
      split; [done|]. left. unfold db_of. by rewrite H.
    + unfold atualizar_preco_livro. rewrite connect_query, H. simpl. auto.
    + destruct (livros d !! id) as [b|] eqn:Hb.
      * rewrite (atualizar_preco_livro_eq _ _ _ _ _ _ H Hb). simpl.
        destruct (decide _) as [E | E].
        -- split; [apply backed_up_year | left; apply db_of_backed_up].
        -- split; [apply backed_up_year|]. right. unfold db_of. by rewrite H.
      * destruct (not_found_eq _ _ _ _ H Hb p) as [-> _]. simpl. auto.
  - destruct (store_cases w) as [H | [(mt & H) | (d & mt & H)]].
    + unfold remover_livro. rewrite connect_query, H. simpl.
      split; [done|]. left. unfold db_of. by rewrite H.
    + unfold remover_livro. rewrite connect_query, H. simpl. auto.
    + destruct (livros d !! id) as [b|] eqn:Hb.
      * rewrite (remover_livro_eq _ _ _ _ _ H Hb). simpl.
        split; [apply backed_up_year|]. right. unfold db_of. by rewrite H.
      * destruct (not_found_eq _ _ _ _ H Hb (S754_zero false)) as [_ ->].
        simpl. auto.
  - destruct (store_cases w) as [H | [(mt & H) | (d & mt & H)]].
    + unfold remover_todos_livros. rewrite connect_query, H. simpl.
      split; [done|]. left. unfold db_of. by rewrite H.
    + unfold remover_todos_livros. rewrite connect_query, H. simpl. auto.
    + destruct (decide (livros d = ∅)) as [Hb | Hb].
      * rewrite (remover_todos_livros_empty _ _ _ H Hb). simpl. auto.
      * rewrite (remover_todos_livros_eq _ _ _ H Hb). simpl.
        split; [apply backed_up_year|]. right. unfold db_of. by rewrite H.
  - rewrite (final_bind_ret _ (fun n => 0 <? n)).
    destruct (csv_files w !! path) as [doc|] eqn:Hp.
    2: { rewrite (importar_de_csv_missing _ _ Hp). simpl. auto. }
    destruct (decide (dict_reader doc = [])) as [He | Hne].
    { rewrite (importar_de_csv_no_rows _ _ _ Hp He). simpl. auto. }
    destruct (ensured_cases w) as [(mt & H & _) | (d & mt & H)].
    + rewrite (importar_de_csv_no_table _ _ _ _ Hp Hne H). simpl.
      split; [apply backed_up_year | left; apply db_of_backed_up].
    + rewrite (importar_de_csv_eq _ _ _ _ _ Hp Hne H). simpl.
      split; [apply backed_up_year|]. right.
      by rewrite (db_of_ensured _ _ _ H).
Qed.

(** What holds of the database before [db_import] and is kept by every
    INSERT holds after it. *)
Lemma db_import_ind (P : DB -> Prop) cy rows d :
  P d ->
  (forall d r t a y p,
     import_values cy r = (t, a, y, p) -> P d -> P (sql_insert t a y p d).2) ->
  P (db_import cy rows d).
Proof.
  intros Hd Hstep. revert d Hd. induction rows as [|r rows IH]; intros d Hd.
  - done.
  - rewrite db_import_cons. apply IH.
    destruct (import_values cy r) as [[[t a] y] p] eqn:Ev. by apply (Hstep d r).
Qed.

Lemma sql_real_range (p : option PyFloat) :
  (forall p', p = Some p' -> float_ge0 p' = true) ->
  forall p', sql_real p = Some p' -> float_ge0 p' = true.
Proof.
  intros H p'. destruct p as [[s|s| |s m e]|]; simpl; try done;
    intros [= <-]; try done; by apply H.
Qed.

Lemma import_record_range cy r : range_ok cy (import_record cy r).
Proof.
  rewrite import_record_fields. split; simpl.
  - intros y Hy. by apply validar_ano_Some in Hy as [_ ?].
  - apply sql_real_range. intros p Hp. by apply validar_preco_Some in Hp as [_ ?].
Qed.

(** The ranges are kept by every call whose arguments are validated, the
    CSV import included. *)
Lemma op_db_range w o d :
  validated (year w) o ->
  (forall id b, livros d !! id = Some b -> range_ok (year w) b) ->
  forall id b, livros (op_db w o d) !! id = Some b -> range_ok (year w) b.
Proof.
  intros Hv Hd. destruct o as [t a y p | id0 p | id0 | | path]; simpl.
  - destruct Hv as (_ & _ & Hy & Hp). intros id b.
    rewrite lookup_insert. case_decide; [|by apply Hd].
    intros [= <-]. split; simpl; [done | by apply sql_real_range].
  - unfold sql_update_preco. destruct (livros d !! id0) as [b0|] eqn:E; simpl;
      [|by apply Hd].
    intros id b. rewrite lookup_insert. case_decide; [|by apply Hd].
    intros [= <-]. split; simpl.
    + by apply (Hd id0 b0).
    + apply (sql_real_range (Some p)). by intros ? [= <-].
  - unfold sql_delete. destruct (livros d !! id0) as [b0|] eqn:E; simpl;
      [|by apply Hd].
    intros id b Hb. apply lookup_delete_Some in Hb as [_ Hb]. by apply (Hd id).
  - intros id b. by rewrite lookup_empty.
  - destruct (csv_files w !! path) as [doc|]; [|by apply Hd].
    apply (db_import_ind
             (fun d => forall id b, livros d !! id = Some b -> range_ok (year w) b));
      [done|].
    intros d1 r t a y p Ev Hd1 id b.
    destruct (sql_insert_spec t a y p d1) as (_ & -> & _).
    rewrite lookup_insert. case_decide; [|by apply Hd1].
    intros [= <-]. pose proof (import_record_range (year w) r) as Hr.
    unfold import_record in Hr. by rewrite Ev in Hr.
Qed.

(** Title and author stay non-empty through every call but the import. *)
Lemma op_db_named w o d :
  is_import o = false ->
  validated (year w) o ->
  (forall id b, livros d !! id = Some b -> named b) ->
  forall id b, livros (op_db w o d) !! id = Some b -> named b.
Proof.
  intros Hi Hv Hd. destruct o as [t a y p | id0 p | id0 | | path]; simpl; [| | | |done].
  - destruct Hv as (Ht & Ha & _). intros id b.
    rewrite lookup_insert. case_decide; [|by apply Hd].
    by intros [= <-].
  - unfold sql_update_preco. destruct (livros d !! id0) as [b0|] eqn:E; simpl;
      [|by apply Hd].
    intros id b. rewrite lookup_insert. case_decide; [|by apply Hd].
    intros [= <-]. by apply (Hd id0 b0).
  - unfold sql_delete. destruct (livros d !! id0) as [b0|] eqn:E; simpl;
      [|by apply Hd].
    intros id b Hb. apply lookup_delete_Some in Hb as [_ Hb]. by apply (Hd id).
  - intros id b. by rewrite lookup_empty.
Qed.

(** A record that stays keeps its title, author and year, and its price
    too unless the call is a price update of that very record. *)
Lemma op_db_fixed w o d id b b' :
  livros d !! id = Some b ->
  livros (op_db w o d) !! id = Some b' ->
  titulo b' = titulo b /\ autor b' = autor b
  /\ ano_publicacao b' = ano_publicacao b
  /\ (preco b' = preco b \/ exists p, o = OpAtualizarPreco id p).
Proof.
  intros Hb. destruct o as [t a y p | id0 p | id0 | | path]; simpl.
  - rewrite lookup_insert_ne.
    + rewrite Hb. intros [= <-]. auto.
    + intros E. apply last_id_bound in Hb. unfold last_id in Hb. lia.
  - unfold sql_update_preco. destruct (livros d !! id0) as [b0|] eqn:E; simpl.
    + rewrite lookup_insert. case_decide as Hid.
      * subst id0. rewrite Hb in E. injection E as <-.
        intros [= <-]. simpl. eauto 6.
      * rewrite Hb. intros [= <-]. auto.
    + rewrite Hb. intros [= <-]. auto.
  - unfold sql_delete. destruct (livros d !! id0) as [b0|] eqn:E; simpl.
    + intros H. apply lookup_delete_Some in H as [_ H].
      rewrite Hb in H. injection H as <-. auto.
    + rewrite Hb. intros [= <-]. auto.
  - by rewrite lookup_empty.
  - destruct (csv_files w !! path) as [doc|]; [|rewrite Hb; intros [= <-]; auto].
    intros H.
    assert (livros (db_import (year w) (dict_reader doc) d) !! id = Some b) as H'.
    { apply (db_import_ind (fun d1 => livros d1 !! id = Some b)); [done|].
      intros d1 r t a y p _ Hd1.
      destruct (sql_insert_spec t a y p d1) as (_ & -> & _).
      rewrite lookup_insert_ne; [done|].
      intros E. apply last_id_bound in Hd1. lia. }
    rewrite H' in H. injection H as <-. auto.
Qed.

(** Ids are given once: a record that appears has an id above the counter
    as it was and at most the counter as it is, and the counter never
    goes down. *)
Lemma op_db_new w o d :
  seq d <= seq (op_db w o d)
  /\ forall id b', livros d !! id = None ->
       livros (op_db w o d) !! id = Some b' ->
       seq d < id <= seq (op_db w o d).
Proof.
  destruct o as [t a y p | id0 p | id0 | | path]; simpl.
  - split; [lia|]. intros id b' Hn. rewrite lookup_insert. case_decide.
    + intros _. subst. lia.
    + by rewrite Hn.
  - unfold sql_update_preco. destruct (livros d !! id0) as [b0|] eqn:E; simpl.
    + split; [lia|]. intros id b' Hn. rewrite lookup_insert. case_decide.
      * subst. congruence.
      * by rewrite Hn.
    + split; [lia|]. intros id b' Hn. by rewrite Hn.
  - unfold sql_delete. destruct (livros d !! id0) as [b0|] eqn:E; simpl.
    + split; [lia|]. intros id b' Hn H.
      apply lookup_delete_Some in H as [_ H]. congruence.
    + split; [lia|]. intros id b' Hn. by rewrite Hn.
  - split; [lia|]. intros id b' _. by rewrite lookup_empty.
  - destruct (csv_files w !! path) as [doc|].
    2: { split; [lia|]. intros id b' Hn. by rewrite Hn. }
    apply (db_import_ind
             (fun d1 => seq d <= seq d1
                        /\ forall id b', livros d !! id = None ->
                             livros d1 !! id = Some b' -> seq d < id <= seq d1)).
    + split; [lia|]. intros id b' Hn. by rewrite Hn.
    + intros d1 r t a y p _ [Hle Hd1]. simpl. split; [lia|].
      intros id b' Hn. rewrite lookup_insert. case_decide.
      * intros _. subst. lia.
      * intros H1. specialize (Hd1 id b' Hn H1). lia.
Qed.

End Invariant.

(** C8, as stated, fails: [atualizar_preco_livro] stores the price it is
    handed, here -1.0, and [adicionar_livro] the year it is handed, here
    50; neither validates. *)
Lemma unvalidated_arguments_are_stored :
  store_invariant sample_world
  /\ (exists w',
        atualizar_preco_livro 1 minus_one sample_world = Ret true w'
        /\ (catalog w' !! 1) ≫= preco = Some minus_one
        /\ float_ge0 minus_one = false
        /\ ~ store_invariant w')
  /\ (exists id w',
        adicionar_livro "T" "A" (Some 50) None sample_world = Ret id w'
        /\ (catalog w' !! id) ≫= ano_publicacao = Some 50
        /\ ~ store_invariant w').
Proof.
  split; [|split].
  - intros id b Hb. apply elem_of_map_to_list in Hb. vm_compute in Hb.
    assert (forall b, (b = mkLivro "Iracema" "Jose de Alencar" None None
                       \/ b = mkLivro "Dom Casmurro" "Machado de Assis" (Some 1899)
                                (Some (S754_finite false 7177611906121728 (-48)))) ->
                      valid_record 2023 b) as Hex.
    { intros b0 [-> | ->]; (split; [by split|]);
        split; intros x Hx; simpl in Hx; try discriminate;
        injection Hx as <-; [lia | by vm_compute]. }
    apply Hex.
    apply elem_of_cons in Hb as [[= _ ->] | Hb]; [tauto|].
    apply elem_of_cons in Hb as [[= _ ->] | Hb]; [tauto|].
    by apply not_elem_of_nil in Hb.
  - eexists. split; [reflexivity|]. split; [by vm_compute|]. split; [by vm_compute|].
    intros Hinv.
    destruct (Hinv 1 (mkLivro "Iracema" "Jose de Alencar" None (Some minus_one)))
      as [_ [_ Hp]]; [by vm_compute|].
    specialize (Hp minus_one eq_refl). by vm_compute in Hp.
  - eexists _, _. split; [reflexivity|]. split; [by vm_compute|].
    intros Hinv.
    destruct (Hinv 3 (mkLivro "T" "A" (Some 50) None)) as [_ [Hy _]]; [by vm_compute|].
    specialize (Hy 50 eq_refl). simpl in Hy. lia.
Qed.

(** C8, amended: the storing functions write what they are handed
    (validation is the caller's, with [validar_ano] and [validar_preco]).
    With validated arguments every call keeps year and price absent or in
    range, the CSV import included, whose rows it validates itself; every
    call but the import keeps title and author non-empty.  A record that
    stays keeps its title, author and year, and its price unless the call
    updates the price of that record; a record that appears has an id
    above every id given out before, and the counter of ids never goes
    down. *)
Theorem store_invariant_preserved o w :
  validated (year w) o ->
  let w' := final (run_op o w) in
  year w' = year w
  /\ ((forall id b, catalog w !! id = Some b -> range_ok (year w) b) ->
      forall id b, catalog w' !! id = Some b -> range_ok (year w') b)
  /\ (is_import o = false ->
      (forall id b, catalog w !! id = Some b -> named b) ->
      forall id b, catalog w' !! id = Some b -> named b)
  /\ (is_import o = false -> store_invariant w -> store_invariant w')
  /\ (forall id b b',
        catalog w !! id = Some b -> catalog w' !! id = Some b' ->
        titulo b' = titulo b /\ autor b' = autor b
        /\ ano_publicacao b' = ano_publicacao b
        /\ (preco b' = preco b \/ exists p, o = OpAtualizarPreco id p))
  /\ seq (db_of w) <= seq (db_of w')
  /\ (forall id b',
        catalog w !! id = None -> catalog w' !! id = Some b' ->
        seq (db_of w) < id <= seq (db_of w')).
Proof.
  intros Hv w'. destruct (run_op_final o w) as [Hy Hdb]. fold w' in Hy, Hdb.
  rewrite <- !db_of_catalog.
  assert (Hrange : (forall id b, livros (db_of w) !! id = Some b -> range_ok (year w) b) ->
                   forall id b, livros (db_of w') !! id = Some b -> range_ok (year w') b).
  { rewrite Hy. destruct Hdb as [-> | ->]; [done|]. by apply op_db_range. }
  assert (Hnamed : is_import o = false ->
                   (forall id b, livros (db_of w) !! id = Some b -> named b) ->
                   forall id b, livros (db_of w') !! id = Some b -> named b).
  { intros Hi. destruct Hdb as [-> | ->]; [done|]. by apply op_db_named. }
  split; [done|]. split; [done|]. split; [done|].
  split; [|split; [|split]].
  - intros Hi Hinv id b Hb. rewrite <- db_of_catalog in Hb.
    assert (forall id b, livros (db_of w) !! id = Some b -> valid_record (year w) b)
      as Hinv'.
    { intros id0 b0 H0. apply (Hinv id0). by rewrite <- db_of_catalog. }
    split.
    + apply (Hnamed Hi (fun id0 b0 H0 => proj1 (Hinv' id0 b0 H0)) id b Hb).
    + apply (Hrange (fun id0 b0 H0 => proj2 (Hinv' id0 b0 H0)) id b Hb).
  - intros id b b' Hb. destruct Hdb as [-> | ->].
    + rewrite Hb. intros [= <-]. auto.
    + by apply op_db_fixed.
  - destruct Hdb as [-> | ->]; [lia|]. apply op_db_new.
  - intros id b' Hn. destruct Hdb as [-> | ->].
    + by rewrite Hn.
    + by apply op_db_new.
Qed.

Lemma store_invariant_preserved_witness :
  let o := OpAtualizarPreco 1 (S754_zero false) in
  let w' := final (run_op o sample_world) in
  year w' = year sample_world
  /\ ((forall id b, catalog sample_world !! id = Some b ->
                    range_ok (year sample_world) b) ->
      forall id b, catalog w' !! id = Some b -> range_ok (year w') b)
  /\ (is_import o = false ->
      (forall id b, catalog sample_world !! id = Some b -> named b) ->
      forall id b, catalog w' !! id = Some b -> named b)
  /\ (is_import o = false -> store_invariant sample_world -> store_invariant w')
  /\ (forall id b b',
        catalog sample_world !! id = Some b -> catalog w' !! id = Some b' ->
        titulo b' = titulo b /\ autor b' = autor b
        /\ ano_publicacao b' = ano_publicacao b
        /\ (preco b' = preco b \/ exists p, o = OpAtualizarPreco id p))
  /\ seq (db_of sample_world) <= seq (db_of w')
  /\ (forall id b',
        catalog sample_world !! id = None -> catalog w' !! id = Some b' ->
        seq (db_of sample_world) < id <= seq (db_of w')).
Proof.
  apply (store_invariant_preserved (OpAtualizarPreco 1 (S754_zero false)) sample_world).
  by vm_compute.
Defined.

(** * Further properties of the storage functions *)

Section InitFacts.

Lemma init_db_eq w :
  init_db w
  = Ret tt match store w with
           | Some (mkStore (Some _) _) => w
           | _ => set_store (Some (mkStore (Some empty_db) (clock w))) w
           end.
Proof. by destruct w as [c y [[[d|] mt]|] b lk cs]. Qed.

End InitFacts.

(** X1: [init_db] never raises and leaves a store file with its table.
    It is idempotent: on a store that has its table it changes nothing, so
    a second call leaves the world of the first.  It keeps the catalog,
    the archives, the CSV files and the clock, and the table it creates is
    empty. *)
Theorem init_db_idempotent w :
  exists w',
    init_db w = Ret tt w'
    /\ has_table w'
    /\ init_db w' = Ret tt w'
    /\ (has_table w -> w' = w)
    /\ (~ has_table w -> store w' = Some (mkStore (Some empty_db) (clock w)))
    /\ catalog w' = catalog w
    /\ backups w' = backups w
    /\ csv_files w' = csv_files w
    /\ clock w' = clock w.
Proof.
  eexists. split; [apply init_db_eq|].
  destruct w as [c y [[[d|] mt]|] b lk cs]; cbn.
  - repeat split; eauto; try done. by exists d, mt.
    intros H; exfalso; apply H. by exists d, mt.
  - repeat split; eauto; try done. by eexists _, _.
    intros (d & mt' & H); discriminate.
  - repeat split; eauto; try done. by eexists _, _.
    intros (d & mt' & H); discriminate.
Qed.

Section NoTable.

Lemma no_table_cases w :
  ~ has_table w -> store w = None \/ exists mt, store w = Some (mkStore None mt).
Proof.
  intros H. destruct (store_cases w) as [?|[?|(d & mt & E)]]; auto.
  exfalso. apply H. by exists d, mt.
Qed.

End NoTable.

(** X2: on a store file that exists without the table [livros], every
    function that starts by reading raises [OperationalError] and changes
    nothing.  [adicionar_livro], and [importar_de_csv] of a file with data
    rows, raise it too, after their backup has been taken: the store file
    is as it was, still without the table, and the archive of the current
    second is a copy of it.  [init_db] repairs the file: after it the
    listing is empty.  With the store file removed instead,
    [adicionar_livro] succeeds and returns the id 1, since [backup_db]
    calls [init_db] when the file is missing. *)
Theorem no_table_raises w mt :
  store w = Some (mkStore None mt) ->
  listar_livros w = Raise OperationalError w
  /\ (forall q, buscar_por_autor q w = Raise OperationalError w)
  /\ (forall id p, atualizar_preco_livro id p w = Raise OperationalError w)
  /\ (forall id, remover_livro id w = Raise OperationalError w)
  /\ remover_todos_livros w = Raise OperationalError w
  /\ (forall path, exportar_para_csv path w = Raise OperationalError w)
  /\ (forall t a y p,
        adicionar_livro t a y p w = Raise OperationalError (backed_up w))
  /\ (forall path doc,
        csv_files w !! path = Some doc -> dict_reader doc <> [] ->
        importar_de_csv path w = Raise OperationalError (backed_up w))
  /\ store (backed_up w) = store w
  /\ backups (backed_up w)
     = pruned (locked w) (<[second_of (clock w) := mkStore None mt]> (backups w))
  /\ (exists w',
        init_db w = Ret tt w'
        /\ store w' = Some (mkStore (Some empty_db) (clock w))
        /\ listar_livros w' = Ret [] w')
  /\ (forall t a y p,
        exists w1,
          adicionar_livro t a y p (set_store None w) = Ret 1 w1
          /\ catalog w1 = {[ 1 := mkLivro (strip t) (strip a) y (sql_real p) ]}).
Proof.
  intros E.
  assert (Hq : forall A (q : DB -> A),
             (get_connection;; query q) w = Raise OperationalError w).
  { intros A q. rewrite bind_eq, (get_connection_Some _ _ E).
    by erewrite query_no_table. }
  assert (Hk : forall A B (q : DB -> A) (k : A -> M B),
             (get_connection;; x ← query q; k x) w = Raise OperationalError w).
  { intros A B q k. by rewrite connect_query, E. }
  split; [apply Hq|].
  split; [intros q; apply Hq|].
  split; [intros id p; apply (Hk _ _ (sql_select_id id))|].
  split; [intros id; apply (Hk _ _ (sql_select_id id))|].
  split; [apply (Hk _ _ sql_count)|].
  split.
  { intros path. unfold exportar_para_csv. rewrite bind_eq.
    unfold listar_livros. by rewrite Hq. }
  split; [intros t a y p; by eapply adicionar_livro_no_table|].
  split; [intros path doc Hp Hne; by eapply importar_de_csv_no_table|].
  split; [by rewrite backed_up_store, (ensured_Some _ _ E)|].
  split.
  { rewrite (backed_up_backups w (mkStore None mt));
      by rewrite (ensured_Some _ _ E). }
  split.
  - eexists. split; [apply init_db_eq|]. rewrite E.
    split; [done|]. unfold listar_livros.
    rewrite bind_eq. erewrite get_connection_Some by reflexivity.
    erewrite query_table by reflexivity. done.
  - intros t a y p.
    erewrite adicionar_livro_eq; last reflexivity.
    eexists. split; [reflexivity|].
    rewrite catalog_committed. cbn.
    unfold max_rowid. rewrite map_fold_empty. cbn.
    by rewrite insert_empty.
Qed.

Lemma no_table_raises_witness :
  let w := tableless_world in
  listar_livros w = Raise OperationalError w
  /\ (forall q, buscar_por_autor q w = Raise OperationalError w)
  /\ (forall id p, atualizar_preco_livro id p w = Raise OperationalError w)
  /\ (forall id, remover_livro id w = Raise OperationalError w)
  /\ remover_todos_livros w = Raise OperationalError w
  /\ (forall path, exportar_para_csv path w = Raise OperationalError w)
  /\ (forall t a y p,
        adicionar_livro t a y p w = Raise OperationalError (backed_up w))
  /\ (forall path doc,
        csv_files w !! path = Some doc -> dict_reader doc <> [] ->
        importar_de_csv path w = Raise OperationalError (backed_up w))
  /\ store (backed_up w) = store w
  /\ backups (backed_up w)
     = pruned (locked w)
         (<[second_of (clock w) := mkStore None 1690000000000000]> (backups w))
  /\ (exists w',
        init_db w = Ret tt w'
        /\ store w' = Some (mkStore (Some empty_db) (clock w))
        /\ listar_livros w' = Ret [] w')
  /\ (forall t a y p,
        exists w1,
          adicionar_livro t a y p (set_store None w) = Ret 1 w1
          /\ catalog w1 = {[ 1 := mkLivro (strip t) (strip a) y (sql_real p) ]}).
Proof.
  apply (no_table_raises tableless_world 1690000000000000). reflexivity.
Defined.

Section SelectFacts.

#[local] Instance id_lt_antisymm : AntiSymm (=) id_lt.
Proof. intros x y. unfold id_lt. lia. Qed.

Lemma sql_select_perm cond d :
  sql_select cond d
  ≡ₚ filter (fun r : Row => cond r.2 = true) (map_to_list (livros d)).
Proof. apply order_by_id_perm. Qed.

Lemma sql_select_sorted cond d : StronglySorted id_lt (sql_select cond d).
Proof.
  apply sorted_strict; [|apply order_by_id_sorted].
  rewrite sql_select_perm.
  apply (sublist_NoDup _ ((map_to_list (livros d)).*1)).
  - apply NoDup_fst_map_to_list.
  - apply (fmap_sublist fst), sublist_filter.
Qed.

Lemma sorted_id_NoDup (l : list Row) : StronglySorted id_lt l -> NoDup l.
Proof.
  induction 1 as [|r l Hl IH Hall]; constructor; [|done].
  intros Hin. rewrite Forall_forall in Hall. apply Hall in Hin.
  unfold id_lt in Hin. lia.
Qed.

Lemma sql_select_lookup cond d id b :
  (id, b) ∈ sql_select cond d <-> livros d !! id = Some b /\ cond b = true.
Proof.
  rewrite sql_select_perm, list_elem_of_filter, elem_of_map_to_list. cbn. tauto.
Qed.

Lemma filter_id_sorted (P : Row -> Prop) `{forall x, Decision (P x)} l :
  StronglySorted id_lt l -> StronglySorted id_lt (filter P l).
Proof.
  induction 1 as [|r l Hl IH Hall]; [constructor|].
  rewrite filter_cons. destruct (decide (P r)); [|done].
  constructor; [done|].
  apply Forall_forall. intros x Hx. apply list_elem_of_filter in Hx as [_ Hx].
  rewrite Forall_forall in Hall. auto.
Qed.

(** A condition selects from the full listing, keeping its order. *)
Lemma sql_select_filter cond d :
  sql_select cond d
  = filter (fun r : Row => cond r.2 = true) (sql_select (fun _ => true) d).
Proof.
  apply (@StronglySorted_unique _ id_lt id_lt_antisymm).
  - apply sql_select_sorted.
  - apply filter_id_sorted, sql_select_sorted.
  - rewrite !sql_select_perm. rewrite (filter_all (fun r : Row => true = true)) by done.
    done.
Qed.

(** A row inserted under an id above all others comes last. *)
Lemma sql_select_insert_last d d' id b :
  livros d' = <[id := b]> (livros d) ->
  (forall k x, livros d !! k = Some x -> k < id) ->
  sql_select (fun _ => true) d' = sql_select (fun _ => true) d ++ [(id, b)].
Proof.
  intros E Hlt.
  assert (Hnone : livros d !! id = None).
  { destruct (livros d !! id) eqn:E'; [|done]. apply Hlt in E'. lia. }
  apply (@StronglySorted_unique _ id_lt id_lt_antisymm).
  - apply sql_select_sorted.
  - apply StronglySorted_app_2; [|apply sql_select_sorted|repeat constructor].
    intros [k x] y Hk Hy. apply list_elem_of_singleton in Hy as ->.
    apply sql_select_lookup in Hk as [Hk _]. unfold id_lt. cbn. eauto.
  - rewrite !sql_select_perm, !(filter_all (fun r : Row => true = true)) by done.
    rewrite E, map_to_list_insert by done.
    by rewrite Permutation_cons_append.
Qed.

(** A row deleted leaves the listing without it. *)
Lemma sql_select_delete d d' id :
  livros d' = delete id (livros d) ->
  sql_select (fun _ => true) d'
  = filter (fun r : Row => r.1 <> id) (sql_select (fun _ => true) d).
Proof.
  intros E.
  apply (@StronglySorted_unique _ id_lt id_lt_antisymm).
  - apply sql_select_sorted.
  - apply filter_id_sorted, sql_select_sorted.
  - apply NoDup_Permutation.
    + apply sorted_id_NoDup, sql_select_sorted.
    + apply NoDup_filter, sorted_id_NoDup, sql_select_sorted.
    + intros [k x]. rewrite list_elem_of_filter, !sql_select_lookup, E. cbn.
      rewrite lookup_delete_Some.
      split; [intros ((Hn & Hl) & _)|intros (Hn & Hl & _)]; repeat split; auto.
Qed.

End SelectFacts.

Section ListingFacts.

Lemma listar_livros_eq w d mt :
  store w = Some (mkStore (Some d) mt) ->
  listar_livros w = Ret (sql_select (fun _ => true) d) w.
Proof.
  intros E. unfold listar_livros.
  rewrite bind_eq, (get_connection_Some _ _ E). by erewrite query_table.
Qed.

Lemma store_committed d w :
  store (committed d w) = Some (mkStore (Some d) (clock w)).
Proof. done. Qed.

Lemma backups_committed d w : backups (committed d w) = backups w.
Proof. done. Qed.

(** A row rewritten in place keeps its position in the listing. *)
Lemma sql_select_update d d' id b b' :
  livros d' = <[id := b']> (livros d) ->
  livros d !! id = Some b ->
  sql_select (fun _ => true) d'
  = map (fun r : Row => if decide (r.1 = id) then (id, b') else r)
      (sql_select (fun _ => true) d).
Proof.
  intros E Hb.
  set (f := fun r : Row => if decide (r.1 = id) then (id, b') else r).
  assert (Hf : forall r, (f r).1 = r.1).
  { intros r. unfold f. by destruct (decide (r.1 = id)) as [->|]. }
  assert (Hs : StronglySorted id_lt (map f (sql_select (fun _ => true) d))).
  { generalize (sql_select_sorted (fun _ => true) d).
    induction 1 as [|r l Hl IH Hall]; cbn; constructor; [done|].
    apply Forall_forall. intros x Hx.
    apply list_elem_of_fmap in Hx as (x0 & -> & Hx0).
    rewrite Forall_forall in Hall. apply Hall in Hx0.
    unfold id_lt in *. by rewrite !Hf. }
  apply (@StronglySorted_unique _ id_lt id_lt_antisymm);
    [apply sql_select_sorted|done|].
  apply NoDup_Permutation;
    [apply sorted_id_NoDup, sql_select_sorted|by apply sorted_id_NoDup|].
  intros [k x]. rewrite sql_select_lookup, E.
  change (map f ?l) with (f <$> l). rewrite list_elem_of_fmap.
  split.
  - intros [Hk _]. apply lookup_insert_Some in Hk as [[-> ->]|[Hne Hk]].
    + exists (k, b). split; [unfold f; cbn; by rewrite decide_True|].
      by apply sql_select_lookup.
    + exists (k, x). split; [unfold f; cbn; by rewrite decide_False|].
      by apply sql_select_lookup.
  - intros ([k0 x0] & Hfx & Hin). apply sql_select_lookup in Hin as [Hin _].
    split; [|done]. unfold f in Hfx. cbn in Hfx.
    destruct (decide (k0 = id)) as [->|Hne]; inversion Hfx; subst.
    + by rewrite lookup_insert_eq.
    + by rewrite lookup_insert_ne.
Qed.

End ListingFacts.

(** X3: on a store with its table, [adicionar_livro] returns a positive
    id greater than every id of the catalog, and [listar_livros] then
    returns the rows it returned before followed by one more row: that id
    with the title and the author stripped, the year as handed over and the
    price as SQLite stores it. *)
Theorem adicionar_livro_then_listar t a y p w d mt :
  store w = Some (mkStore (Some d) mt) ->
  exists id w' rows,
    listar_livros w = Ret rows w
    /\ adicionar_livro t a y p w = Ret id w'
    /\ listar_livros w'
       = Ret (rows ++ [(id, mkLivro (strip t) (strip a) y (sql_real p))]) w'
    /\ (forall r, r ∈ rows -> r.1 < id)
    /\ 0 < id.
Proof.
  intros E.
  destruct (sql_insert_spec (strip t) (strip a) y p d) as (H1 & H2 & H3 & H4).
  assert (Hlt : forall k x, livros d !! k = Some x -> k < last_id d + 1).
  { intros k x Hk. apply last_id_bound in Hk. lia. }
  eexists _, _, _. split; [by apply (listar_livros_eq _ _ _ E)|].
  split; [apply (adicionar_livro_eq _ _ _ _ _ d mt); by rewrite (ensured_Some _ _ E)|].
  rewrite H1. cbn [fst snd].
  split; [|split].
  - erewrite listar_livros_eq by apply store_committed.
    by rewrite (sql_select_insert_last d _ _ _ H2 Hlt).
  - intros [k x] Hr. apply sql_select_lookup in Hr as [Hr _]. cbn. eauto.
  - pose proof (last_id_nonneg d). lia.
Qed.

Lemma adicionar_livro_then_listar_witness :
  exists id w' rows,
    listar_livros sample_world = Ret rows sample_world
    /\ adicionar_livro " O Cortico " "Aluisio Azevedo" (Some 1890) None sample_world
       = Ret id w'
    /\ listar_livros w'
       = Ret (rows ++ [(id, mkLivro (strip " O Cortico ") (strip "Aluisio Azevedo")
                              (Some 1890) (sql_real None))]) w'
    /\ (forall r, r ∈ rows -> r.1 < id)
    /\ 0 < id.
Proof.
  apply (adicionar_livro_then_listar _ _ _ _ sample_world sample_db
           1690000000000000).
  reflexivity.
Defined.

(** X4: on an id the catalog holds, [atualizar_preco_livro] returns
    [True] after one [backup_db]; the record keeps its id, title, author
    and year and gets the price as SQLite stores it, every other record
    stays as it was, and the listing shows the new price in the same
    place. *)
Theorem atualizar_preco_livro_found id p w d mt b :
  store w = Some (mkStore (Some d) mt) ->
  livros d !! id = Some b ->
  exists w',
    atualizar_preco_livro id p w = Ret true w'
    /\ catalog w' = <[id := with_preco p b]> (livros d)
    /\ backups w' = backups (backed_up w)
    /\ exists rows,
         listar_livros w = Ret rows w
         /\ listar_livros w'
            = Ret (map (fun r : Row =>
                          if decide (r.1 = id) then (id, with_preco p b) else r)
                     rows) w'.
Proof.
  intros E Hb.
  assert (Hd' : livros (sql_update_preco p id d).2
                = <[id := with_preco p b]> (livros d)).
  { unfold sql_update_preco. by rewrite Hb. }
  eexists. split; [by apply (atualizar_preco_livro_eq _ _ _ _ _ _ E Hb)|].
  assert (Es : store (backed_up w) = Some (mkStore (Some d) mt)).
  { by rewrite backed_up_store, (ensured_Some _ _ E). }
  destruct (decide ((sql_update_preco p id d).2 = d)) as [Hsame|Hdiff].
  - rewrite Hsame in Hd'.
    split; [unfold catalog; by rewrite Es|].
    split; [done|].
    eexists. split; [by apply (listar_livros_eq _ _ _ E)|].
    erewrite listar_livros_eq by apply Es.
    by rewrite <- (sql_select_update d d id b _ Hd' Hb).
  - split; [by rewrite catalog_committed|].
    split; [done|].
    eexists. split; [by apply (listar_livros_eq _ _ _ E)|].
    erewrite listar_livros_eq by apply store_committed.
    by rewrite (sql_select_update d _ id b _ Hd' Hb).
Qed.

Lemma atualizar_preco_livro_found_witness :
  exists w',
    atualizar_preco_livro 1 (S754_finite false 7177611906121728 (-48)) sample_world
    = Ret true w'
    /\ catalog w'
       = <[1 := with_preco (S754_finite false 7177611906121728 (-48))
                  (mkLivro "Iracema" "Jose de Alencar" None None)]>
           (livros sample_db)
    /\ backups w' = backups (backed_up sample_world)
    /\ exists rows,
         listar_livros sample_world = Ret rows sample_world
         /\ listar_livros w'
            = Ret (map (fun r : Row =>
                          if decide (r.1 = 1)
                          then (1, with_preco (S754_finite false 7177611906121728 (-48))
                                     (mkLivro "Iracema" "Jose de Alencar" None None))
                          else r)
                     rows) w'.
Proof.
  apply (atualizar_preco_livro_found 1 _ sample_world sample_db 1690000000000000);
    reflexivity.
Defined.

(** X5: on an id the catalog holds, [remover_livro] returns [True] after
    one [backup_db]; the record is gone, every other record stays, and the
    listing is the former one without that row.  Removing the same id
    again, or updating its price, then returns [False] and changes
    nothing. *)
Theorem remover_livro_found id w d mt b :
  store w = Some (mkStore (Some d) mt) ->
  livros d !! id = Some b ->
  exists w',
    remover_livro id w = Ret true w'
    /\ catalog w' = delete id (livros d)
    /\ backups w' = backups (backed_up w)
    /\ (exists rows,
          listar_livros w = Ret rows w
          /\ listar_livros w' = Ret (filter (fun r : Row => r.1 <> id) rows) w')
    /\ remover_livro id w' = Ret false w'
    /\ (forall p, atualizar_preco_livro id p w' = Ret false w').
Proof.
  intros E Hb.
  assert (Hd' : livros (sql_delete id d).2 = delete id (livros d)).
  { unfold sql_delete. by rewrite Hb. }
  eexists. split; [by apply (remover_livro_eq _ _ _ _ _ E Hb)|].
  split; [by rewrite catalog_committed|].
  split; [done|].
  split.
  - eexists. split; [by apply (listar_livros_eq _ _ _ E)|].
    erewrite listar_livros_eq by apply store_committed.
    by rewrite (sql_select_delete d _ id Hd').
  - assert (Hnone : livros (sql_delete id d).2 !! id = None).
    { rewrite Hd'. apply lookup_delete_eq. }
    pose proof (not_found_eq id _ _ _
                  (store_committed (sql_delete id d).2 (backed_up w)) Hnone) as Hnf.
    split; [apply (Hnf (S754_zero false))|intros p; apply (Hnf p)].
Qed.

Lemma remover_livro_found_witness :
  exists w',
    remover_livro 2 sample_world = Ret true w'
    /\ catalog w' = delete 2 (livros sample_db)
    /\ backups w' = backups (backed_up sample_world)
    /\ (exists rows,
          listar_livros sample_world = Ret rows sample_world
          /\ listar_livros w' = Ret (filter (fun r : Row => r.1 <> 2) rows) w')
    /\ remover_livro 2 w' = Ret false w'
    /\ (forall p, atualizar_preco_livro 2 p w' = Ret false w').
Proof.
  eapply (remover_livro_found 2 sample_world sample_db 1690000000000000);
    reflexivity.
Defined.

Section IdFacts.

Lemma db_of_tick d w : db_of (tick d w) = db_of w.
Proof. done. Qed.

Lemma op_db_recorded w o d :
  ids_recorded d -> ids_recorded (op_db w o d).
Proof.
  intros Hd id b Hb.
  destruct (op_db_new w o d) as [Hseq Hnew].
  destruct (livros d !! id) as [b0|] eqn:E.
  - apply Hd in E. lia.
  - apply (Hnew _ _ E) in Hb. lia.
Qed.

(** The id [adicionar_livro] returns is one more than the largest id
    the table holds or ever held. *)
Lemma adicionar_livro_id t a y p w id w' :
  adicionar_livro t a y p w = Ret id w' -> id = last_id (db_of w) + 1.
Proof.
  intros H.
  destruct (ensured_cases w) as [(mt & E & _)|(d & mt & E)].
  - by rewrite (adicionar_livro_no_table _ _ _ _ _ _ E) in H.
  - rewrite (adicionar_livro_eq _ _ _ _ _ _ _ E) in H.
    destruct (sql_insert_spec (strip t) (strip a) y p d) as (H1 & _).
    rewrite H1 in H. cbn in H. rewrite (db_of_ensured _ _ _ E).
    by inversion H.
Qed.

Lemma run_ops_ids (P : Livro -> Prop) id l :
  (forall b b', P b -> titulo b' = titulo b -> autor b' = autor b ->
                ano_publicacao b' = ano_publicacao b -> P b') ->
  forall w,
    ids_recorded (db_of w) ->
    id <= seq (db_of w) ->
    (forall b, catalog w !! id = Some b -> P b) ->
    ids_recorded (db_of (run_ops l w))
    /\ id <= seq (db_of (run_ops l w))
    /\ (forall b, catalog (run_ops l w) !! id = Some b -> P b).
Proof.
  intros HP. induction l as [|[dt o] l IH]; intros w Hrec Hid Hb; [done|].
  cbn [run_ops]. apply IH.
  - destruct (run_op_final o (tick dt w)) as [_ [->| ->]];
      rewrite db_of_tick; [done|by apply op_db_recorded].
  - destruct (run_op_final o (tick dt w)) as [_ [->| ->]];
      rewrite db_of_tick; [done|].
    destruct (op_db_new (tick dt w) o (db_of w)) as [Hseq _]. lia.
  - intros b'. rewrite <- db_of_catalog.
    destruct (run_op_final o (tick dt w)) as [_ [->| ->]]; rewrite db_of_tick.
    + rewrite db_of_catalog. apply Hb.
    + intros Hb'. destruct (livros (db_of w) !! id) as [b0|] eqn:E.
      * destruct (op_db_fixed _ _ _ _ _ _ E Hb') as (H1 & H2 & H3 & _).
        rewrite db_of_catalog in E. eauto.
      * destruct (op_db_new (tick dt w) o (db_of w)) as [_ Hnew].
        apply (Hnew _ _ E) in Hb'. lia.
Qed.

End IdFacts.

(** X6: ids are never reused.  From a table whose ids all came from its
    own INSERTs, through any run of writing calls, whatever they return:
    whatever record is later found under an id of the catalog has the
    title, author and year of the record that was there (it is that
    record, or the id is free), and a later [adicionar_livro] returns a
    greater id, also after [remover_livro] or [remover_todos_livros] has
    freed it. *)
Theorem ids_never_reused l w id b :
  ids_recorded (db_of w) ->
  catalog w !! id = Some b ->
  let w' := run_ops l w in
  (forall b', catalog w' !! id = Some b' ->
     titulo b' = titulo b /\ autor b' = autor b
     /\ ano_publicacao b' = ano_publicacao b)
  /\ (forall t a y p id' w'',
        adicionar_livro t a y p w' = Ret id' w'' -> id < id').
Proof.
  intros Hrec Hb w'.
  assert (Hid : id <= seq (db_of w)).
  { apply (Hrec id b). by rewrite db_of_catalog. }
  destruct (run_ops_ids
              (fun b' => titulo b' = titulo b /\ autor b' = autor b
                         /\ ano_publicacao b' = ano_publicacao b) id l)
    with (w := w) as (H1 & H2 & H3); try done.
  - intros b1 b2 (-> & -> & ->) -> -> ->. done.
  - intros b' Hb'. rewrite Hb in Hb'. by inversion Hb'.
  - split; [done|].
    intros t a y p id' w'' Hadd. apply adicionar_livro_id in Hadd as ->.
    fold w' in H2. unfold last_id. lia.
Qed.

Lemma ids_never_reused_witness :
  let w' := run_ops [(1000000, OpRemoverTodos)] sample_world in
  (forall b', catalog w' !! 2 = Some b' ->
     titulo b' = "Dom Casmurro"%string /\ autor b' = "Machado de Assis"%string
     /\ ano_publicacao b' = Some 1899)
  /\ (forall t a y p id' w'',
        adicionar_livro t a y p w' = Ret id' w'' -> 2 < id').
Proof.
  eapply (ids_never_reused [(1000000, OpRemoverTodos)] sample_world 2
            (mkLivro "Dom Casmurro" "Machado de Assis" (Some 1899)
               (Some (S754_finite false 7177611906121728 (-48))))).
  - intros id b Hb.
    assert (Hall : map_Forall (fun i (_ : Livro) => i <= 2) (livros sample_db)).
    { apply map_Forall_to_list. vm_compute. repeat constructor; discriminate. }
    apply (Hall id b Hb).
  - reflexivity.
Defined.

Section LikeFacts.

Lemma like_percent pat s :
  like ("%"%char :: pat) s
  = like pat s
    || match s with [] => false | _ :: s' => like ("%"%char :: pat) s' end.
Proof. by destruct s. Qed.

Lemma like_literal c pat s :
  wildcard c = false ->
  like (c :: pat) s
  = match s with
    | [] => false
    | c' :: s' => Ascii.eqb (lower c) (lower c') && like pat s'
    end.
Proof.
  unfold wildcard. intros H. apply orb_false_elim in H as [H1 H2].
  cbn [like]. rewrite H1. destruct s as [|c' s']; [done|]. by rewrite H2.
Qed.

(** A pattern without wildcards, followed by [%], matches the strings it
    starts. *)
Lemma like_prefix q s :
  forallb (fun c => negb (wildcard c)) q = true ->
  like (q ++ ["%"%char]) s = prefix_ci q s.
Proof.
  revert s. induction q as [|c q IH]; intros s H.
  - apply like_any.
  - cbn in H. apply andb_prop in H as [Hc Hq]. apply negb_true_iff in Hc.
    cbn [app]. rewrite (like_literal _ _ _ Hc).
    destruct s as [|c' s']; [done|]. cbn [prefix_ci]. by rewrite IH.
Qed.

(** Between two [%], it matches the strings it occurs in. *)
Lemma like_contains q s :
  forallb (fun c => negb (wildcard c)) q = true ->
  like ("%"%char :: q ++ ["%"%char]) s = contains_ci q s.
Proof.
  intros H. induction s as [|c s IH].
  - rewrite like_percent, (like_prefix _ _ H). cbn. by rewrite orb_false_r.
  - rewrite like_percent, (like_prefix _ _ H), IH. done.
Qed.

(** A run of [%] matches everything. *)
Lemma like_percents n s : like (replicate n "%"%char ++ ["%"%char]) s = true.
Proof.
  revert s. induction n as [|n IH]; intros s; [apply like_any|].
  cbn [replicate app]. rewrite like_percent. by rewrite IH.
Qed.

(** [n] times [_], followed by [%], matches the strings of [n] characters
    or more. *)
Lemma like_underscores n s :
  like (replicate n "_"%char ++ ["%"%char]) s = bool_decide (n <= length s)%nat.
Proof.
  revert s. induction n as [|n IH]; intros s.
  - rewrite like_any. symmetry. apply bool_decide_eq_true. lia.
  - cbn [replicate app like]. destruct s as [|c s]; cbn.
    + symmetry. apply bool_decide_eq_false. lia.
    + rewrite IH. apply bool_decide_ext. lia.
Qed.

Lemma like_underscores_any n s :
  like ("%"%char :: replicate n "_"%char ++ ["%"%char]) s
  = bool_decide (n <= length s)%nat.
Proof.
  induction s as [|c s IH]; rewrite like_percent, like_underscores.
  - by rewrite orb_false_r.
  - rewrite IH. cbn [length].
    destruct (bool_decide_reflect (n <= S (length s))%nat) as [H1|H1];
      destruct (bool_decide_reflect (n <= length s)%nat) as [H2|H2];
      try done; lia.
Qed.

Lemma list_ascii_of_string_app s1 s2 :
  list_ascii_of_string (s1 ++ s2)
  = list_ascii_of_string s1 ++ list_ascii_of_string s2.
Proof. induction s1 as [|c s1 IH]; simpl; [done|by f_equal]. Qed.

Lemma length_list_ascii_of_string s :
  length (list_ascii_of_string s) = String.length s.
Proof. induction s as [|c s IH]; cbn; [done|by rewrite IH]. Qed.

Lemma buscar_por_autor_eq q w d mt :
  store w = Some (mkStore (Some d) mt) ->
  buscar_por_autor q w
  = Ret (filter (fun r : Row =>
                   sql_like (autor r.2) ("%" ++ strip q ++ "%") = true)
           (sql_select (fun _ => true) d)) w.
Proof.
  intros E. unfold buscar_por_autor.
  rewrite bind_eq, (get_connection_Some _ _ E).
  erewrite query_table by apply E. by rewrite sql_select_filter.
Qed.

Lemma filter_ext_in {A} (P Q : A -> Prop) `{forall x, Decision (P x)}
    `{forall x, Decision (Q x)} (l : list A) :
  (forall x, x ∈ l -> P x <-> Q x) -> filter P l = filter Q l.
Proof.
  induction l as [|x l IH]; intros Hl; [done|].
  rewrite !filter_cons.
  assert (Hx : P x <-> Q x) by (apply Hl; left).
  rewrite IH by (intros y Hy; apply Hl; by right).
  destruct (decide (P x)), (decide (Q x)); tauto.
Qed.

End LikeFacts.

(** X7: [buscar_por_autor] returns rows of the listing, in the order of
    the listing: those whose author matches the pattern.  When the
    stripped query holds neither [%] nor [_], these are the rows whose
    author contains it, the letters A..Z compared without regard to
    case. *)
Theorem buscar_por_autor_substring q w d mt :
  store w = Some (mkStore (Some d) mt) ->
  exists rows,
    listar_livros w = Ret rows w
    /\ buscar_por_autor q w
       = Ret (filter (fun r : Row =>
                        sql_like (autor r.2) ("%" ++ strip q ++ "%") = true) rows) w
    /\ (forallb (fun c => negb (wildcard c)) (list_ascii_of_string (strip q)) = true ->
        buscar_por_autor q w = Ret (filter (autor_contains (strip q)) rows) w).
Proof.
  intros E. eexists. split; [by apply (listar_livros_eq _ _ _ E)|].
  split; [by apply (buscar_por_autor_eq _ _ _ _ E)|].
  intros Hq. rewrite (buscar_por_autor_eq _ _ _ _ E). f_equal.
  apply filter_ext_in. intros r _.
  unfold autor_contains, sql_like.
  change ("%" ++ strip q ++ "%")%string
    with (String "%" (strip q ++ "%")%string).
  cbn [list_ascii_of_string]. rewrite list_ascii_of_string_app.
  cbn [list_ascii_of_string]. by rewrite (like_contains _ _ Hq).
Qed.

Lemma buscar_por_autor_substring_witness :
  exists rows,
    listar_livros sample_world = Ret rows sample_world
    /\ buscar_por_autor " machado " sample_world
       = Ret (filter (fun r : Row =>
                        sql_like (autor r.2) ("%" ++ strip " machado " ++ "%") = true)
                rows) sample_world
    /\ (forallb (fun c => negb (wildcard c))
          (list_ascii_of_string (strip " machado ")) = true ->
        buscar_por_autor " machado " sample_world
        = Ret (filter (autor_contains (strip " machado ")) rows) sample_world).
Proof.
  apply (buscar_por_autor_substring " machado " sample_world sample_db
           1690000000000000).
  reflexivity.
Defined.

(** X8: the query of [buscar_por_autor] is not taken literally: its [%]
    and [_] are the wildcards of LIKE.  A query made of [%] alone returns
    the whole listing, and a query made of [n] times [_] returns the rows
    whose author has [n] characters or more. *)
Theorem buscar_por_autor_wildcards n w d mt :
  store w = Some (mkStore (Some d) mt) ->
  exists rows,
    listar_livros w = Ret rows w
    /\ buscar_por_autor (string_of_list_ascii (replicate n "%"%char)) w
       = Ret rows w
    /\ buscar_por_autor (string_of_list_ascii (replicate n "_"%char)) w
       = Ret (filter (autor_at_least n) rows) w.
Proof.
  intros E. eexists. split; [by apply (listar_livros_eq _ _ _ E)|].
  assert (Hstrip : forall c, py_isspace c = false ->
            strip (string_of_list_ascii (replicate n c))
            = string_of_list_ascii (replicate n c)).
  { intros c Hc. unfold strip. rewrite list_ascii_of_string_of_list_ascii.
    rewrite strip_chars_nonspace; [done|].
    apply Forall_forall. intros x Hx. by apply elem_of_replicate in Hx as [-> _]. }
  split.
  - rewrite (buscar_por_autor_eq _ _ _ _ E), Hstrip by done.
    rewrite <- (filter_all (fun _ : Row => True) (sql_select _ d)) at 2 by done.
    f_equal. apply filter_ext_in. intros r _. split; [done|intros _].
    unfold sql_like.
    change ("%" ++ ?s ++ "%")%string with (String "%" (s ++ "%")%string).
    cbn [list_ascii_of_string].
    rewrite list_ascii_of_string_app, list_ascii_of_string_of_list_ascii.
    cbn [list_ascii_of_string]. rewrite like_percent.
    by rewrite like_percents.
  - rewrite (buscar_por_autor_eq _ _ _ _ E), Hstrip by done.
    f_equal. apply filter_ext_in. intros r _.
    unfold sql_like, autor_at_least.
    change ("%" ++ ?s ++ "%")%string with (String "%" (s ++ "%")%string).
    cbn [list_ascii_of_string].
    rewrite list_ascii_of_string_app, list_ascii_of_string_of_list_ascii.
    cbn [list_ascii_of_string]. rewrite like_underscores_any.
    rewrite length_list_ascii_of_string. apply bool_decide_eq_true.
Qed.

Lemma buscar_por_autor_wildcards_witness :
  exists rows,
    listar_livros sample_world = Ret rows sample_world
    /\ buscar_por_autor (string_of_list_ascii (replicate 3 "%"%char)) sample_world
       = Ret rows sample_world
    /\ buscar_por_autor (string_of_list_ascii (replicate 3 "_"%char)) sample_world
       = Ret (filter (autor_at_least 3) rows) sample_world.
Proof.
  apply (buscar_por_autor_wildcards 3 sample_world sample_db 1690000000000000).
  reflexivity.
Defined.

(** * Further properties of the backup manager *)

Section PruneMore.

(** An archive that pruning removes is not locked, and five others that
    stay are at least as recent. *)
Lemma pruned_removed lk (b : gmap Z StoreFile) n a :
  b !! n = Some a -> pruned lk b !! n = None ->
  (n ∉ lk)
  /\ exists ks : list Z,
       NoDup ks /\ length ks = MAX_BACKUPS_TO_KEEP
       /\ forall k, k ∈ ks ->
            k <> n /\ exists a', pruned lk b !! k = Some a'
                                 /\ st_mtime a <= st_mtime a'.
Proof.
  intros Hb Hrem. rewrite pruned_lookup in Hrem.
  case_decide as Hn; [|congruence]. destruct Hn as [Hn Hlk].
  split; [done|].
  destruct (sorted_split b) as (Hnd & Hin & Hsplit).
  pose proof (sort_by_mtime_sorted (map_to_list b)) as Hsorted.
  set (sorted := sort_by_mtime (map_to_list b)) in *.
  rewrite Hsplit in Hsorted. rewrite Hsplit, fmap_app in Hnd.
  apply NoDup_app in Hnd as (Hnd1 & Hdisj & Hnd2).
  apply list_elem_of_fmap in Hn as ([n0 a0] & -> & Hn). simpl in *.
  assert ((n0, a0) ∈ sorted) as Hs by (rewrite Hsplit; apply elem_of_app; by right).
  apply Hin in Hs. rewrite Hb in Hs. injection Hs as <-.
  exists ((take MAX_BACKUPS_TO_KEEP sorted).*1). split; [done|]. split.
  - rewrite length_fmap, length_take. apply Nat.min_l.
    apply (f_equal length) in Hsplit. rewrite length_app in Hsplit.
    apply list_elem_of_lookup in Hn as [i Hi]. apply lookup_lt_Some in Hi.
    rewrite length_drop in Hi. lia.
  - intros k Hk. split.
    + intros ->. apply (Hdisj n0 Hk). by apply (list_elem_of_fmap_2 fst) in Hn.
    + pose proof Hk as Hk'.
      apply list_elem_of_fmap in Hk as ([n1 a1] & -> & Hn1). exists a1. split.
      * rewrite pruned_lookup. fold sorted. rewrite decide_False.
        -- apply Hin. rewrite Hsplit. apply elem_of_app. by left.
        -- intros [Hd _]. by apply (Hdisj _ Hk').
      * apply (StronglySorted_app_1_elem_of _ _ _ (n1, a1) (n0, a) Hsorted Hn1 Hn).
Qed.

Lemma pruned_locked lk (b : gmap Z StoreFile) n :
  n ∈ lk -> pruned lk b !! n = b !! n.
Proof.
  intros Hn. rewrite pruned_lookup. rewrite decide_False; [done|]. tauto.
Qed.

Lemma prune_old_backups_eq w :
  prune_old_backups w = Ret tt (set_backups (pruned (locked w) (backups w)) w).
Proof. done. Qed.

Lemma pruned_idem (b : gmap Z StoreFile) : pruned ∅ (pruned ∅ b) = pruned ∅ b.
Proof.
  apply pruned_small. rewrite pruned_size. apply Nat.le_min_l.
Qed.

End PruneMore.

(** X9: [prune_old_backups] never raises and touches nothing but the
    archives.  It only removes: an archive it removes is not locked and
    five archives that stay are at least as recent.  A locked archive
    stays, whatever its age (the failure of [unlink] is swallowed).  A
    directory of at most five archives is left as it is, and with nothing
    locked at most five archives remain and a second call changes
    nothing. *)
Theorem prune_old_backups_spec w :
  exists w',
    prune_old_backups w = Ret tt w'
    /\ store w' = store w /\ csv_files w' = csv_files w
    /\ clock w' = clock w /\ locked w' = locked w
    /\ backups w' ⊆ backups w
    /\ (forall n a,
          backups w !! n = Some a -> backups w' !! n = None ->
          (n ∉ locked w)
          /\ exists ks : list Z,
               NoDup ks /\ length ks = MAX_BACKUPS_TO_KEEP
               /\ forall k, k ∈ ks ->
                    k <> n /\ exists a', backups w' !! k = Some a'
                                         /\ st_mtime a <= st_mtime a')
    /\ (forall n, n ∈ locked w -> backups w' !! n = backups w !! n)
    /\ ((size (backups w) <= MAX_BACKUPS_TO_KEEP)%nat -> w' = w)
    /\ (locked w = ∅ ->
        size (backups w') = Nat.min MAX_BACKUPS_TO_KEEP (size (backups w))
        /\ prune_old_backups w' = Ret tt w').
Proof.
  exists (set_backups (pruned (locked w) (backups w)) w).
  split; [reflexivity|].
  do 4 (split; [reflexivity|]). cbn [backups set_backups].
  split; [apply pruned_subseteq|].
  split; [intros n a; apply pruned_removed|].
  split; [intros n Hn; by apply pruned_locked|].
  split.
  - intros Hsz. rewrite (pruned_small _ _ Hsz). by destruct w.
  - intros Hlk. rewrite Hlk. split; [apply pruned_size|].
    rewrite prune_old_backups_eq. cbn [locked backups set_backups].
    by rewrite Hlk, pruned_idem.
Qed.

(** X10: [backup_db] never raises and never changes the catalog or the
    CSV files.  A store file that exists is left as it is and the archive
    is keyed by the current second; a missing store file is created with
    an empty table, 0.1 s pass, and the archive is keyed by the second
    reached then.  The archives left are among the former ones and the one
    written; with nothing locked they are between one and five, and with
    fewer than five before the archive written is there, a copy of the
    store file. *)
Theorem backup_db_spec w :
  exists ts w' f,
    backup_db w = Ret ts w'
    /\ store w' = Some f
    /\ catalog w' = catalog w
    /\ csv_files w' = csv_files w
    /\ (store w = Some f \/
        store w = None /\ f = mkStore (Some empty_db) (clock w))
    /\ clock w' = match store w with
                  | Some _ => clock w
                  | None => clock w + 100000
                  end
    /\ ts = second_of (clock w')
    /\ backups w' ⊆ <[ts := f]> (backups w)
    /\ (locked w = ∅ -> (1 <= size (backups w') <= MAX_BACKUPS_TO_KEEP)%nat)
    /\ ((size (backups w) < MAX_BACKUPS_TO_KEEP)%nat ->
        backups w' = <[ts := f]> (backups w)).
Proof.
  destruct (ensured_store w) as [f Hf].
  exists (second_of (clock (ensured w))), (backed_up w), f.
  split; [apply backup_db_eq|].
  split; [by rewrite backed_up_store|].
  split; [apply backed_up_catalog|].
  split; [apply backed_up_csv|].
  split.
  { unfold ensured in Hf. destruct (store w) as [f0|] eqn:E.
    - left. congruence.
    - right. split; [done|]. cbn in Hf. congruence. }
  split.
  { rewrite backed_up_clock. unfold ensured. by destruct (store w). }
  split; [by rewrite backed_up_clock|].
  rewrite (backed_up_backups _ _ Hf).
  split; [apply pruned_subseteq|].
  split.
  - intros ->. rewrite pruned_size.
    assert (0 < size (<[second_of (clock (ensured w)) := f]> (backups w)))%nat.
    { apply Nat.neq_0_lt_0. intros Hz. apply map_size_empty_iff in Hz.
      by apply insert_non_empty in Hz. }
    unfold MAX_BACKUPS_TO_KEEP. lia.
  - intros Hsz. apply pruned_small.
    pose proof (map_size_insert (second_of (clock (ensured w))) f (backups w)) as Hi.
    destruct (backups w !! second_of (clock (ensured w)));
      unfold MAX_BACKUPS_TO_KEEP, id in *; lia.
Qed.

(** * Further properties of export and import *)

(** X11: on a store with its table, [exportar_para_csv] returns the path
    and writes the header followed by one row per row of the listing, in
    its order, replacing what the file held; on an empty catalog the file
    is the header alone.  It leaves the store, the archives, the clock and
    every other file as they were, and exporting again changes nothing. *)
Theorem exportar_para_csv_spec path w d mt :
  store w = Some (mkStore (Some d) mt) ->
  exists w' rows,
    listar_livros w = Ret rows w
    /\ exportar_para_csv path w = Ret path w'
    /\ csv_files w' !! path = Some (csv_header :: map csv_row rows)
    /\ length rows = size (livros d)
    /\ (livros d = ∅ -> csv_files w' !! path = Some [csv_header])
    /\ (forall path', path' <> path -> csv_files w' !! path' = csv_files w !! path')
    /\ store w' = store w /\ backups w' = backups w /\ clock w' = clock w
    /\ exportar_para_csv path w' = Ret path w'.
Proof.
  intros E. eexists _, _.
  split; [by apply (listar_livros_eq _ _ _ E)|].
  split; [by apply (exportar_para_csv_eq _ _ _ _ E)|].
  cbn [csv_files set_csv store backups clock].
  split; [apply lookup_insert_eq|].
  destruct (sql_select_all d) as (Hin & Hlen & _).
  split; [done|].
  split.
  { intros Hd. rewrite lookup_insert_eq. do 2 f_equal.
    rewrite Hd, map_size_empty in Hlen.
    by destruct (sql_select (fun _ => true) d). }
  split; [intros path' Hne; by apply lookup_insert_ne|].
  do 3 (split; [done|]).
  rewrite (exportar_para_csv_eq path _ d mt) by done.
  f_equal. unfold set_csv. cbn. f_equal. apply insert_insert_eq.
Qed.

Lemma exportar_para_csv_spec_witness :
  exists w' rows,
    listar_livros sample_world = Ret rows sample_world
    /\ exportar_para_csv "livros.csv" sample_world = Ret "livros.csv"%string w'
    /\ csv_files w' !! "livros.csv"%string = Some (csv_header :: map csv_row rows)
    /\ length rows = size (livros sample_db)
    /\ (livros sample_db = ∅ ->
        csv_files w' !! "livros.csv"%string = Some [csv_header])
    /\ (forall path', path' <> "livros.csv"%string ->
                      csv_files w' !! path' = csv_files sample_world !! path')
    /\ store w' = store sample_world /\ backups w' = backups sample_world
    /\ clock w' = clock sample_world
    /\ exportar_para_csv "livros.csv" w' = Ret "livros.csv"%string w'.
Proof.
  apply (exportar_para_csv_spec "livros.csv" sample_world sample_db
           1690000000000000).
  reflexivity.
Defined.

Section ImportMore.

Lemma importar_de_csv_cases path w doc :
  csv_files w !! path = Some doc ->
  importar_de_csv path w
  = match dict_reader doc with
    | [] => Ret 0 w
    | _ :: _ =>
        match store (ensured w) with
        | Some (mkStore (Some d) _) =>
            Ret (Z.of_nat (length (dict_reader doc)))
              (committed (db_import (year w) (dict_reader doc) d) (backed_up w))
        | _ => Raise OperationalError (backed_up w)
        end
    end.
Proof.
  intros Hdoc. destruct (dict_reader doc) as [|r rs] eqn:Hr.
  - by apply (importar_de_csv_no_rows _ _ _ Hdoc).
  - assert (Hne : dict_reader doc <> []) by (rewrite Hr; discriminate).
    destruct (ensured_cases w) as [(mt & E & Ee)|(d & mt & E)].
    + rewrite Ee, E.
      by apply (importar_de_csv_no_table _ _ _ _ Hdoc Hne E).
    + rewrite E, <- Hr. by apply (importar_de_csv_eq _ _ _ _ _ Hdoc Hne E).
Qed.

Lemma db_import_fold cy rows d :
  db_import cy rows d
  = fold_left (fun d (v : string * string * option Z * option PyFloat) =>
                 let '(t, a, ano, p) := v in (sql_insert t a ano p d).2)
      (map (import_values cy) rows) d.
Proof.
  unfold db_import. revert d.
  induction rows as [|r rows IH]; intros d; [done|]. apply IH.
Qed.

Lemma db_import_values cy rows1 rows2 d :
  map (import_values cy) rows1 = map (import_values cy) rows2 ->
  db_import cy rows1 d = db_import cy rows2 d.
Proof. intros H. by rewrite !db_import_fold, H. Qed.

(** The functions do not look at the CSV files they are not given. *)
Lemma ensured_set_csv c w : ensured (set_csv c w) = set_csv c (ensured w).
Proof. by destruct w as [cl y [f|] b lk cs]. Qed.

Lemma backed_up_set_csv c w : backed_up (set_csv c w) = set_csv c (backed_up w).
Proof. by destruct w as [cl y [f|] b lk cs]. Qed.

Lemma committed_set_csv c d w : committed d (set_csv c w) = set_csv c (committed d w).
Proof. done. Qed.

Lemma set_csv_set_csv c c' w : set_csv c (set_csv c' w) = set_csv c w.
Proof. done. Qed.

(** Under either naming of the columns a row gives the same values. *)
Lemma import_values_alias cy row :
  import_values cy (dict_row csv_header_en row)
  = import_values cy (dict_row csv_header row).
Proof.
  destruct row as [|v1 [|v2 [|v3 [|v4 rest]]]]; try reflexivity.
  assert (Hrow : forall h, length h = 4%nat ->
            dict_row h (v1 :: v2 :: v3 :: v4 :: rest) = dict_row h [v1; v2; v3; v4]).
  { intros [|h1 [|h2 [|h3 [|h4 [|h5 h]]]]] Hh; try discriminate Hh.
    unfold dict_row. cbn [length drop zip zip_with]. by rewrite drop_nil. }
  rewrite !Hrow by done. reflexivity.
Qed.

End ImportMore.

(** X12: [importar_de_csv] reads the columns under either naming.  A
    file headed [title,author,year,price] has the outcome of the same
    file headed [titulo,autor,ano_publicacao,preco]: the same value or
    the same exception, and the same world, the file itself aside. *)
Theorem importar_de_csv_aliases path rest cs w :
  importar_de_csv path (set_csv (<[path := csv_header_en :: rest]> cs) w)
  = result_map (set_csv (<[path := csv_header_en :: rest]> cs))
      (importar_de_csv path (set_csv (<[path := csv_header :: rest]> cs) w)).
Proof.
  set (cs1 := <[path := csv_header :: rest]> cs).
  set (cs2 := <[path := csv_header_en :: rest]> cs).
  rewrite (importar_de_csv_cases path (set_csv cs1 w) (csv_header :: rest))
    by apply lookup_insert_eq.
  rewrite (importar_de_csv_cases path (set_csv cs2 w) (csv_header_en :: rest))
    by apply lookup_insert_eq.
  assert (Hv : map (import_values (year w)) (dict_reader (csv_header_en :: rest))
               = map (import_values (year w)) (dict_reader (csv_header :: rest))).
  { unfold dict_reader. rewrite !map_map. apply map_ext.
    intros row. apply import_values_alias. }
  assert (Hl : length (dict_reader (csv_header_en :: rest))
               = length (dict_reader (csv_header :: rest))).
  { apply (f_equal length) in Hv. by rewrite !length_map in Hv. }
  rewrite !ensured_set_csv, !backed_up_set_csv.
  cbn [store set_csv year] in *.
  destruct (dict_reader (csv_header :: rest)) as [|r1 rs1] eqn:E1;
    destruct (dict_reader (csv_header_en :: rest)) as [|r2 rs2] eqn:E2;
    try discriminate Hl; [done|].
  destruct (store (ensured w)) as [[[d|] mt]|]; cbn [result_map]; try done.
  by rewrite (db_import_values _ _ _ d Hv), Hl.
Qed.

Section ImportListing.

Lemma imported_rows_cons cy last r rs :
  imported_rows cy last (r :: rs)
  = (last + 1, import_record cy r) :: imported_rows cy (last + 1) rs.
Proof.
  unfold imported_rows. rewrite imap_cons. f_equal.
  - f_equal. lia.
  - apply imap_ext. intros k x _. cbn. f_equal. lia.
Qed.

(** The listing after the INSERTs of an import: the former rows, then the
    new ones in the order of the file. *)
Lemma sql_select_db_import cy rs d :
  sql_select (fun _ => true) (db_import cy rs d)
  = sql_select (fun _ => true) d ++ imported_rows cy (last_id d) rs.
Proof.
  revert d. induction rs as [|r rs IH]; intros d.
  - by rewrite app_nil_r.
  - rewrite db_import_cons, IH, imported_rows_cons.
    destruct (sql_insert_spec (import_values cy r).1.1.1 (import_values cy r).1.1.2
                (import_values cy r).1.2 (import_values cy r).2 d)
      as (_ & H2 & _ & H4).
    rewrite H4.
    rewrite (sql_select_insert_last d _ _ _ H2).
    + rewrite <- app_assoc. cbn [app]. unfold import_record.
      by destruct (import_values cy r) as [[[t a] y] p].
    + intros k x Hk. apply last_id_bound in Hk. lia.
Qed.

Lemma importar_de_csv_listing path w doc d mt :
  csv_files w !! path = Some doc ->
  store w = Some (mkStore (Some d) mt) ->
  exists w' d',
    importar_de_csv path w = Ret (Z.of_nat (length (dict_reader doc))) w'
    /\ store w' = Some (mkStore (Some d') (if decide (dict_reader doc = []) then mt else clock w))
    /\ csv_files w' = csv_files w
    /\ year w' = year w
    /\ last_id d' = last_id d + Z.of_nat (length (dict_reader doc))
    /\ sql_select (fun _ => true) d'
       = sql_select (fun _ => true) d
         ++ imported_rows (year w) (last_id d) (dict_reader doc).
Proof.
  intros Hdoc E. rewrite (importar_de_csv_cases _ _ _ Hdoc).
  destruct (dict_reader doc) as [|r rs] eqn:Hr.
  - exists w, d. rewrite decide_True by done. repeat split; try done.
    + cbn. lia.
    + by rewrite app_nil_r.
  - rewrite (ensured_Some _ _ E), E. rewrite decide_False by done.
    exists (committed (db_import (year w) (r :: rs) d) (backed_up w)),
      (db_import (year w) (r :: rs) d).
    split; [reflexivity|].
    split; [by rewrite store_committed, backed_up_clock, (ensured_Some _ _ E)|].
    split; [apply backed_up_csv|].
    split; [apply backed_up_year|].
    split; [apply db_import_spec|apply sql_select_db_import].
Qed.

Lemma imported_rows_elem cy last rs (x : Row) :
  x ∈ imported_rows cy last rs ->
  last < x.1 /\ exists r, r ∈ rs /\ x.2 = import_record cy r.
Proof.
  unfold imported_rows. intros Hx.
  apply elem_of_lookup_imap_1 in Hx as (k & r & -> & Hk). cbn.
  split; [lia|]. exists r. split; [|done]. by eapply list_elem_of_lookup_2.
Qed.

End ImportListing.

(** X13: on a store with its table, [importar_de_csv] returns the number
    of data rows of the file that are not blank lines, and the listing
    afterwards is the former listing followed by one row per data row, in
    the order of the file, under ids that follow the ids given out so
    far.  It does not compare with what the catalog holds: importing the
    same file again appends the same records once more. *)
Theorem importar_de_csv_appends path w header rest d mt :
  csv_files w !! path = Some (header :: rest) ->
  store w = Some (mkStore (Some d) mt) ->
  let rs := dict_reader (header :: rest) in
  let n := Z.of_nat (length rs) in
  length rs = length (filter (fun row : list string => row <> []) rest)
  /\ exists w' w'' rows,
       listar_livros w = Ret rows w
       /\ importar_de_csv path w = Ret n w'
       /\ listar_livros w'
          = Ret (rows ++ imported_rows (year w) (last_id d) rs) w'
       /\ (forall r r',
             r ∈ rows -> r' ∈ imported_rows (year w) (last_id d) rs ->
             r.1 < r'.1)
       /\ importar_de_csv path w' = Ret n w''
       /\ listar_livros w''
          = Ret (rows ++ imported_rows (year w) (last_id d) rs
                      ++ imported_rows (year w) (last_id d + n) rs) w''.
Proof.
  intros Hdoc E rs n.
  split; [unfold rs, dict_reader; by rewrite length_map|].
  destruct (importar_de_csv_listing _ _ _ _ _ Hdoc E)
    as (w' & d' & H1 & H2 & H3 & H4 & H5 & H6).
  rewrite <- H3 in Hdoc.
  destruct (importar_de_csv_listing _ _ _ _ _ Hdoc H2)
    as (w'' & d'' & G1 & G2 & G3 & G4 & G5 & G6).
  exists w', w'', (sql_select (fun _ => true) d).
  split; [by apply (listar_livros_eq _ _ _ E)|].
  split; [done|].
  split; [rewrite (listar_livros_eq _ _ _ H2); by rewrite H6|].
  split.
  { intros [k x] r' Hr Hr'. apply sql_select_lookup in Hr as [Hr _].
    apply last_id_bound in Hr. apply imported_rows_elem in Hr' as [Hr' _].
    cbn. lia. }
  split; [done|].
  rewrite (listar_livros_eq _ _ _ G2), G6, H6, H4, H5. by rewrite <- app_assoc.
Qed.

Lemma importar_de_csv_appends_witness :
  let w := set_csv {[ "novos.csv"%string :=
                        [csv_header_en; ["Vidas Secas"; "Graciliano Ramos"; "1938"; ""];
                         []; ["O Cortico"; "Aluisio Azevedo"]]%string ]} sample_world in
  let rs := dict_reader [csv_header_en; ["Vidas Secas"; "Graciliano Ramos"; "1938"; ""];
                         []; ["O Cortico"; "Aluisio Azevedo"]]%string in
  let n := Z.of_nat (length rs) in
  length rs = length (filter (fun row : list string => row <> [])
                        [["Vidas Secas"; "Graciliano Ramos"; "1938"; ""];
                         []; ["O Cortico"; "Aluisio Azevedo"]]%string)
  /\ exists w' w'' rows,
       listar_livros w = Ret rows w
       /\ importar_de_csv "novos.csv" w = Ret n w'
       /\ listar_livros w'
          = Ret (rows ++ imported_rows (year w) (last_id sample_db) rs) w'
       /\ (forall r r',
             r ∈ rows -> r' ∈ imported_rows (year w) (last_id sample_db) rs ->
             r.1 < r'.1)
       /\ importar_de_csv "novos.csv" w' = Ret n w''
       /\ listar_livros w''
          = Ret (rows ++ imported_rows (year w) (last_id sample_db) rs
                      ++ imported_rows (year w) (last_id sample_db + n) rs) w''.
Proof.
  apply (importar_de_csv_appends "novos.csv" _ _ _ sample_db 1690000000000000);
    reflexivity.
Defined.

Section ImportNames.

Lemma fold_delete_lookup_None (l : list string) (m : gmap string string) k :
  m !! k = None -> fold_left (fun d k' => delete k' d) l m !! k = None.
Proof.
  revert m. induction l as [|k' l IH]; intros m Hm; [done|].
  cbn. apply IH. apply lookup_delete_None. by right.
Qed.

Lemma fold_insert_lookup_None (kvs : list (string * string))
    (m : gmap string string) k :
  m !! k = None -> k ∉ kvs.*1 ->
  fold_left (fun d kv => <[kv.1 := kv.2]> d) kvs m !! k = None.
Proof.
  revert m. induction kvs as [|[k' v] kvs IH]; intros m Hm Hk; [done|].
  rewrite fmap_cons in Hk. apply not_elem_of_cons in Hk as [Hne Hk].
  cbn. apply IH; [|done]. by rewrite lookup_insert_ne.
Qed.

(** A field name the header lacks is bound in no row. *)
Lemma dict_row_lookup_None h row k : k ∉ h -> dict_row h row !! k = None.
Proof.
  intros Hk. unfold dict_row.
  apply fold_delete_lookup_None, fold_insert_lookup_None; [done|].
  intros Hin. apply list_elem_of_fmap in Hin as ([k' v] & -> & Hin).
  apply Hk. by apply elem_of_zip_l in Hin.
Qed.

Lemma get_or_absent (r : gmap string string) k1 k2 :
  r !! k1 = None -> r !! k2 = None -> get_or r k1 k2 = ""%string.
Proof. intros H1 H2. unfold get_or. by rewrite H1, H2. Qed.

Lemma dict_reader_elem h rest r :
  r ∈ dict_reader (h :: rest) -> exists row, r = dict_row h row.
Proof.
  unfold dict_reader. intros Hr.
  apply list_elem_of_fmap in Hr as (row & -> & _). by exists row.
Qed.

End ImportNames.

(** X14: [importar_de_csv] rejects no row for its names.  On a store
    with its table it inserts every data row that is not a blank line;
    when the header has neither a [titulo] nor a [title] column, every
    record it adds has the empty title, and likewise for the author
    without an [autor] or [author] column. *)
Theorem importar_de_csv_unnamed path w header rest d mt :
  csv_files w !! path = Some (header :: rest) ->
  store w = Some (mkStore (Some d) mt) ->
  exists w',
    importar_de_csv path w
    = Ret (Z.of_nat (length (filter (fun row : list string => row <> []) rest))) w'
    /\ (("titulo"%string ∉ header) -> ("title"%string ∉ header) ->
        forall id b, catalog w' !! id = Some b ->
                     catalog w !! id = Some b \/ titulo b = ""%string)
    /\ (("autor"%string ∉ header) -> ("author"%string ∉ header) ->
        forall id b, catalog w' !! id = Some b ->
                     catalog w !! id = Some b \/ autor b = ""%string).
Proof.
  intros Hdoc E.
  destruct (importar_de_csv_listing _ _ _ _ _ Hdoc E)
    as (w' & d' & H1 & H2 & _ & _ & _ & H6).
  exists w'. split.
  { rewrite H1. unfold dict_reader. by rewrite length_map. }
  assert (Hcases : forall id b, catalog w' !! id = Some b ->
            catalog w !! id = Some b
            \/ exists row, b = import_record (year w) (dict_row header row)).
  { intros id b Hb. unfold catalog in *. rewrite H2 in Hb. rewrite E. cbn in *.
    assert ((id, b) ∈ sql_select (fun _ => true) d') as Hin
      by (by apply sql_select_lookup).
    rewrite H6 in Hin. apply elem_of_app in Hin as [Hin|Hin].
    - left. by apply sql_select_lookup in Hin as [Hin _].
    - right. apply imported_rows_elem in Hin as (_ & r & Hr & Hbr).
      cbn in Hbr. subst b.
      apply dict_reader_elem in Hr as [row ->]. by exists row. }
  split; intros Hk1 Hk2 id b Hb;
    (destruct (Hcases id b Hb) as [?|[row ->]]; [by left|right]);
    rewrite import_record_fields; cbn;
    rewrite get_or_absent by (by apply dict_row_lookup_None); done.
Qed.

Lemma importar_de_csv_unnamed_witness :
  let w := set_csv {[ "anos.csv"%string := [["year"]; ["1938"]; ["1890"]]%string ]}
             sample_world in
  exists w',
    importar_de_csv "anos.csv" w
    = Ret (Z.of_nat (length (filter (fun row : list string => row <> [])
                               [["1938"]; ["1890"]]%string))) w'
    /\ (("titulo"%string ∉ ["year"%string]) -> ("title"%string ∉ ["year"%string]) ->
        forall id b, catalog w' !! id = Some b ->
                     catalog w !! id = Some b \/ titulo b = ""%string)
    /\ (("autor"%string ∉ ["year"%string]) -> ("author"%string ∉ ["year"%string]) ->
        forall id b, catalog w' !! id = Some b ->
                     catalog w !! id = Some b \/ autor b = ""%string).
Proof.
  apply (importar_de_csv_unnamed "anos.csv" _ _ _ sample_db 1690000000000000);
    reflexivity.
Defined.

Section ExportAgain.

Lemma csv_row_fields (r r' : Row) : r.2 = r'.2 -> csv_row r = csv_row r'.
Proof. unfold csv_row. by intros ->. Qed.

Lemma imported_rows_snd cy last rs :
  (imported_rows cy last rs).*2 = map (import_record cy) rs.
Proof.
  unfold imported_rows. rewrite fmap_imap.
  rewrite (imap_ext _ (fun _ => import_record cy)) by done.
  apply imap_const.
Qed.

Lemma map_csv_row_snd (l l' : list Row) :
  l.*2 = l'.*2 -> map csv_row l = map csv_row l'.
Proof.
  revert l'. induction l as [|r l IH]; intros [|r' l'] H; try done.
  rewrite !fmap_cons in H. injection H as H1 H2.
  cbn. by rewrite (csv_row_fields _ _ H1), (IH _ H2).
Qed.

Lemma sample_db_exportable id b :
  livros sample_db !! id = Some b -> exportable 2023 b.
Proof.
  intros Hb. apply elem_of_map_to_list in Hb.
  assert (forall b, (b = mkLivro "Iracema" "Jose de Alencar" None None
                     \/ b = mkLivro "Dom Casmurro" "Machado de Assis" (Some 1899)
                              (Some (S754_finite false 7177611906121728 (-48)))) ->
                    exportable 2023 b) as Hex.
  { intros b0 [-> | ->]; (split; [by vm_compute|]); (split; [by vm_compute|]);
      split; intros x Hx; simpl in Hx; try discriminate;
      injection Hx as <-; [lia | repeat split; by vm_compute]. }
  apply Hex. vm_compute in Hb. clear Hex.
  apply elem_of_cons in Hb as [[= _ ->] | Hb]; [tauto|].
  apply elem_of_cons in Hb as [[= _ ->] | Hb]; [tauto|].
  by apply not_elem_of_nil in Hb.
Qed.

End ExportAgain.

(** X15: the import keeps the order of the file.  For a catalog of the
    data model (as in the round trip), importing its export into an empty
    catalog gives a listing with the same records in the same order, and
    exporting that catalog writes the same file again. *)
Theorem export_import_export path w d mt wt :
  store w = Some (mkStore (Some d) mt) ->
  (forall id b, livros d !! id = Some b -> exportable (year wt) b) ->
  csv_files wt !! path = csv_files (final (exportar_para_csv path w)) !! path ->
  catalog wt = ∅ ->
  (forall mt', store wt <> Some (mkStore None mt')) ->
  exists wt',
    importar_de_csv path wt = Ret (Z.of_nat (size (livros d))) wt'
    /\ (forall rows rows',
          listar_livros w = Ret rows w -> listar_livros wt' = Ret rows' wt' ->
          rows'.*2 = rows.*2)
    /\ (livros d <> ∅ -> exists rows', listar_livros wt' = Ret rows' wt')
    /\ csv_files (final (exportar_para_csv path wt')) !! path
       = csv_files wt !! path.
Proof.
  intros Hs Hwf Hfile Hempty Htable.
  rewrite (exportar_para_csv_eq _ _ _ _ Hs) in Hfile. simpl in Hfile.
  rewrite lookup_insert_eq in Hfile.
  destruct (sql_select_all d) as (Hrows & Hlen & _).
  rewrite (listar_livros_eq _ _ _ Hs).
  remember (sql_select (fun _ => true) d) as rows eqn:Erows.
  pose proof (dict_reader_export rows) as Hdr.
  rewrite (importar_de_csv_cases _ _ _ Hfile), Hdr.
  destruct rows as [|r0 rows0].
  - (* nothing to import *)
    assert (Hd : livros d = ∅).
    { apply map_size_empty_iff. by rewrite <- Hlen. }
    exists wt. cbn [map]. split; [by rewrite Hd, map_size_empty|].
    assert (Hl : forall rows', listar_livros wt = Ret rows' wt -> rows' = []).
    { intros rows' Hl. destruct (store_cases wt) as [E|[(mt' & E)|(dt & mt' & E)]].
      - unfold listar_livros in Hl.
        by rewrite bind_eq, (get_connection_None _ E) in Hl.
      - by destruct (Htable mt').
      - rewrite (listar_livros_eq _ _ _ E) in Hl. injection Hl as <-.
        destruct (sql_select_all dt) as (_ & Hlen' & _).
        unfold catalog in Hempty. rewrite E in Hempty. cbn in Hempty.
        rewrite Hempty, map_size_empty in Hlen'.
        by destruct (sql_select (fun _ => true) dt). }
    split; [intros ? rows' [= <-] Hr; by rewrite (Hl _ Hr)|].
    split; [done|].
    destruct (store_cases wt) as [E|[(mt' & E)|(dt & mt' & E)]].
    + unfold exportar_para_csv, listar_livros.
      by rewrite !bind_eq, (get_connection_None _ E).
    + by destruct (Htable mt').
    + rewrite (exportar_para_csv_eq _ _ _ _ E). cbn.
      rewrite lookup_insert_eq, Hfile.
      by rewrite (Hl _ (listar_livros_eq _ _ _ E)).
  - destruct (ensured_cases wt) as [(mt' & H & _) | (dt & mt' & Hdt)].
    { by destruct (Htable mt'). }
    rewrite Hdt. cbn [map].
    change (dict_row csv_header (csv_row r0)
            :: map (fun r => dict_row csv_header (csv_row r)) rows0)
      with (map (fun r => dict_row csv_header (csv_row r)) (r0 :: rows0)).
    set (rows := r0 :: rows0) in *.
    set (rs := map (fun r => dict_row csv_header (csv_row r)) rows).
    exists (committed (db_import (year wt) rs dt) (backed_up wt)).
    assert (Hdt0 : livros dt = ∅).
    { rewrite <- Hempty, <- ensured_catalog. unfold catalog. by rewrite Hdt. }
    assert (Hsel0 : sql_select (fun _ => true) dt = []).
    { destruct (sql_select_all dt) as (_ & Hlen' & _).
      rewrite Hdt0, map_size_empty in Hlen'.
      by destruct (sql_select (fun _ => true) dt). }
    assert (Hsnd : (sql_select (fun _ => true) (db_import (year wt) rs dt)).*2
                   = rows.*2).
    { rewrite sql_select_db_import, Hsel0, app_nil_l, imported_rows_snd.
      unfold rs. rewrite map_map.
      apply map_fmap_ext. intros r Hr. apply import_export_row.
      destruct r as [id b]. apply (Hwf id). by apply Hrows. }
    split; [unfold rs; by rewrite length_map, Hlen|].
    split.
    { intros ? rows' [= <-]. rewrite (listar_livros_eq _ _ _ (store_committed _ _)).
      by intros [= <-]. }
    split; [intros _; eexists; apply (listar_livros_eq _ _ _ (store_committed _ _))|].
    rewrite (exportar_para_csv_eq _ _ _ _ (store_committed _ _)).
    cbn [final csv_files set_csv]. rewrite lookup_insert_eq, Hfile.
    do 2 f_equal. by apply map_csv_row_snd.
Qed.

Lemma export_import_export_witness :
  let doc := csv_header :: map csv_row (sql_select (fun _ => true) sample_db) in
  let wt := target_world doc in
  exists wt',
    importar_de_csv "livros.csv" wt = Ret (Z.of_nat (size (livros sample_db))) wt'
    /\ (forall rows rows',
          listar_livros sample_world = Ret rows sample_world ->
          listar_livros wt' = Ret rows' wt' ->
          rows'.*2 = rows.*2)
    /\ (livros sample_db <> ∅ -> exists rows', listar_livros wt' = Ret rows' wt')
    /\ csv_files (final (exportar_para_csv "livros.csv" wt')) !! "livros.csv"%string
       = csv_files wt !! "livros.csv"%string.
Proof.
  intros doc wt.
  apply (export_import_export "livros.csv" sample_world sample_db
           1690000000000000 wt).
  - reflexivity.
  - apply sample_db_exportable.
  - by vm_compute.
  - reflexivity.
  - done.
Defined.

(** * The interactive shell *)

Section CallFacts.

Lemma outcome_final {A} (r : Result A) : (outcome r).1 = final r.
Proof. by destruct r. Qed.

Lemma outcome_raise {A} (r : Result A) e :
  (outcome r).2 = Some e -> exists w, r = Raise e w.
Proof. destruct r as [a w|e' w]; cbn; [done|]. intros [= ->]. by exists w. Qed.

Lemma final_adicionar t a y p w :
  final (adicionar_livro t a y p w) = final (run_op (OpAdicionar t a y p) w).
Proof. symmetry. apply (final_bind_ret _ (fun _ => true)). Qed.

Lemma final_importar path w :
  final (importar_de_csv path w) = final (run_op (OpImportar path) w).
Proof. symmetry. apply (final_bind_ret _ (fun n => 0 <? n)). Qed.

Lemma year_listar w : year (final (listar_livros w)) = year w.
Proof. by destruct w as [c y [[[d|] mt]|] b lk cs]. Qed.

Lemma year_buscar q w : year (final (buscar_por_autor q w)) = year w.
Proof. by destruct w as [c y [[[d|] mt]|] b lk cs]. Qed.

Lemma year_prepare w :
  year (final ((get_connection;; query (fun _ => tt)) w)) = year w.
Proof. by destruct w as [c y [[[d|] mt]|] b lk cs]. Qed.

Lemma year_exportar path w : year (final (exportar_para_csv path w)) = year w.
Proof. by destruct w as [c y [[[d|] mt]|] b lk cs]. Qed.

Lemma year_run_op o w : year (final (run_op o w)) = year w.
Proof. apply (run_op_final o w). Qed.

(** No call changes the year. *)
Lemma shell_call_year ins w o : shell_call ins w o -> year o.1 = year w.
Proof.
  destruct 1; rewrite ?outcome_final; cbn [fst].
  - done.
  - rewrite init_db_eq. cbn. by destruct (store w) as [[[?|] ?]|].
  - rewrite final_adicionar. apply year_run_op.
  - apply year_listar.
  - apply (year_run_op (OpAtualizarPreco livro_id p)).
  - apply (year_run_op (OpRemover livro_id)).
  - apply year_prepare.
  - apply year_buscar.
  - apply year_exportar.
  - rewrite final_importar. apply year_run_op.
  - rewrite backup_db_eq. apply backed_up_year.
  - apply (year_run_op OpRemoverTodos).
Qed.

End CallFacts.

Section SessionRules.

Variable ins : list (Z * string).
Variable W : World -> Prop.
Variable X : Exn -> Prop.
Variable cy : Z.

Hypothesis Hcall :
  forall w o, W w -> year w = cy -> shell_call ins w o ->
              W o.1 /\ forall e, o.2 = Some e -> X e.

Lemma sh_bind_eq {A B} (m : Sh A) (k : A -> Sh B) s :
  (m ≫= k) s = match m s with
               | ShRet a s' => k a s'
               | ShRaise e s' => ShRaise e s'
               end.
Proof. done. Qed.

Lemma state_mono n n' s :
  (n <= n')%nat -> session_state ins W cy n s -> session_state ins W cy n' s.
Proof.
  intros Hn (H1 & H2 & H3 & H4).
  split; [done|]. split; [done|]. split; [done|]. lia.
Qed.

Lemma step_ret {A} n (a : A) (Post : A -> Prop) :
  Post a -> session_step ins W X cy n (mret a) Post.
Proof. intros Ha s Hs. by split. Qed.

Lemma step_bind {A B} n (m : Sh A) (k : A -> Sh B) (Mid : A -> Prop) Post :
  session_step ins W X cy n m Mid ->
  (forall a, Mid a -> session_step ins W X cy n (k a) Post) ->
  session_step ins W X cy n (m ≫= k) Post.
Proof.
  intros Hm Hk s Hs. rewrite sh_bind_eq.
  specialize (Hm s Hs). destruct (m s) as [a s'|e s']; [|done].
  destruct Hm as [Hs' Ha]. by apply Hk.
Qed.

Lemma step_weaken {A} n (m : Sh A) (Post Post' : A -> Prop) :
  session_step ins W X cy n m Post -> (forall a, Post a -> Post' a) ->
  session_step ins W X cy n m Post'.
Proof.
  intros Hm HP s Hs. specialize (Hm s Hs).
  destruct (m s); [|done]. destruct Hm. auto.
Qed.

Lemma step_print n msg :
  session_step ins W X cy n (print msg) (fun _ => True).
Proof. intros s Hs. done. Qed.

Lemma step_get_shell n :
  session_step ins W X cy n get_shell (fun s => year (sh_world s) = cy).
Proof. intros s Hs. split; [done|]. apply Hs. Qed.

Lemma step_write_report n path text :
  session_step ins W X cy n (write_report path text) (fun _ => True).
Proof. intros s Hs. done. Qed.

(** Reading a line leaves one line less. *)
Lemma read_line_state n s :
  session_state ins W cy n s ->
  match read_line s with
  | ShRet line s' =>
      session_state ins W cy (pred n) s' /\ (0 < n)%nat
      /\ exists d, (d, line) ∈ ins
  | ShRaise e s' => session_raise ins W X e s'
  end.
Proof.
  intros (H1 & H2 & H3 & H4). unfold read_line.
  destruct (sh_input s) as [|[d line] rest] eqn:E.
  - split; [done|]. done.
  - assert (Hin : (d, line) ∈ ins).
    { destruct H3 as [pre ->]. apply elem_of_app. right. left. }
    cbn in H4. split; [|split; [lia|by exists d]].
    split; [|split; [done|split]]; cbn.
    + by apply (Hcall _ _ H1 H2 (call_wait ins _ d line Hin)).
    + by apply suffix_cons_l in H3.
    + lia.
Qed.

Lemma step_input n prompt :
  session_step ins W X cy n (input prompt) (fun line => exists d, (d, line) ∈ ins).
Proof.
  intros s Hs. unfold input. rewrite sh_bind_eq. cbn [print].
  match goal with |- context [read_line ?s1] =>
    pose proof (read_line_state n s1 Hs) as Hr; destruct (read_line s1) end;
    [|done].
  destruct Hr as (Hs' & _ & Hin). split; [|done].
  eapply state_mono; [|done]. lia.
Qed.

Lemma step_try_input n prompt :
  session_step ins W X cy n (try_input prompt)
    (fun r => forall line, r = Some line -> exists d, (d, line) ∈ ins).
Proof.
  intros s Hs. unfold try_input, input. rewrite sh_bind_eq. cbn [print].
  match goal with |- context [read_line ?s1] =>
    assert (Hs1 : session_state ins W cy n s1) by done;
    pose proof (read_line_state n s1 Hs1) as Hr;
    unfold read_line in *; cbn [sh_input] in * end.
  destruct (sh_input s) as [|[d line] rest].
  - split; [done|]. discriminate.
  - destruct Hr as (Hs' & _ & Hin). split.
    + eapply state_mono; [|done]. lia.
    + by intros ? [= <-].
Qed.

Lemma step_pausa n : session_step ins W X cy n pausa (fun _ => True).
Proof.
  unfold pausa. eapply step_bind; [apply step_input|].
  intros line _. by apply step_ret.
Qed.

(** A call of a storage function that the session may make. *)
Lemma step_lift {A} n (m : M A) :
  (forall w, W w -> year w = cy -> shell_call ins w (outcome (m w))) ->
  session_step ins W X cy n (lift m) (fun _ => True).
Proof.
  intros Hm s (H1 & H2 & H3 & H4). unfold lift.
  specialize (Hm _ H1 H2).
  pose proof (Hcall _ _ H1 H2 Hm) as [HW HX].
  pose proof (shell_call_year _ _ _ Hm) as Hy.
  destruct (m (sh_world s)) as [a w|e w]; cbn in *.
  - split; [|done]. split; [done|]. split; [cbn; congruence|]. by split.
  - split; [done|]. by apply HX.
Qed.

Lemma step_lift_ret {A} n (a : A) :
  session_step ins W X cy n (lift (mret a)) (fun _ => True).
Proof. intros s Hs. split; [|done]. by destruct s. Qed.

Lemma step_overflow {A} n (Post : A -> Prop) :
  overflowing ins -> session_step ins W X cy n (sh_raise OverflowError) Post.
Proof. intros Ho s Hs. split; [apply Hs|done]. Qed.

(** [while True] around [input]: the turns keep the state, and when the
    lines are used up it is [input] that raises. *)
Lemma loop_input_state {A} n prelude prompt (body : string -> Sh (option A))
    (Post : A -> Prop) :
  (forall n', session_step ins W X cy n' prelude (fun _ => True)) ->
  (forall n' line,
      (exists d, (d, line) ∈ ins) ->
      session_step ins W X cy n' (body line)
        (fun r => forall a, r = Some a -> Post a)) ->
  forall fuel s,
    (fuel <= n)%nat ->
    session_state ins W cy fuel s ->
    match loop_input fuel prelude prompt body s with
    | ShRet a s' => session_state ins W cy n s' /\ Post a
    | ShRaise e s' => session_raise ins W X e s'
    end.
Proof.
  intros Hpre Hbody fuel. induction fuel as [|fuel IH]; intros s Hn Hs.
  - cbn [loop_input]. rewrite sh_bind_eq.
    pose proof (Hpre 0%nat s Hs) as H1.
    destruct (prelude s) as [[] s1|e s1]; [|done]. destruct H1 as [Hs1 _].
    rewrite sh_bind_eq. unfold input. rewrite sh_bind_eq. cbn [print].
    match goal with |- context [read_line ?s2] =>
      assert (Hs2 : session_state ins W cy 0 s2) by done;
      pose proof (read_line_state 0 s2 Hs2) as Hr;
      destruct (read_line s2) end; [|done].
    destruct Hr as (_ & Hlt & _). lia.
  - cbn [loop_input]. rewrite sh_bind_eq.
    pose proof (Hpre (S fuel) s Hs) as H1.
    destruct (prelude s) as [[] s1|e s1]; [|done]. destruct H1 as [Hs1 _].
    rewrite sh_bind_eq. unfold input. rewrite sh_bind_eq. cbn [print].
    match goal with |- context [read_line ?s2] =>
      assert (Hs2 : session_state ins W cy (S fuel) s2) by done;
      pose proof (read_line_state (S fuel) s2 Hs2) as Hr;
      destruct (read_line s2) as [line s3|e s3] end; [|done].
    destruct Hr as (Hs3 & _ & Hin). cbn [pred] in Hs3.
    rewrite sh_bind_eq.
    pose proof (Hbody fuel line Hin s3 Hs3) as Hb.
    destruct (body line s3) as [[a|] s4|e s4]; [| |done].
    + destruct Hb as [Hs4 Ha]. split; [|by apply Ha].
      eapply state_mono; [|done]. lia.
    + destruct Hb as [Hs4 _]. apply IH; [lia|done].
Qed.

Lemma step_while_input {A} n prelude prompt (body : string -> Sh (option A))
    (Post : A -> Prop) :
  (forall n', session_step ins W X cy n' prelude (fun _ => True)) ->
  (forall n' line,
      (exists d, (d, line) ∈ ins) ->
      session_step ins W X cy n' (body line)
        (fun r => forall a, r = Some a -> Post a)) ->
  session_step ins W X cy n (while_input prelude prompt body) Post.
Proof.
  intros Hpre Hbody s Hs. unfold while_input. rewrite sh_bind_eq.
  cbn [get_shell].
  apply (loop_input_state n _ _ _ _ Hpre Hbody); [apply Hs|].
  destruct Hs as (H1 & H2 & H3 & H4). split; [done|]. split; [done|]. by split.
Qed.

Variable strftime : Z -> string.

Ltac step_end :=
  repeat first
    [ apply step_ret; done
    | eapply step_bind; [first [apply step_print | apply step_pausa]|intros ? _] ].

Lemma ler_ano_step n :
  session_step ins W X cy n ler_ano
    (fun ano => forall y, ano = Some y -> 1000 <= y <= cy + 1).
Proof.
  apply step_while_input; [intros n'; by apply step_ret|].
  intros n' line _. cbn zeta.
  destruct (decide (strip line = ""%string));
    [apply step_ret; intros a [= <-] y; discriminate|].
  eapply step_bind; [apply step_get_shell|]. intros s Hy. cbn beta in Hy.
  destruct (validar_ano (year (sh_world s)) (strip line)) as [ano|] eqn:E.
  - apply step_ret. intros a [= <-] y [= <-].
    apply validar_ano_Some in E. rewrite <- Hy. apply E.
  - eapply step_bind; [apply step_print|]. intros _ _. by apply step_ret.
Qed.

Lemma ler_preco_step n :
  session_step ins W X cy n ler_preco
    (fun preco => forall p, preco = Some p -> float_ge0 p = true).
Proof.
  apply step_while_input; [intros n'; by apply step_ret|].
  intros n' line _. cbn zeta.
  destruct (decide (strip line = ""%string));
    [apply step_ret; intros a [= <-] p; discriminate|].
  destruct (validar_preco (strip line)) as [preco|] eqn:E.
  - apply step_ret. intros a [= <-] p [= <-].
    by apply validar_preco_Some in E as [_ E].
  - eapply step_bind; [apply step_print|]. intros _ _. by apply step_ret.
Qed.

Lemma ler_novo_preco_step n :
  session_step ins W X cy n ler_novo_preco (fun p => float_ge0 p = true).
Proof.
  apply step_while_input; [intros n'; by apply step_ret|].
  intros n' line _.
  destruct (validar_preco (strip line)) as [preco|] eqn:E.
  - apply step_ret. intros a [= <-]. by apply validar_preco_Some in E as [_ E].
  - eapply step_bind; [apply step_print|]. intros _ _. by apply step_ret.
Qed.

Lemma print_rows_step n f rows :
  session_step ins W X cy n (print_rows f rows) (fun _ => True).
Proof.
  induction rows as [|r rows IH]; [by apply step_ret|].
  cbn [print_rows]. eapply step_bind; [apply step_print|]. by intros _ _.
Qed.

Lemma com_id_step {A} n livro_id (m : M A) :
  (exists d line, (d, line) ∈ ins /\ py_int (strip line) = Some livro_id) ->
  (sql_int livro_id = true ->
   forall w, W w -> year w = cy -> shell_call ins w (outcome (m w))) ->
  session_step ins W X cy n (com_id livro_id m) (fun _ => True).
Proof.
  intros (d & line & Hin & Hint) Hm. unfold com_id.
  destruct (sql_int livro_id) eqn:E; [by apply step_lift; auto|].
  eapply step_bind.
  - apply step_lift. intros w _ _. apply call_prepare.
  - intros _ _. apply step_overflow. by exists d, line, livro_id.
Qed.

Lemma importar_e_dizer_step n path :
  typed ins "7" -> typed ins path -> path <> ""%string ->
  session_step ins W X cy n (importar_e_dizer path) (fun _ => True).
Proof.
  intros H7 Hp Hne s (H1 & H2 & H3 & H4). unfold importar_e_dizer.
  pose proof (call_importar ins (sh_world s) path H7 Hp Hne) as Hc.
  pose proof (Hcall _ _ H1 H2 Hc) as [HW _].
  pose proof (shell_call_year _ _ _ Hc) as Hy. cbn [fst] in *.
  assert (Hst : forall w out,
             w = final (importar_de_csv path (sh_world s)) ->
             session_state ins W cy n
               (mkShell w (sh_reports s) (sh_input s) out)).
  { intros w out ->. split; [done|]. split; [cbn; congruence|]. by split. }
  destruct (importar_de_csv path (sh_world s)) as [k w|[] w]; cbn [final] in *;
    (split; [by apply Hst|done]).
Qed.

Lemma gerar_relatorio_html_step n path :
  session_step ins W X cy n (gerar_relatorio_html strftime path) (fun _ => True).
Proof.
  unfold gerar_relatorio_html.
  eapply step_bind; [apply step_lift; intros w _ _; apply call_listar|].
  intros livros _.
  eapply step_bind; [apply step_lift_ret|]. intros _ _.
  eapply step_bind; [apply step_get_shell|]. intros s _. cbn zeta.
  eapply step_bind; [apply step_write_report|]. intros _ _.
  by apply step_ret.
Qed.

(** One turn of the menu keeps the state of the session. *)
Lemma opcao_step n escolha :
  typed ins escolha ->
  session_step ins W X cy n (opcao strftime escolha)
    (fun r => forall a, r = Some a -> escolha = "11"%string).
Proof.
  intros Ht. unfold opcao.
  destruct (decide (escolha = "1"%string)) as [->|_].
  { eapply step_bind; [apply step_input|]. intros titulo _.
    eapply step_bind; [apply step_input|]. intros autor _.
    eapply step_bind; [apply ler_ano_step|]. intros ano Hano.
    eapply step_bind; [apply ler_preco_step|]. intros preco Hpreco.
    destruct (decide (strip titulo = ""%string \/ strip autor = ""%string))
      as [|Hne]; [step_end|].
    eapply step_bind; [|intros ? _; step_end].
    apply step_lift. intros w _ Hy. apply call_adicionar; [done|].
    unfold validated. rewrite !strip_idem, Hy.
    split; [tauto|]. split; [tauto|]. split; [exact Hano|exact Hpreco]. }
  destruct (decide (escolha = "2"%string)) as [->|_].
  { eapply step_bind; [apply step_lift; intros w _ _; apply call_listar|].
    intros livros _.
    eapply step_bind; [|intros ? _; step_end].
    destruct livros; [apply step_print|].
    eapply step_bind; [apply step_print|]. intros _ _. apply print_rows_step. }
  destruct (decide (escolha = "3"%string)) as [->|_].
  { eapply step_bind; [apply step_try_input|]. intros r Hr.
    destruct r as [line|]; cbn [mbind option_bind]; [|step_end].
    destruct (py_int (strip line)) as [livro_id|] eqn:E; [|step_end].
    destruct (Hr line eq_refl) as [d Hin].
    eapply step_bind; [apply ler_novo_preco_step|]. intros p Hp.
    eapply step_bind; [|intros ? _; step_end].
    apply com_id_step; [by exists d, line|].
    intros Hid w _ _. by apply call_atualizar. }
  destruct (decide (escolha = "4"%string)) as [->|_].
  { eapply step_bind; [apply step_try_input|]. intros r Hr.
    destruct r as [line|]; cbn [mbind option_bind]; [|step_end].
    destruct (py_int (strip line)) as [livro_id|] eqn:E; [|step_end].
    destruct (Hr line eq_refl) as [d Hin].
    eapply step_bind; [apply step_input|]. intros confirm [d' Hin'].
    destruct (decide (str_lower (strip confirm) = "s"%string)) as [Hs|_];
      [|step_end].
    eapply step_bind; [|intros ? _; step_end].
    apply com_id_step; [by exists d, line|].
    intros Hid w _ _. apply call_remover; [done| |done]. by exists d', confirm. }
  destruct (decide (escolha = "5"%string)) as [->|_].
  { eapply step_bind; [apply step_input|]. intros autor_q _.
    destruct (decide (strip autor_q = ""%string)); [step_end|].
    eapply step_bind; [apply step_lift; intros w _ _; apply call_buscar|].
    intros resultados _.
    eapply step_bind; [|intros ? _; step_end].
    destruct resultados; [apply step_print|apply print_rows_step]. }
  destruct (decide (escolha = "6"%string)) as [->|_].
  { eapply step_bind; [apply step_lift; intros w _ _; by apply call_exportar|].
    intros path _. step_end. }
  destruct (decide (escolha = "7"%string)) as [->|_].
  { eapply step_bind; [apply step_input|]. intros csv_path [d Hin].
    destruct (decide (strip csv_path = ""%string)) as [|Hne]; [step_end|].
    eapply step_bind; [|intros ? _; step_end].
    apply importar_e_dizer_step; [done| |done]. by exists d, csv_path. }
  destruct (decide (escolha = "8"%string)) as [->|_].
  { eapply step_bind; [apply step_lift; intros w _ _; by apply call_backup|].
    intros bp _. step_end. }
  destruct (decide (escolha = "9"%string)) as [->|_].
  { eapply step_bind; [apply gerar_relatorio_html_step|].
    intros path _. step_end. }
  destruct (decide (escolha = "10"%string)) as [->|_].
  { eapply step_bind; [apply step_input|]. intros confirm [d Hin].
    eapply step_bind; [|intros ? _; step_end].
    destruct (decide (str_lower (strip confirm) = "s"%string)) as [Hs|_];
      [|apply step_print].
    eapply step_bind; [|intros ? _; apply step_print].
    apply step_lift. intros w _ _. apply call_remover_todos; [done|].
    by exists d, confirm. }
  destruct (decide (escolha = "11"%string)) as [->|_]; step_end.
Qed.

(** A whole session: from a world that satisfies [W] once [init_db] has
    run, the session keeps [W], and it ends by option 11 or by one of
    the exceptions of [session_raise]. *)
Lemma menu_session s :
  ins = sh_input s ->
  cy = year (sh_world s) ->
  W (final (init_db (sh_world s))) ->
  match menu strftime s with
  | ShRet _ s' => W (sh_world s') /\ typed ins "11"
  | ShRaise e s' => session_raise ins W X e s'
  end.
Proof.
  intros Hins Hcy HW0. unfold menu. rewrite sh_bind_eq.
  unfold lift at 1. rewrite init_db_eq in *. cbn [final] in HW0.
  match goal with |- context [set_world ?w1 s] =>
    assert (Hs1 : session_state ins W cy (length (sh_input s)) (set_world w1 s)) end.
  { split; [done|]. split.
    { cbn. rewrite Hcy. by destruct (store (sh_world s)) as [[[?|] ?]|]. }
    split; [by rewrite Hins|done]. }
  match goal with |- context [while_input ?pre ?p ?b] =>
    pose proof (step_while_input (length (sh_input s)) pre p b
                  (fun _ => typed ins "11")) as Hloop end.
  match type of Hloop with ?P1 -> ?P2 -> _ =>
    assert (H1 : P1); [|assert (H2 : P2); [|specialize (Hloop H1 H2)]] end.
  - intros n'. unfold limpar_tela.
    eapply step_bind; [apply step_print|]. intros _ _. apply step_print.
  - intros n' line [d Hin].
    eapply step_bind; [apply step_print|]. intros _ _.
    eapply step_weaken; [apply opcao_step; by exists d, line|].
    intros r Hr a Ha. exists d, line. split; [done|]. by apply (Hr a).
  - specialize (Hloop _ Hs1).
    match goal with |- match ?r with _ => _ end =>
      destruct r as [[] s'|e s'] end; [|done].
    destruct Hloop as [Hs' H11]. split; [apply Hs'|done].
Qed.

Lemma menu_invariant s :
  ins = sh_input s ->
  cy = year (sh_world s) ->
  W (final (init_db (sh_world s))) ->
  W (sh_world (sh_final (menu strftime s))).
Proof.
  intros Hins Hcy HW0. pose proof (menu_session s Hins Hcy HW0) as H.
  destruct (menu strftime s); apply H.
Qed.

End SessionRules.

Section SessionCalls.

Lemma has_table_backed_up w : has_table w -> has_table (backed_up w).
Proof.
  intros (d & mt & E). exists d, mt.
  by rewrite backed_up_store, (ensured_Some _ _ E).
Qed.

Lemma has_table_committed d w : has_table (committed d w).
Proof. by eexists _, _. Qed.

Lemma prepare_eq w d mt :
  store w = Some (mkStore (Some d) mt) ->
  (get_connection;; query (fun _ => tt)) w = Ret tt w.
Proof.
  intros E. rewrite bind_eq, (get_connection_Some _ _ E).
  by erewrite query_table.
Qed.

(** With the table in place no call raises, and the table stays. *)
Lemma has_table_call ins w o :
  has_table w -> shell_call ins w o ->
  has_table o.1 /\ forall e : Exn, o.2 = Some e -> False.
Proof.
  intros Ht Hc. pose proof Ht as (d & mt & E).
  destruct Hc as [dt line _| |t a y p _ _| |id p _ _ _|id _ _ _| |q|_
                 |path _ _ _|_|_ _].
  - split; [by exists d, mt|done].
  - rewrite init_db_eq, E. split; [done|discriminate].
  - erewrite adicionar_livro_eq by (by rewrite (ensured_Some _ _ E)).
    split; [apply has_table_committed|discriminate].
  - rewrite (listar_livros_eq _ _ _ E). split; [done|discriminate].
  - destruct (livros d !! id) as [b|] eqn:Eb.
    + rewrite (atualizar_preco_livro_eq _ _ _ _ _ _ E Eb).
      split; [|discriminate]. cbn.
      destruct (decide _); [by apply has_table_backed_up|apply has_table_committed].
    + destruct (not_found_eq _ _ _ _ E Eb p) as [-> _].
      split; [done|discriminate].
  - destruct (livros d !! id) as [b|] eqn:Eb.
    + rewrite (remover_livro_eq _ _ _ _ _ E Eb).
      split; [apply has_table_committed|discriminate].
    + destruct (not_found_eq _ _ _ _ E Eb (S754_zero false)) as [_ ->].
      split; [done|discriminate].
  - rewrite (prepare_eq _ _ _ E). split; [done|discriminate].
  - rewrite (buscar_por_autor_eq _ _ _ _ E). split; [done|discriminate].
  - rewrite (exportar_para_csv_eq _ _ _ _ E).
    split; [by exists d, mt|discriminate].
  - split; [|discriminate]. cbn [fst].
    destruct (csv_files w !! path) as [doc|] eqn:Ep.
    + rewrite (importar_de_csv_cases _ _ _ Ep).
      destruct (dict_reader doc); [done|].
      rewrite (ensured_Some _ _ E), E. apply has_table_committed.
    + by rewrite (importar_de_csv_missing _ _ Ep).
  - rewrite backup_db_eq. split; [by apply has_table_backed_up|discriminate].
  - destruct (decide (livros d = ∅)) as [Hd|Hd].
    + rewrite (remover_todos_livros_empty _ _ _ E Hd). split; [done|discriminate].
    + rewrite (remover_todos_livros_eq _ _ _ E Hd).
      split; [apply has_table_committed|discriminate].
Qed.

Lemma db_of_listar w : db_of (final (listar_livros w)) = db_of w.
Proof. by destruct w as [c y [[[d|] mt]|] b lk cs]. Qed.

Lemma db_of_buscar q w : db_of (final (buscar_por_autor q w)) = db_of w.
Proof. by destruct w as [c y [[[d|] mt]|] b lk cs]. Qed.

Lemma db_of_prepare w :
  db_of (final ((get_connection;; query (fun _ => tt)) w)) = db_of w.
Proof. by destruct w as [c y [[[d|] mt]|] b lk cs]. Qed.

Lemma db_of_exportar path w : db_of (final (exportar_para_csv path w)) = db_of w.
Proof. by destruct w as [c y [[[d|] mt]|] b lk cs]. Qed.

Lemma db_of_init_db w : db_of (final (init_db w)) = db_of w.
Proof. rewrite init_db_eq. by destruct w as [c y [[[d|] mt]|] b lk cs]. Qed.

(** What a call of a session does to the database: nothing, or what a
    writing call with validated arguments does; an import only when
    option 7 was typed, a deletion only when a confirmation was. *)
Lemma shell_call_db ins w o :
  shell_call ins w o ->
  db_of o.1 = db_of w
  \/ exists op,
       validated (year w) op
       /\ (is_import op = true -> typed ins "7")
       /\ (is_delete op = true -> confirmed ins)
       /\ db_of o.1 = op_db w op (db_of w).
Proof.
  assert (Hop : forall op w',
            w' = final (run_op op w) -> validated (year w) op ->
            (is_import op = true -> typed ins "7") ->
            (is_delete op = true -> confirmed ins) ->
            db_of w' = db_of w
            \/ exists op, validated (year w) op
                 /\ (is_import op = true -> typed ins "7")
                 /\ (is_delete op = true -> confirmed ins)
                 /\ db_of w' = op_db w op (db_of w)).
  { intros op w' -> Hv Hi Hd.
    destruct (run_op_final op w) as [_ [H|H]]; [by left|right].
    by exists op. }
  destruct 1 as [dt line _| |t a y p _ Hv| |id p _ Hp _|id _ Hc _| |q|_
                |path H7 _ _|_|_ Hc]; rewrite ?outcome_final; cbn [fst].
  - by left.
  - left. apply db_of_init_db.
  - apply (Hop (OpAdicionar t a y p)); [apply final_adicionar|done|done|done].
  - left. apply db_of_listar.
  - by apply (Hop (OpAtualizarPreco id p)).
  - by apply (Hop (OpRemover id)).
  - left. apply db_of_prepare.
  - left. apply db_of_buscar.
  - left. apply db_of_exportar.
  - apply (Hop (OpImportar path)); [apply final_importar|done|done|done].
  - left. rewrite backup_db_eq. apply db_of_backed_up.
  - by apply (Hop OpRemoverTodos).
Qed.

(** A call that is no deletion keeps every record, price aside. *)
Lemma op_db_keeps w o d id b :
  is_delete o = false ->
  livros d !! id = Some b ->
  exists b', livros (op_db w o d) !! id = Some b'.
Proof.
  intros Hd Hb. destruct o as [t a y p|id0 p|id0| |path]; try discriminate Hd.
  - cbn [op_db].
    destruct (sql_insert_spec (strip t) (strip a) y p d) as (_ & -> & Hn & _).
    exists b. rewrite lookup_insert_ne; [done|]. intros <-. congruence.
  - cbn [op_db]. unfold sql_update_preco.
    destruct (livros d !! id0) as [b0|] eqn:E0; cbn; [|eauto].
    destruct (decide (id0 = id)) as [->|Hne].
    + rewrite lookup_insert_eq. eauto.
    + rewrite lookup_insert_ne by done. eauto.
  - cbn [op_db]. destruct (csv_files w !! path) as [doc|]; [|eauto].
    destruct (db_import_spec (year w) (dict_reader doc) d) as (_ & H2 & _).
    exists b. rewrite H2; [done|]. by eapply last_id_bound.
Qed.

End SessionCalls.

(** X16: how a session of the menu ends.  It never ends by an exception
    of the storage functions: [menu] creates the table first and no
    option removes it, and the exceptions of the import are caught.  It
    returns only when option 11 was typed; it raises [EOFError] only
    when the input is used up, and [OverflowError] only when a line typed
    reads as an int that SQLite cannot hold.  In each case the store has
    its table (every turn reads a line, so the loop needs no more turns
    than there are lines). *)
Theorem menu_ends strftime s :
  match menu strftime s with
  | ShRet _ s' => has_table (sh_world s') /\ typed (sh_input s) "11"
  | ShRaise (StoreExn _) _ => False
  | ShRaise EOFError s' => has_table (sh_world s') /\ sh_input s' = []
  | ShRaise OverflowError s' =>
      has_table (sh_world s') /\ overflowing (sh_input s)
  end.
Proof.
  pose proof (menu_session (sh_input s) has_table (fun _ => False)
                (year (sh_world s))) as H.
  specialize (H (fun w o Hw _ Hc => has_table_call _ w o Hw Hc) strftime s
                eq_refl eq_refl).
  assert (H0 : has_table (final (init_db (sh_world s)))).
  { rewrite init_db_eq. cbn.
    destruct (store (sh_world s)) as [[[d|] mt]|] eqn:E;
      [by exists d, mt|by eexists _, _|by eexists _, _]. }
  specialize (H H0).
  destruct (menu strftime s) as [[] s'|[x| |] s']; [done|apply H..].
Qed.

(** X17: a session keeps the validity ranges, whatever is typed: the
    year of every record stays absent or within [1000, current year + 1]
    and its price absent or [>= 0], because option 1 and option 3 pass
    only what the validators accepted and the import validates.  Title
    and author stay non-empty as long as option 7, the import, is not
    chosen. *)
Theorem menu_keeps_store_invariant strftime s :
  let w := sh_world s in
  let w' := sh_world (sh_final (menu strftime s)) in
  year w' = year w
  /\ ((forall id b, catalog w !! id = Some b -> range_ok (year w) b) ->
      forall id b, catalog w' !! id = Some b -> range_ok (year w) b)
  /\ (~ typed (sh_input s) "7" ->
      (forall id b, catalog w !! id = Some b -> named b) ->
      forall id b, catalog w' !! id = Some b -> named b).
Proof.
  intros w w'.
  assert (Ew : w = sh_world s) by done.
  assert (Ew' : w' = sh_world (sh_final (menu strftime s))) by done.
  clearbody w w'. subst w'.
  assert (Hinv : forall P : Livro -> Prop,
            (forall w1 op d,
               year w1 = year w -> validated (year w1) op ->
               (is_import op = true -> typed (sh_input s) "7") ->
               (forall id b, livros d !! id = Some b -> P b) ->
               forall id b, livros (op_db w1 op d) !! id = Some b -> P b) ->
            (forall id b, catalog w !! id = Some b -> P b) ->
            year (sh_world (sh_final (menu strftime s))) = year w
            /\ forall id b,
                 catalog (sh_world (sh_final (menu strftime s))) !! id = Some b ->
                 P b).
  { intros P HP H0.
    apply (menu_invariant (sh_input s)
             (fun w1 => year w1 = year w
                        /\ forall id b, catalog w1 !! id = Some b -> P b)
             (fun _ => True) (year w)); [|done|by rewrite Ew|].
    - intros w1 o [Hy Hw1] _ Hc. split; [|done].
      split; [by rewrite (shell_call_year _ _ _ Hc)|].
      intros id b. rewrite <- db_of_catalog.
      destruct (shell_call_db _ _ _ Hc) as [-> |(op & Hv & Hi & _ & ->)].
      + rewrite db_of_catalog. apply Hw1.
      + apply (HP w1 op _ Hy Hv Hi). intros id' b'. rewrite db_of_catalog.
        apply Hw1.
    - rewrite <- Ew.
      split; [rewrite init_db_eq; by destruct (store w) as [[[?|] ?]|]|].
      intros id b. rewrite <- db_of_catalog, db_of_init_db, db_of_catalog.
      apply H0. }
  split; [|split].
  - apply (Hinv (fun _ => True)); done.
  - intros H0. apply (Hinv (range_ok (year w))); [|done].
    intros w1 op d Hy Hv _ Hd. rewrite <- Hy. apply op_db_range; [done|].
    by rewrite Hy.
  - intros H7 H0. apply (Hinv named); [|done].
    intros w1 op d Hy Hv Hi Hd. apply op_db_named; [|done|done].
    destruct (is_import op); [|done]. destruct H7. by apply Hi.
Qed.

(** X18: nothing is deleted without a confirmation.  In a session where
    no line typed is [s] or [S] (surrounding whitespace aside), every
    record of the catalog is still there at the end, with its id, title,
    author and year: options 4 and 10 do not call [remover_livro] and
    [remover_todos_livros] before they have read that answer. *)
Theorem menu_deletes_only_confirmed strftime s id b :
  ~ confirmed (sh_input s) ->
  catalog (sh_world s) !! id = Some b ->
  still_there (sh_world (sh_final (menu strftime s))) id b.
Proof.
  intros Hnc Hb.
  apply (menu_invariant (sh_input s) (fun w1 => still_there w1 id b)
           (fun _ => True) (year (sh_world s))); [|done|done|].
  - intros w1 o (b1 & Hb1 & H1 & H2 & H3) _ Hc. split; [|done].
    unfold still_there. rewrite <- db_of_catalog in *.
    destruct (shell_call_db _ _ _ Hc) as [-> |(op & _ & _ & Hd & ->)]; [by exists b1|].
    assert (Hdel : is_delete op = false).
    { destruct (is_delete op); [|done]. destruct Hnc. by apply Hd. }
    destruct (op_db_keeps w1 op _ _ _ Hdel Hb1) as [b2 Hb2].
    destruct (op_db_fixed _ _ _ _ _ _ Hb1 Hb2) as (G1 & G2 & G3 & _).
    exists b2. split; [done|]. split; [congruence|]. split; congruence.
  - exists b. unfold still_there.
    rewrite <- db_of_catalog, db_of_init_db, db_of_catalog. done.
Qed.

Lemma menu_deletes_only_confirmed_witness :
  still_there
    (sh_world (sh_final (menu seconds_text
                           (sample_session ["4"; "1"; "n"; ""; "11"]%string))))
    1 (mkLivro "Iracema" "Jose de Alencar" None None).
Proof.
  apply (menu_deletes_only_confirmed seconds_text
           (sample_session ["4"; "1"; "n"; ""; "11"]%string) 1).
  - intros (d & line & Hin & Hs). cbn in Hin.
    repeat (apply elem_of_cons in Hin as [Hin|Hin];
            [injection Hin as -> ->; by vm_compute in Hs|]).
    by apply elem_of_nil in Hin.
  - reflexivity.
Defined.

(** X19: the options that only read leave the store and the archives
    alone.  In a session where none of the options 1, 3, 4, 7, 8 and 10
    is typed (listing, search, export and report remain), the store file
    stays as [init_db] left it at the start, no archive is written or
    removed, and no CSV file but the export file changes. *)
Theorem menu_read_only strftime s :
  Forall (fun t => ~ typed (sh_input s) t) ["1"; "3"; "4"; "7"; "8"; "10"]%string ->
  let w' := sh_world (sh_final (menu strftime s)) in
  store w' = store (final (init_db (sh_world s)))
  /\ backups w' = backups (sh_world s)
  /\ forall path, path <> CSV_EXPORT_FILE ->
                  csv_files w' !! path = csv_files (sh_world s) !! path.
Proof.
  intros Hno w'.
  assert (H1 : ~ typed (sh_input s) "1" /\ ~ typed (sh_input s) "3"
               /\ ~ typed (sh_input s) "4" /\ ~ typed (sh_input s) "7"
               /\ ~ typed (sh_input s) "8" /\ ~ typed (sh_input s) "10").
  { repeat (apply Forall_cons in Hno as [? Hno]). tauto. }
  destruct H1 as (N1 & N3 & N4 & N7 & N8 & N10).
  set (w0 := sh_world s). set (w1 := final (init_db w0)).
  assert (Ht1 : has_table w1).
  { unfold w1. rewrite init_db_eq. cbn.
    destruct (store w0) as [[[d|] mt]|] eqn:E;
      [by exists d, mt|by eexists _, _|by eexists _, _]. }
  apply (menu_invariant (sh_input s)
           (fun w => store w = store w1 /\ backups w = backups w0
                     /\ forall path, path <> CSV_EXPORT_FILE ->
                                     csv_files w !! path = csv_files w0 !! path)
           (fun _ => True) (year w0)); [|done|done|].
  - intros w o (Hs & Hb & Hc) _ Hcall. split; [|done].
    destruct Ht1 as (d & mt & E1). rewrite E1 in Hs.
    destruct Hcall as [dt line _| |t a y p T _| |id p T _ _|id T _ _| |q|_
                      |path T _ _|T|T _]; try tauto.
    + by rewrite E1.
    + rewrite init_db_eq, Hs, E1. done.
    + rewrite (listar_livros_eq _ _ _ Hs), E1. done.
    + rewrite (prepare_eq _ _ _ Hs), E1. done.
    + rewrite (buscar_por_autor_eq _ _ _ _ Hs), E1. done.
    + rewrite (exportar_para_csv_eq _ _ _ _ Hs), E1. cbn.
      split; [done|]. split; [done|]. intros path Hp.
      rewrite lookup_insert_ne by done. by apply Hc.
  - fold w0 w1. split; [done|]. unfold w1. rewrite init_db_eq. cbn.
    by destruct (store w0) as [[[?|] ?]|].
Qed.

Lemma menu_read_only_witness :
  let s := sample_session ["2"; ""; "5"; "machado"; ""; "6"; ""; "9"; ""; "11"]%string in
  let w' := sh_world (sh_final (menu seconds_text s)) in
  store w' = store (final (init_db (sh_world s)))
  /\ backups w' = backups (sh_world s)
  /\ forall path, path <> CSV_EXPORT_FILE ->
                  csv_files w' !! path = csv_files (sh_world s) !! path.
Proof.
  apply (menu_read_only seconds_text
           (sample_session ["2"; ""; "5"; "machado"; ""; "6"; ""; "9"; ""; "11"]%string)).
  repeat (apply Forall_cons; split;
          [intros (d & line & Hin & Hs); cbn in Hin;
           repeat (apply elem_of_cons in Hin as [Hin|Hin];
                   [injection Hin as -> ->; by vm_compute in Hs|]);
           by apply elem_of_nil in Hin|]).
  constructor.
Defined.

(** * The report and the year as text *)

Section ReportFacts.

Lemma lift_eq {A} (m : M A) s :
  lift m s = match m (sh_world s) with
             | Ret a w => ShRet a (set_world w s)
             | Raise e w => ShRaise (StoreExn e) (set_world w s)
             end.
Proof. done. Qed.

Lemma set_world_same s : set_world (sh_world s) s = s.
Proof. by destruct s. Qed.

End ReportFacts.

(** X20: [gerar_relatorio_html] makes no backup and changes neither the
    store nor the archives nor the CSV files.  On a store with its table
    it returns the path and writes six heading lines, one line per row of
    the listing, in its order, and a closing line, replacing the report;
    without the table it raises [OperationalError] and writes nothing.  A
    record with the year 0 gets the line of the same record without a
    year. *)
Theorem gerar_relatorio_html_spec strftime path s :
  (forall d mt,
      store (sh_world s) = Some (mkStore (Some d) mt) ->
      let rows := sql_select (fun _ => true) d in
      let html := html_lines (strftime (clock (sh_world s))) rows in
      listar_livros (sh_world s) = Ret rows (sh_world s)
      /\ gerar_relatorio_html strftime path s
         = ShRet path (mkShell (sh_world s)
                         (<[path := join_lines html]> (sh_reports s))
                         (sh_input s) (sh_output s))
      /\ length html = (7 + size (livros d))%nat
      /\ forall k r, rows !! k = Some r -> html !! (6 + k)%nat = Some (html_row r))
  /\ (~ has_table (sh_world s) ->
      gerar_relatorio_html strftime path s
      = ShRaise (StoreExn OperationalError)
          (set_world (connected (sh_world s)) s))
  /\ (forall id b,
        ano_publicacao b = Some 0 ->
        html_row (id, b)
        = html_row (id, mkLivro (titulo b) (autor b) None (preco b))).
Proof.
  split; [|split].
  - intros d mt E rows html.
    split; [by apply (listar_livros_eq _ _ _ E)|].
    split; [|split].
    + unfold gerar_relatorio_html. rewrite sh_bind_eq, lift_eq.
      rewrite (listar_livros_eq _ _ _ E), set_world_same. done.
    + unfold html, html_lines. rewrite !length_app, length_map. cbn [length].
      destruct (sql_select_all d) as (_ & Hlen & _). fold rows in Hlen. lia.
    + intros k r Hk. unfold html, html_lines.
      rewrite lookup_app_r by (cbn; lia).
      replace (6 + k - length _)%nat with k by (cbn; lia).
      rewrite lookup_app_l by (rewrite length_map; by eapply lookup_lt_Some).
      change (map html_row rows) with (html_row <$> rows).
      by rewrite list_lookup_fmap, Hk.
  - intros Hn. unfold gerar_relatorio_html. rewrite sh_bind_eq, lift_eq.
    destruct (no_table_cases _ Hn) as [E|[mt E]].
    + unfold listar_livros. rewrite bind_eq, (get_connection_None _ E).
      erewrite query_no_table by done. unfold connected. by rewrite E.
    + unfold listar_livros. rewrite bind_eq, (get_connection_Some _ _ E).
      erewrite query_no_table by done. unfold connected. by rewrite E.
  - intros id b Hb. unfold html_row. cbn. by rewrite Hb.
Qed.

Section YearText.

Lemma py_int_str_neg n : n < 0 -> py_int (py_str_int n) = Some n.
Proof.
  intros Hn. unfold py_int, py_str_int.
  destruct (Z.ltb_spec n 0); [|lia].
  destruct (nat_digits_spec (- n) ltac:(lia)) as (ds & -> & Hne & Hds & Hv).
  rewrite list_ascii_of_string_of_list_ascii.
  rewrite strip_chars_nonspace.
  2: { constructor; [done|].
       eapply Forall_impl; [exact Hds|]. by intros c [_ ?]. }
  change (sign ("-"%char :: ds)) with (true, ds). cbv beta iota zeta.
  rewrite digitpart_all by done.
  destruct ds as [|c ds]; [done|]. simpl map in *. cbv iota.
  rewrite Hv. f_equal. lia.
Qed.

End YearText.

(** X21: the year read back from its text.  [int] reads every integer
    back from the text [str] prints for it, so [validar_ano] applied to
    the text of an integer returns that integer when it lies in
    [1000, current year + 1] and nothing otherwise: what the export
    writes for a valid year, the import accepts. *)
Theorem validar_ano_of_str cy y :
  py_int (py_str_int y) = Some y
  /\ validar_ano cy (py_str_int y)
     = (if in_year_range cy y then Some y else None)
  /\ (validar_ano cy (py_str_int y) = Some y <-> 1000 <= y <= cy + 1).
Proof.
  assert (H : py_int (py_str_int y) = Some y).
  { destruct (Z.lt_ge_cases y 0); [by apply py_int_str_neg|by apply py_int_str]. }
  split; [done|]. split.
  - unfold validar_ano. by rewrite H.
  - rewrite validar_ano_Some. tauto.
Qed.
